(** * Music-Folder-Organizer: a shallow embedding of [music_folder_organizer.py]

    The development follows the source file top to bottom:
    - text: [sanitize_folder_name], the pieces of [str] the program uses;
    - [pathlib] paths: the [/] operator, [name], [suffix];
    - the file system the program runs on, as a tree of named entries;
    - the operations on it: [os.mkdir], [Path.mkdir], [os.rename],
      [os.unlink], [shutil.copy2], [shutil.move], [open], [Path.rglob];
    - the program: [print_errors], [get_music_info], [move_music_file],
      [delete_empty_folders], [process_batch], [process_music_folder];
    - the properties of the specification, one theorem each.

    Modelling conventions.  A Python [str] is kept as the bytes of its
    UTF-8 encoding, a byte outside a well-formed encoding standing for the
    lone surrogate by which Python keeps an undecodable byte of a file name.
    What the program takes from its surroundings is a parameter of the
    development ([Platform]): the upper-casing of Unicode, the working
    directory, the devices the directories lie on.  A run of the program
    owns its file system: no other process changes the tree while it runs,
    and the tree has no symbolic links and no entry the user may not read
    or write, except the directories marked as refusing their removal.
    The manifest is a file of the tree; its rows are kept in the world next
    to the tree, and a row is written when it can be encoded: a failure of
    the device under the open manifest is not modelled. *)

From Stdlib Require Import ZArith Ascii String List Bool Lia.
From stdpp Require Import base option strings list gmap.

Local Open Scope string_scope.
Local Open Scope list_scope.

(** ** Text *)

Module Text.

(** The double quote, written by its code so that no literal has to escape it. *)
Definition dquote : ascii := ascii_of_nat 34.

(** The character class of the regular expression in [sanitize_folder_name]:
    less-than, greater-than, colon, double quote, slash, backslash, bar,
    question mark, star.  Nine characters: the doubled backslash of the raw
    string is one escaped backslash. *)
Definition forbidden_chars : list ascii :=
  ["<"; ">"; ":"; dquote; "/"; "\"; "|"; "?"; "*"]%char.

Definition forbidden (c : ascii) : bool :=
  existsb (Ascii.eqb c) forbidden_chars.

(** [re.sub(class, '', name)]: every match of the one-character class is
    replaced by the empty string. *)
Fixpoint sanitize_folder_name (name : string) : string :=
  match name with
  | EmptyString => EmptyString
  | String c rest =>
      if forbidden c then sanitize_folder_name rest
      else String c (sanitize_folder_name rest)
  end.

(** [c in s] for a character. *)
Fixpoint occurs (c : ascii) (s : string) : bool :=
  match s with
  | EmptyString => false
  | String d rest => Ascii.eqb c d || occurs c rest
  end.

(** Every character of [s] satisfies [p]. *)
Fixpoint all_chars (p : ascii -> bool) (s : string) : bool :=
  match s with
  | EmptyString => true
  | String c rest => p c && all_chars p rest
  end.

(** [s[:i]] on bytes. *)
Fixpoint take_chars (i : nat) (s : string) : string :=
  match i, s with
  | O, _ => EmptyString
  | S j, EmptyString => EmptyString
  | S j, String c rest => String c (take_chars j rest)
  end.

(** *** Characters of a [str]

    UTF-8: a byte below 128 is a character of its own; a lead byte from 194
    to 244 announces one, two or three continuation bytes (128 to 191), the
    first of which is further restricted after the lead bytes 224, 237, 240
    and 244 (no overlong form, no surrogate, nothing above U+10FFFF).
    [utf8_from k lo hi s] reads [s] when [k] continuation bytes are still
    due, the next one between [lo] and [hi]. *)
Definition between (lo hi n : nat) : bool := (lo <=? n)%nat && (n <=? hi)%nat.

Fixpoint utf8_from (due lo hi : nat) (s : string) : bool :=
  match s with
  | EmptyString => (due =? 0)%nat
  | String b rest =>
      let n := nat_of_ascii b in
      match due with
      | S due' => between lo hi n && utf8_from due' 128 191 rest
      | O =>
          if (n <? 128)%nat then utf8_from 0 0 0 rest
          else if between 194 223 n then utf8_from 1 128 191 rest
          else if (n =? 224)%nat then utf8_from 2 160 191 rest
          else if (n =? 237)%nat then utf8_from 2 128 159 rest
          else if between 225 239 n then utf8_from 2 128 191 rest
          else if (n =? 240)%nat then utf8_from 3 144 191 rest
          else if (n =? 244)%nat then utf8_from 3 128 143 rest
          else if between 241 243 n then utf8_from 3 128 191 rest
          else false
      end
  end.

(** The string is the encoding of a [str] without lone surrogates: what
    [str.encode('utf-8')] accepts. *)
Definition utf8 (s : string) : bool := utf8_from 0 0 0 s.

(** How many bytes the lead byte announces for its character. *)
Definition announced (b : ascii) : nat :=
  let n := nat_of_ascii b in
  if between 194 223 n then 2
  else if between 224 239 n then 3
  else if between 240 244 n then 4
  else 1.

(** [s[0]]: the first character, that is the bytes of the first code point,
    or the first byte alone when no well-formed encoding starts there;
    indexing raises [IndexError] on the empty string. *)
Definition first_char (s : string) : option string :=
  match s with
  | EmptyString => None
  | String b _ =>
      let c := take_chars (announced b) s in
      if utf8 c then Some c else Some (String b EmptyString)
  end.

(** Truthiness of a [str]: the empty string is false. *)
Definition truthy (s : string) : bool :=
  match s with EmptyString => false | _ => true end.

(** [s.rfind('.')]: the position of the last dot, if there is one. *)
Fixpoint rfind_dot (s : string) : option nat :=
  match s with
  | EmptyString => None
  | String c rest =>
      match rfind_dot rest with
      | Some i => Some (S i)
      | None => if Ascii.eqb c "."%char then Some 0%nat else None
      end
  end.

(** [s[i:]]. *)
Fixpoint drop_chars (i : nat) (s : string) : string :=
  match i, s with
  | O, _ => s
  | S j, EmptyString => EmptyString
  | S j, String _ rest => drop_chars j rest
  end.

(** [s.split('/')] with the empty pieces dropped: the reading of a path
    string into its components. *)
Fixpoint split_slash_aux (cur : string) (s : string) : list string :=
  match s with
  | EmptyString => [cur]
  | String c rest =>
      if Ascii.eqb c "/"%char then cur :: split_slash_aux EmptyString rest
      else split_slash_aux (cur ++ String c EmptyString) rest
  end.

Definition split_slash (s : string) : list string :=
  split_slash_aux EmptyString s.

End Text.

Export Text.

(** ** [pathlib] paths *)

Module Pathlib.

(** A pure POSIX path as [pathlib] keeps it: whether it starts at the root,
    and its components.  The components never contain a slash, the empty
    string or a single dot (pathlib drops those when it reads a string), but
    they may be the two dots, which only the operating system resolves. *)
Record Path := mkPath { anchored : bool; parts : list string }.

#[global] Instance Path_eq_dec : EqDecision Path.
Proof. solve_decision. Defined.

Definition starts_with_slash (s : string) : bool :=
  match s with
  | String c _ => Ascii.eqb c "/"%char
  | EmptyString => false
  end.

Definition kept_component (c : string) : bool :=
  negb (String.eqb c "") && negb (String.eqb c ".").

(** [Path(s)]: the reading of one string. *)
Definition parse (s : string) : Path :=
  mkPath (starts_with_slash s) (List.filter kept_component (split_slash s)).

(** [p / s]: a rooted right operand replaces the left one, otherwise its
    components are appended. *)
Definition joinpath (p : Path) (s : string) : Path :=
  let q := parse s in
  if anchored q then q else mkPath (anchored p) (parts p ++ parts q).

(** [p._make_child_relpath(name)], used by the directory walkers for the
    names a directory listing returns. *)
Definition child (p : Path) (name : string) : Path :=
  mkPath (anchored p) (parts p ++ [name]).

(** [p.name]: the last component, the empty string when there is none. *)
Definition name (p : Path) : string := List.last (parts p) "".

(** [p.suffix]: from the last dot of the name on, when that dot is neither
    the first nor the last character of the name. *)
Definition suffix (p : Path) : string :=
  let n := name p in
  match rfind_dot n with
  | Some i =>
      if (0 <? i)%nat && (i <? String.length n - 1)%nat
      then drop_chars i n else ""
  | None => ""
  end.

End Pathlib.

Export Pathlib.

Declare Scope path_scope.
Delimit Scope path_scope with path.
Bind Scope path_scope with Path.
Infix "/" := joinpath : path_scope.

(** ** The file system *)

Module FS.

#[local] Set Warnings "-register-all".

(** What an operation raises.  [Error] and [SameFileError] are those of
    [shutil]; [CrossDeviceLink] is the [OSError] of a rename from one device
    to another; [ID3NoHeaderError] stands for every way [EasyID3] rejects
    the bytes of a file. *)
Inductive exn :=
| FileNotFoundError
| NotADirectoryError
| FileExistsError
| IsADirectoryError
| DirectoryNotEmpty
| InvalidArgument
| PermissionError
| CrossDeviceLink
| Error
| SameFileError
| ID3NoHeaderError
| IndexError
| UnicodeEncodeError.

#[global] Instance exn_eq_dec : EqDecision exn.
Proof. solve_decision. Defined.

(** The result of a step that may raise. *)
Inductive outcome (A : Type) :=
| Ret (a : A)
| Raise (e : exn).
Arguments Ret {A} a.
Arguments Raise {A} e.

Definition and_then {A B} (r : outcome A) (k : A -> outcome B) : outcome B :=
  match r with
  | Ret a => k a
  | Raise e => Raise e
  end.

Notation "'let?' x := r 'in' k" := (and_then r (fun x => k))
  (at level 10, x name, r at level 200, k at level 200).

(** An entry of the tree.  A regular file carries the number of its inode
    and what [EasyID3] reads from it: [None] when it is not tagged audio,
    otherwise the tag mapping, each key with its list of values.  Two
    entries with the same inode number are two names (hard links) of one
    file.  A directory carries its listing, in the order [os.scandir]
    returns it, and a flag [busy] set when the operating system refuses to
    remove it (a mount point, a directory held open, a directory the user
    may not delete).  There are no symbolic links. *)
Inductive node :=
| File (ino : nat) (content : option (gmap string (list string)))
| Dir (busy : bool) (entries : list (string * node)).

(** A position in the tree: the names from the top, none of them the two dots. *)
Abbreviation loc := (list string).

(** What the program takes from its surroundings: [str.upper] (the case
    mapping of Unicode, on the bytes of the encoding), the position of the
    working directory of the process, and for the directory at each position
    the device its entries lie on. *)
Class Platform := {
  str_upper : string -> string;
  cwd : loc;
  device : loc -> nat
}.

(** *** Directory listings *)

Fixpoint get_child (n : string) (es : list (string * node)) : option node :=
  match es with
  | [] => None
  | (m, c) :: rest => if String.eqb n m then Some c else get_child n rest
  end.

(** A new name goes to the end of the listing; an existing one is replaced
    in place. *)
Fixpoint put_child (n : string) (v : node) (es : list (string * node))
  : list (string * node) :=
  match es with
  | [] => [(n, v)]
  | (m, c) :: rest =>
      if String.eqb n m then (m, v) :: rest else (m, c) :: put_child n v rest
  end.

Definition del_child (n : string) (es : list (string * node))
  : list (string * node) :=
  List.filter (fun e => negb (String.eqb n (fst e))) es.

Fixpoint map_child (n : string) (f : node -> node) (es : list (string * node))
  : list (string * node) :=
  match es with
  | [] => []
  | (m, c) :: rest =>
      if String.eqb n m then (m, f c) :: rest else (m, c) :: map_child n f rest
  end.

(** *** Positions *)

Fixpoint lookup_loc (l : loc) (t : node) : option node :=
  match l with
  | [] => Some t
  | n :: l' =>
      match t with
      | Dir _ es =>
          match get_child n es with
          | Some c => lookup_loc l' c
          | None => None
          end
      | File _ _ => None
      end
  end.

(** [alter_at f l t] applies [f] to the entry at [l], when there is one. *)
Fixpoint alter_at (f : node -> node) (l : loc) (t : node) : node :=
  match l with
  | [] => f t
  | n :: l' =>
      match t with
      | Dir b es => Dir b (map_child n (alter_at f l') es)
      | File _ _ => t
      end
  end.

Definition on_entries (f : list (string * node) -> list (string * node))
  (t : node) : node :=
  match t with
  | Dir b es => Dir b (f es)
  | File _ _ => t
  end.

(** Linking [v] at position [l], unlinking position [l]: both act on the
    listing of the directory above [l]; the top has no name and stays. *)
Definition link_at (l : loc) (v : node) (t : node) : node :=
  match l with
  | [] => t
  | _ => alter_at (on_entries (put_child (List.last l "") v)) (List.removelast l) t
  end.

Definition unlink_at (l : loc) (t : node) : node :=
  match l with
  | [] => t
  | _ => alter_at (on_entries (del_child (List.last l ""))) (List.removelast l) t
  end.

(** *** Inodes *)

(** The largest inode number in use, and one that is not in use. *)
Fixpoint max_ino (n : node) : nat :=
  match n with
  | File i _ => i
  | Dir _ es => fold_right (fun '(_, c) acc => Nat.max (max_ino c) acc) 0 es
  end.

Definition fresh_ino (t : node) : nat := S (max_ino t).

(** Writing the content of an inode: every name of the file shows it. *)
Fixpoint write_inode (i : nat) (content : option (gmap string (list string)))
  (n : node) : node :=
  match n with
  | File j c => if (j =? i)%nat then File j content else File j c
  | Dir b es => Dir b (List.map (fun '(m, c) => (m, write_inode i content c)) es)
  end.

(** *** Path resolution *)

Section Calls.

Context {OS : Platform}.

(** The kernel's walk: each component is looked up in the directory reached
    so far, which must exist and be a directory; the two dots lead to the
    directory above (the top is above itself).  The entry the last component
    names is not looked at. *)
Fixpoint walk (t : node) (cur : loc) (cs : list string) : outcome loc :=
  match cs with
  | [] => Ret cur
  | c :: cs' =>
      match lookup_loc cur t with
      | None => Raise FileNotFoundError
      | Some (File _ _) => Raise NotADirectoryError
      | Some (Dir _ _) =>
          walk t (if String.eqb c ".." then List.removelast cur else cur ++ [c]) cs'
      end
  end.

(** The tree's top is the root directory; a path that is not rooted starts
    at the working directory, which must be there. *)
Definition start (p : Path) : loc := if anchored p then [] else cwd.

Definition locate (p : Path) (t : node) : outcome loc :=
  match lookup_loc (start p) t with
  | None => Raise FileNotFoundError
  | Some (File _ _) => Raise NotADirectoryError
  | Some (Dir _ _) => walk t (start p) (parts p)
  end.

(** [os.stat]. *)
Definition stat (p : Path) (t : node) : outcome node :=
  match locate p t with
  | Raise e => Raise e
  | Ret l =>
      match lookup_loc l t with
      | Some n => Ret n
      | None => Raise FileNotFoundError
      end
  end.

(** [os.path.exists], [os.path.isdir], [os.path.isfile]: false on any error. *)
Definition path_exists (p : Path) (t : node) : bool :=
  match stat p t with Ret _ => true | Raise _ => false end.

Definition is_dir (p : Path) (t : node) : bool :=
  match stat p t with Ret (Dir _ _) => true | _ => false end.

Definition is_file (p : Path) (t : node) : bool :=
  match stat p t with Ret (File _ _) => true | _ => false end.

(** [os.path.samefile], as [shutil._samefile] uses it: the two paths lead to
    one inode, or to one directory; false on any error. *)
Definition samefile (p q : Path) (t : node) : bool :=
  match locate p t, locate q t with
  | Ret lp, Ret lq =>
      match lookup_loc lp t, lookup_loc lq t with
      | Some (File i _), Some (File j _) => (i =? j)%nat
      | Some (Dir _ _), Some (Dir _ _) => bool_decide (lp = lq)
      | _, _ => false
      end
  | _, _ => false
  end.

(** *** System calls: each either fails and changes nothing, or succeeds *)

(** [os.mkdir]. *)
Definition os_mkdir (p : Path) (t : node) : outcome node :=
  match locate p t with
  | Raise e => Raise e
  | Ret l =>
      match lookup_loc l t with
      | Some _ => Raise FileExistsError
      | None => Ret (link_at l (Dir false []) t)
      end
  end.

Fixpoint starts_with (pre l : loc) : bool :=
  match pre, l with
  | [], _ => true
  | a :: pre', b :: l' => String.eqb a b && starts_with pre' l'
  | _ :: _, [] => false
  end.

(** The device an entry lies on is the device of the directory listing it. *)
Definition same_device (l l' : loc) : bool :=
  (device (List.removelast l) =? device (List.removelast l'))%nat.

(** [os.rename]: both directories are resolved, and they must lie on one
    device; a no-op on one and the same entry and on two names of one file;
    a file replaces a file, a directory replaces an empty directory; a
    directory does not move below itself. *)
Definition os_rename (src dst : Path) (t : node) : outcome node :=
  match locate src t with
  | Raise e => Raise e
  | Ret ls =>
      match locate dst t with
      | Raise e => Raise e
      | Ret ld =>
          if negb (same_device ls ld) then Raise CrossDeviceLink
          else
            match lookup_loc ls t with
            | None => Raise FileNotFoundError
            | Some n =>
                if bool_decide (ls = ld) then Ret t
                else
                  match n, lookup_loc ld t with
                  | File i _, Some (File j _) =>
                      if (i =? j)%nat then Ret t
                      else Ret (link_at ld n (unlink_at ls t))
                  | File _ _, Some (Dir _ _) => Raise IsADirectoryError
                  | File _ _, None => Ret (link_at ld n (unlink_at ls t))
                  | Dir _ _, Some (File _ _) => Raise NotADirectoryError
                  | Dir _ _, Some (Dir _ (_ :: _)) => Raise DirectoryNotEmpty
                  | Dir _ _, _ =>
                      if starts_with ls ld then Raise InvalidArgument
                      else Ret (link_at ld n (unlink_at ls t))
                  end
            end
      end
  end.

(** [os.unlink]. *)
Definition os_unlink (p : Path) (t : node) : outcome node :=
  match locate p t with
  | Raise e => Raise e
  | Ret l =>
      match lookup_loc l t with
      | None => Raise FileNotFoundError
      | Some (Dir _ _) => Raise IsADirectoryError
      | Some (File _ _) => Ret (unlink_at l t)
      end
  end.

(** [shutil.copy2] of a regular file: a destination that is a directory
    receives the copy under the source's name; the source is opened first,
    then the destination is opened for writing: a file that is there is
    written over (under every name it has), a name that is free receives a
    new file. *)
Definition copy2 (src dst : Path) (t : node) : outcome node :=
  let dst := if is_dir dst t then (dst / name src)%path else dst in
  if samefile src dst t then Raise SameFileError
  else
    match stat src t with
    | Raise e => Raise e
    | Ret (Dir _ _) => Raise IsADirectoryError
    | Ret (File _ c) =>
        match locate dst t with
        | Raise e => Raise e
        | Ret ld =>
            match lookup_loc ld t with
            | Some (Dir _ _) => Raise IsADirectoryError
            | Some (File j _) => Ret (write_inode j c t)
            | None => Ret (link_at ld (File (fresh_ino t) c) t)
            end
        end
    end.

(** [open(mode='a')] on a path: a file that is there is kept as it is, a
    name that is free receives a new, empty file. *)
Definition open_append (p : Path) (t : node) : outcome node :=
  match locate p t with
  | Raise e => Raise e
  | Ret l =>
      match lookup_loc l t with
      | Some (Dir _ _) => Raise IsADirectoryError
      | Some (File _ _) => Ret t
      | None => Ret (link_at l (File (fresh_ino t) None) t)
      end
  end.

(** [os.rmdir] on the entry itself: what it answers for this entry. *)
Definition rmdir_refusal (n : node) : option exn :=
  match n with
  | File _ _ => Some NotADirectoryError
  | Dir _ (_ :: _) => Some DirectoryNotEmpty
  | Dir true [] => Some PermissionError
  | Dir false [] => None
  end.

(** *** [Path.rglob('*')] on a tree that does not change meanwhile *)

(** The recursive wildcard selector: for each directory, top first and in
    listing order, every entry of that directory. *)
Fixpoint rglob_node (prefix : Path) (n : node) : list Path :=
  match n with
  | File _ _ => []
  | Dir _ es =>
      List.map (fun e => child prefix (fst e)) es ++
      List.flat_map (fun '(m, c) => rglob_node (child prefix m) c) es
  end.

(** Nothing is yielded when the start is not a directory. *)
Definition rglob (p : Path) (t : node) : list Path :=
  match stat p t with
  | Ret (Dir b es) => rglob_node p (Dir b es)
  | _ => []
  end.

End Calls.

End FS.

Export FS.

(** ** The program *)

Module Organizer.

(** [MUSIC_EXTENSIONS] *)
Definition MUSIC_EXTENSIONS : list string := [".mp3"; ".flac"; ".wav"; ".m4a"].

(** [x in MUSIC_EXTENSIONS]: equality of strings, character by character. *)
Definition in_extensions (x : string) : bool :=
  existsb (String.eqb x) MUSIC_EXTENSIONS.

(** The dictionary [get_music_info] returns: always these five keys. *)
Record Info := mkInfo {
  name_ : string;
  artists : string;
  main_artist : string;
  year : string;
  album : string
}.

#[global] Instance Info_eq_dec : EqDecision Info.
Proof. solve_decision. Defined.

(** A cell of a manifest row: [csv] writes [None] as the empty field. *)
Inductive cell :=
| Str (s : string)
| PathCell (p : Path)
| NoneCell.

(** What [logging] receives: [logging.error] from [print_errors] with the
    name of the function and the exception, [logging.info] from
    [delete_empty_folders] with the directory removed. *)
Inductive event :=
| LogError (func : string) (e : exn)
| LogDeleted (dir : Path).

(** Everything a run reads and writes: the tree, the rows of the manifest
    file (oldest first), the log lines (oldest first). *)
Record world := mkWorld {
  tree : node;
  manifest : list (list cell);
  log : list event
}.

Definition set_tree (t : node) (w : world) : world :=
  mkWorld t (manifest w) (log w).

(** *** Computations that may raise *)

(** A statement sequence: from a world to an outcome and the world left
    behind (what was done before an exception stays done). *)
Definition M (A : Type) : Type := world -> outcome A * world.

Definition ret {A} (a : A) : M A := fun w => (Ret a, w).

Definition bind {A B} (m : M A) (k : A -> M B) : M B :=
  fun w =>
    match m w with
    | (Ret a, w') => k a w'
    | (Raise e, w') => (Raise e, w')
    end.

Notation "'let*' x := m 'in' k" := (bind m (fun x => k))
  (at level 10, x name, m at level 200, k at level 200).
Notation "m ;; k" := (bind m (fun _ => k))
  (at level 100, right associativity).

(** A system call on the tree. *)
Definition syscall (f : node -> outcome node) : M unit :=
  fun w =>
    match f (tree w) with
    | Ret t' => (Ret tt, set_tree t' w)
    | Raise e => (Raise e, w)
    end.

(** A pure step that may raise. *)
Definition lift {A} (r : outcome A) : M A := fun w => (r, w).

(** What the text layer of the manifest can encode: a [str] without lone
    surrogates; a path is written as the string of its components. *)
Definition encodable (c : cell) : bool :=
  match c with
  | Str s => utf8 s
  | PathCell p => forallb utf8 (parts p)
  | NoneCell => true
  end.

(** [writer.writerow(row)]: the line of the row is formed and handed to the
    file opened with [encoding='utf-8'] in one piece; a cell that cannot be
    encoded raises there and nothing of the row is written. *)
Definition writerow (row : list cell) : M unit :=
  fun w =>
    if forallb encodable row
    then (Ret tt, mkWorld (tree w) (manifest w ++ [row]) (log w))
    else (Raise UnicodeEncodeError, w).

(** [print_errors]: the wrapped function's value, or [None] after logging
    the exception.  For a function that returns nothing, [Some tt] is its
    normal return and [None] its return after an exception; Python answers
    [None] both times, and the program never looks at such a result. *)
Definition print_errors {A} (func_name : string) (body : M A) : M (option A) :=
  fun w =>
    match body w with
    | (Ret a, w') => (Ret (Some a), w')
    | (Raise e, w') =>
        (Ret None, mkWorld (tree w') (manifest w') (log w' ++ [LogError func_name e]))
    end.

Section Program.

Context {OS : Platform}.

(** *** [get_music_info] *)

(** [audio.get(key, ['Unknown'])[0]] *)
Definition tag_or_unknown (audio : gmap string (list string)) (key : string)
  : outcome string :=
  match default ["Unknown"] (audio !! key) with
  | v :: _ => Ret v
  | [] => Raise IndexError
  end.

(** [EasyID3(file_path)] *)
Definition EasyID3 (file_path : Path) (t : node)
  : outcome (gmap string (list string)) :=
  match stat file_path t with
  | Raise e => Raise e
  | Ret (Dir _ _) => Raise IsADirectoryError
  | Ret (File _ None) => Raise ID3NoHeaderError
  | Ret (File _ (Some audio)) => Ret audio
  end.

Definition get_music_info_body (file_path : Path) : M Info :=
  fun w =>
    lift (let? audio := EasyID3 file_path (tree w) in
          let? n := tag_or_unknown audio "title" in
          let? a := tag_or_unknown audio "artist" in
          let? m := tag_or_unknown audio "albumartist" in
          let? y := tag_or_unknown audio "date" in
          let? b := tag_or_unknown audio "album" in
          Ret (mkInfo n a m y b)) w.

Definition get_music_info (file_path : Path) : M (option Info) :=
  print_errors "get_music_info" (get_music_info_body file_path).

(** *** [Path.mkdir(parents=True, exist_ok=True)] *)

(** The method tries [os.mkdir] first.  On [FileNotFoundError] it makes the
    parent the same way and then makes the directory itself without
    [parents]; on any other [OSError] it is content when the path is a
    directory already.  The recursion is on the components, last one first;
    a path without components is its own parent. *)
Fixpoint Path_mkdir_rev (anch : bool) (rparts : list string) : M unit :=
  fun w =>
    let self := mkPath anch (List.rev rparts) in
    match os_mkdir self (tree w) with
    | Ret t' => (Ret tt, set_tree t' w)
    | Raise FileNotFoundError =>
        match rparts with
        | [] => (Raise FileNotFoundError, w)
        | _ :: rparent =>
            match Path_mkdir_rev anch rparent w with
            | (Raise e, w1) => (Raise e, w1)
            | (Ret _, w1) =>
                match os_mkdir self (tree w1) with
                | Ret t' => (Ret tt, set_tree t' w1)
                | Raise FileNotFoundError => (Raise FileNotFoundError, w1)
                | Raise e => if is_dir self (tree w1) then (Ret tt, w1) else (Raise e, w1)
                end
            end
        end
    | Raise e => if is_dir self (tree w) then (Ret tt, w) else (Raise e, w)
    end.

Definition Path_mkdir (p : Path) : M unit :=
  Path_mkdir_rev (anchored p) (List.rev (parts p)).

(** *** [shutil.move] *)

(** The end of [shutil.move]: [os.rename], and when that raises an
    [OSError] (every failure of [os_rename] is one), the copy of the source
    followed by its unlinking.  The fallback for a source that is a
    directory ([copytree], [rmtree]) is not modelled, the failure of the
    rename standing for it: the program moves only what [EasyID3] has just
    read as a regular file. *)
Definition rename_or_copy (src real_dst : Path) : M unit :=
  fun w =>
    match os_rename src real_dst (tree w) with
    | Ret t' => (Ret tt, set_tree t' w)
    | Raise e =>
        if is_dir src (tree w) then (Raise e, w)
        else (syscall (copy2 src real_dst) ;; syscall (os_unlink src)) w
    end.

(** A destination that is a directory receives the source under the
    source's own name, unless that name is taken there; a destination that
    is the source directory itself is renamed onto itself.  Otherwise the
    source is moved onto the destination. *)
Definition shutil_move (src dst : Path) : M unit :=
  fun w =>
    if is_dir dst (tree w) then
      if samefile src dst (tree w) then syscall (os_rename src dst) w
      else
        let real_dst := (dst / name src)%path in
        if path_exists real_dst (tree w) then (Raise Error, w)
        else rename_or_copy src real_dst w
    else rename_or_copy src dst w.

(** *** [move_music_file] *)

(** [s[0]] *)
Definition index0 (s : string) : outcome string :=
  match first_char s with
  | Some c => Ret c
  | None => Raise IndexError
  end.

(** The lines before [mkdir]: the directory the file goes to. *)
Definition new_folder_of (info : Info) (base_folder : Path) : outcome Path :=
  let main_artist :=
    if truthy (main_artist info) then main_artist info else "Unknown" in
  let? first_letter :=
    (if negb (String.eqb main_artist "Unknown")
     then (let? c := index0 main_artist in Ret (str_upper c))
     else Ret "Unknown") in
  let album := if truthy (album info) then album info else "Unknown" in
  let album := sanitize_folder_name album in
  Ret (base_folder / first_letter / main_artist / album)%path.

(** The path the file is moved to, computed from [new_folder]. *)
Definition new_path_of (file_path : Path) (info : Info) (base_folder : Path)
  : outcome Path :=
  let? new_folder := new_folder_of info base_folder in
  Ret (new_folder / name file_path)%path.

Definition move_music_file_body (file_path : Path) (info : Info)
  (base_folder : Path) : M Path :=
  let* new_folder := lift (new_folder_of info base_folder) in
  Path_mkdir new_folder ;;
  let new_path := (new_folder / name file_path)%path in
  shutil_move file_path new_path ;;
  ret new_path.

Definition move_music_file (file_path : Path) (info : Info)
  (base_folder : Path) : M (option Path) :=
  print_errors "move_music_file" (move_music_file_body file_path info base_folder).

(** *** [delete_empty_folders] *)

Definition is_empty_dir (n : node) : bool :=
  match n with
  | Dir _ [] => true
  | _ => false
  end.

(** [folder_path.rglob('*')] is a generator, and the loop body removes
    directories while it runs.  For a directory the generator first lists it
    and yields every entry, and only after the loop body has seen them all
    does it list the directory again to go down into each directory still
    there.  [prune] is the first half for one directory: the entries of its
    listing in order, each one that [is_dir()] and has nothing in
    [iterdir()] removed with [rmdir()] and logged.  An [rmdir] that raises
    ends the loop there; the entries from that one on are left as they are. *)
Fixpoint prune (prefix : Path) (es : list (string * node))
  : list (string * node) * list event * option exn :=
  match es with
  | [] => ([], [], None)
  | (m, c) :: rest =>
      if is_empty_dir c then
        match rmdir_refusal c with
        | Some e => ((m, c) :: rest, [], Some e)
        | None =>
            let '(rest', lg, r) := prune prefix rest in
            (rest', LogDeleted (child prefix m) :: lg, r)
        end
      else
        let '(rest', lg, r) := prune prefix rest in
        ((m, c) :: rest', lg, r)
  end.

(** What a first half that did not raise leaves of a listing. *)
Definition survivors (es : list (string * node)) : list (string * node) :=
  List.filter (fun e => negb (is_empty_dir (snd e))) es.

(** The second half for one directory, [walk_below] being the walk of a
    directory found in it: it runs over the listing without the empty
    directories, which the first half has just removed; after an exception
    it stops, the entries not yet reached staying as the first half left
    them. *)
Definition descend (walk_below : Path -> node -> node * list event * option exn)
  (prefix : Path)
  : list (string * node) -> list (string * node) * list event * option exn :=
  fix go (l : list (string * node)) :=
    match l with
    | [] => ([], [], None)
    | (m, c) :: rest =>
        if is_empty_dir c then go rest
        else
          match walk_below (child prefix m) c with
          | (c', lga, Some e) => ((m, c') :: survivors rest, lga, Some e)
          | (c', lga, None) =>
              let '(rest', lgb, r) := go rest in
              ((m, c') :: rest', lga ++ lgb, r)
          end
    end.

(** The whole walk below one directory: the first half, then the same walk
    in each directory that is left, in listing order.  The result is the
    directory afterwards, the lines logged, and the exception if any. *)
Fixpoint sweep_node (prefix : Path) (n : node) {struct n}
  : node * list event * option exn :=
  match n with
  | File _ _ => (n, [], None)
  | Dir b es =>
      match prune prefix es with
      | (es1, lg1, Some e) => (Dir b es1, lg1, Some e)
      | (_, lg1, None) =>
          let '(es2, lg2, r) := descend sweep_node prefix es in
          (Dir b es2, lg1 ++ lg2, r)
      end
  end.

(** The start directory is resolved once, which is how the pass behaves
    for a [folder_path] without the two dots among its components: the
    entries are then found where the walk left them.  [rglob] yields
    nothing when the start is not a directory. *)
Definition delete_empty_folders_body (folder_path : Path) : M unit :=
  fun w =>
    match locate folder_path (tree w) with
    | Raise _ => (Ret tt, w)
    | Ret l =>
        match lookup_loc l (tree w) with
        | Some (Dir b es) =>
            let '(n', lg, r) := sweep_node folder_path (Dir b es) in
            (match r with Some e => Raise e | None => Ret tt end,
             mkWorld (alter_at (fun _ => n') l (tree w)) (manifest w) (log w ++ lg))
        | _ => (Ret tt, w)
        end
    end.

Definition delete_empty_folders (folder_path : Path) : M (option unit) :=
  print_errors "delete_empty_folders" (delete_empty_folders_body folder_path).

(** *** [process_batch] *)

Definition data_row (info : Info) (new_path : option Path) : list cell :=
  [Str (name_ info); Str (artists info); Str (main_artist info);
   Str (year info); Str (album info);
   match new_path with Some p => PathCell p | None => NoneCell end].

(** One turn of the loop. *)
Definition process_file (file_path : Path) (base_folder : Path) : M unit :=
  let* info := get_music_info file_path in
  match info with
  | Some info =>
      let* new_path := move_music_file file_path info base_folder in
      writerow (data_row info new_path)
  | None => ret tt
  end.

Fixpoint process_batch_body (files : list Path) (base_folder : Path) : M unit :=
  match files with
  | [] => ret tt
  | file_path :: rest =>
      process_file file_path base_folder ;;
      process_batch_body rest base_folder
  end.

Definition process_batch (files : list Path) (base_folder : Path)
  : M (option unit) :=
  print_errors "process_batch" (process_batch_body files base_folder).

(** *** [process_music_folder] *)

Definition header_row : list cell :=
  [Str "Name"; Str "Artists"; Str "Main Artist"; Str "Year"; Str "Album";
   Str "New Path"].

(** The loop over the scanned entries, with [batch] and [batch_count] as
    they stand; it returns the batch left over at the end. *)
Fixpoint batch_loop (files : list Path) (batch : list Path) (batch_count : Z)
  (batch_size : Z) (base_folder : Path) : M (list Path) :=
  match files with
  | [] => ret batch
  | file_path :: rest =>
      if in_extensions (suffix file_path) then
        let batch := batch ++ [file_path] in
        let batch_count := (batch_count + 1)%Z in
        if (batch_count >=? batch_size)%Z then
          process_batch batch base_folder ;;
          batch_loop rest [] 0%Z batch_size base_folder
        else batch_loop rest batch batch_count batch_size base_folder
      else batch_loop rest batch batch_count batch_size base_folder
  end.

(** The manifest is opened for appending before anything else, which
    creates the file when it is not there, and stays open until the batches
    are done; an exception of the [open] leaves the function.  Closing the
    file changes nothing here. *)
Definition process_music_folder_body (folder_path output_csv base_folder : Path)
  (delete_empty : bool) (batch_size : Z) : M unit :=
  syscall (open_append output_csv) ;;
  writerow header_row ;;
  let* files := (fun w => (Ret (rglob folder_path (tree w)), w)) in
  let* batch := batch_loop files [] 0%Z batch_size base_folder in
  (match batch with
   | [] => ret None
   | _ :: _ => process_batch batch base_folder
   end) ;;
  if delete_empty then delete_empty_folders folder_path ;; ret tt
  else ret tt.

Definition process_music_folder (folder_path output_csv base_folder : Path)
  (delete_empty : bool) (batch_size : Z) : M (option unit) :=
  print_errors "process_music_folder"
    (process_music_folder_body folder_path output_csv base_folder delete_empty
       batch_size).

End Program.

End Organizer.

Export Organizer.

(** ** The specification's vocabulary *)

Module Spec.

Section Vocabulary.

Context {OS : Platform}.

(** A field of the metadata as the resolver uses it: the field itself, or
    the sentinel when the field is the empty string. *)
Definition or_unknown (field : string) : string :=
  if truthy field then field else "Unknown".

(** The first-level folder for an artist name: the sentinel for the
    sentinel, otherwise the first character in upper case (nothing for the
    empty name). *)
Definition first_letter_of (artist : string) : string :=
  if String.eqb artist "Unknown" then "Unknown"
  else match first_char artist with
       | Some c => str_upper c
       | None => ""
       end.

(** The strings the resolver hands to the path for the artist level and the
    album level. *)
Definition artist_component (info : Info) : string :=
  or_unknown (main_artist info).

Definition album_component (info : Info) : string :=
  sanitize_folder_name (or_unknown (album info)).

(** The destination as the specification's data model words it, on the
    fields of the record as they are:
    base_root / first_letter_of(main_artist) / main_artist /
    sanitized(album) / original_filename. *)
Definition spec_destination (file_path : Path) (info : Info) (base_root : Path)
  : Path :=
  (base_root / first_letter_of (main_artist info) / main_artist info
             / sanitize_folder_name (album info) / name file_path)%path.

(** The same with the fields as the resolver uses them. *)
Definition resolved_destination (file_path : Path) (info : Info)
  (base_root : Path) : Path :=
  (base_root / first_letter_of (artist_component info) / artist_component info
             / album_component info / name file_path)%path.

(** The candidate files: the scanned entries whose suffix is one of the
    recognized extensions, in scan order. *)
Definition candidates_of (files : list Path) : list Path :=
  List.filter (fun p => in_extensions (suffix p)) files.

Definition candidates (folder_path : Path) (t : node) : list Path :=
  candidates_of (rglob folder_path t).

(** The world a computation leaves. *)
Definition after {A} (m : M A) (w : world) : world := snd (m w).

(** A data row with a destination in its last cell. *)
Definition has_path (row : list cell) : bool :=
  match List.last row NoneCell with
  | PathCell _ => true
  | _ => false
  end.

(** The row the batch forms for [file_path] in [w], when the metadata can be
    extracted: the file has then been through [move_music_file]. *)
Definition row_of (file_path : Path) (base_folder : Path) (w : world)
  : option (list cell) :=
  match get_music_info file_path w with
  | (Ret (Some info), w1) =>
      match move_music_file file_path info base_folder w1 with
      | (Ret new_path, _) => Some (data_row info new_path)
      | (Raise _, _) => None
      end
  | _ => None
  end.

(** Whether a row is written for the file: its metadata is extracted and
    the row can be encoded.  Whether the file is processed with success:
    moreover the file was moved, so that the row carries its new path. *)
Definition written (file_path : Path) (base_folder : Path) (w : world) : bool :=
  match row_of file_path base_folder w with
  | Some row => forallb encodable row
  | None => false
  end.

Definition succeeds (file_path : Path) (base_folder : Path) (w : world) : bool :=
  match row_of file_path base_folder w with
  | Some row => has_path row && forallb encodable row
  | None => false
  end.

(** How many files of a batch satisfy [ok], each one asked in the world in
    which the batch reaches it; the files after one at which the batch is
    left by an exception are not reached. *)
Fixpoint count_files (ok : Path -> Path -> world -> bool) (files : list Path)
  (base_folder : Path) (w : world) : nat :=
  match files with
  | [] => 0
  | file_path :: rest =>
      (if ok file_path base_folder w then 1 else 0) +
      match process_file file_path base_folder w with
      | (Ret _, w') => count_files ok rest base_folder w'
      | (Raise _, _) => 0
      end
  end.

(** The same over the batches of a run, one after the other. *)
Fixpoint count_batches (ok : Path -> Path -> world -> bool)
  (batches : list (list Path)) (base_folder : Path) (w : world) : nat :=
  match batches with
  | [] => 0
  | batch :: rest =>
      count_files ok batch base_folder w +
      count_batches ok rest base_folder (after (process_batch batch base_folder) w)
  end.

(** No exception leaves the loop over [files]: every row that is formed is
    written. *)
Definition writes_all (files : list Path) (base_folder : Path) (w : world) : bool :=
  match process_batch_body files base_folder w with
  | (Ret _, _) => true
  | (Raise _, _) => false
  end.

Definition log_error (func : string) (e : exn) (w : world) : world :=
  mkWorld (tree w) (manifest w) (log w ++ [LogError func e]).

(** What stands at a position: a file with its inode and content, or a
    directory. *)
Inductive kind :=
| KFile (ino : nat) (content : option (gmap string (list string)))
| KDir.

Definition kind_of (n : node) : kind :=
  match n with
  | File i c => KFile i c
  | Dir _ _ => KDir
  end.

Definition kind_at (l : loc) (t : node) : option kind :=
  match lookup_loc l t with
  | Some n => Some (kind_of n)
  | None => None
  end.

(** Everything that stands in [t] stands in [t'], as the same kind. *)
Definition extends (t t' : node) : Prop :=
  forall l k, kind_at l t = Some k -> kind_at l t' = Some k.

(** The same directories in [t] and [t']. *)
Definition same_dirs (t t' : node) : Prop :=
  forall l, kind_at l t = Some KDir <-> kind_at l t' = Some KDir.

(** An empty directory the system refuses to remove. *)
Definition refused (n : node) : bool :=
  match n with
  | Dir true [] => true
  | _ => false
  end.

(** The lines logged for the empty directories of a listing. *)
Definition deleted_log (prefix : Path) (es : list (string * node)) : list event :=
  List.map (fun e => LogDeleted (child prefix (fst e)))
    (List.filter (fun e => is_empty_dir (snd e)) es).

(** No directory below [n] is empty. *)
Fixpoint no_empty_below (n : node) : bool :=
  match n with
  | File _ _ => true
  | Dir _ es =>
      forallb (fun '(_, c) => negb (is_empty_dir c) && no_empty_below c) es
  end.

(** An entry that is not emptied by removing its empty directories: a file,
    or a directory with an entry that is not an empty directory. *)
Definition keeps_an_entry (n : node) : bool :=
  match n with
  | File _ _ => true
  | Dir _ es => existsb (fun e => negb (is_empty_dir (snd e))) es
  end.

(** Below [n], every empty directory can be removed and every other
    directory keeps an entry when its empty directories are removed. *)
Fixpoint firm (n : node) : bool :=
  match n with
  | File _ _ => true
  | Dir _ es =>
      forallb (fun '(_, c) =>
                 if is_empty_dir c then negb (refused c)
                 else keeps_an_entry c && firm c) es
  end.

(** A path none of whose components is the two dots. *)
Definition plain (p : Path) : bool :=
  forallb (fun c => negb (String.eqb c "..")) (parts p).

(** The path of the entry at position [l] below [p]. *)
Definition below (p : Path) (l : loc) : Path :=
  mkPath (anchored p) (parts p ++ l).

(** A computation that reads and writes the tree only. *)
Definition tree_only {A} (m : M A) : Prop :=
  forall w, manifest (after m w) = manifest w /\ log (after m w) = log w.

(** The batches the loop of [process_music_folder] hands to
    [process_batch], one after the other, [batch] and [batch_count] being as
    they stand: a batch is handed over when the count reaches the batch
    size, and what is left at the end is the last batch. *)
Fixpoint batches_from (files batch : list Path) (batch_count batch_size : Z)
  : list (list Path) :=
  match files with
  | [] => match batch with [] => [] | _ :: _ => [batch] end
  | file_path :: rest =>
      if in_extensions (suffix file_path) then
        if (batch_count + 1 >=? batch_size)%Z
        then (batch ++ [file_path]) :: batches_from rest [] 0 batch_size
        else batches_from rest (batch ++ [file_path]) (batch_count + 1) batch_size
      else batches_from rest batch batch_count batch_size
  end.

Definition batches (files : list Path) (batch_size : Z) : list (list Path) :=
  batches_from files [] 0%Z batch_size.

(** What is left of a batch when the loop ends is handed over when it is
    not empty. *)
Definition flush (batch : list Path) (base_folder : Path) : M (option unit) :=
  match batch with
  | [] => ret None
  | _ :: _ => process_batch batch base_folder
  end.

Fixpoint process_batches (bs : list (list Path)) (base_folder : Path) : M unit :=
  match bs with
  | [] => ret tt
  | batch :: rest =>
      process_batch batch base_folder ;; process_batches rest base_folder
  end.

(** The world once the manifest is open and its header written. *)
Definition opened (output_csv : Path) (w : world) : outcome world :=
  match open_append output_csv (tree w) with
  | Ret t' => Ret (after (writerow header_row) (set_tree t' w))
  | Raise e => Raise e
  end.

(** A run in closed form: the manifest opened and the header written, the
    scan, the candidates batch by batch, then the cleanup when it is asked
    for; or nothing but the error line when the manifest cannot be opened. *)
Definition run_in_batches (folder_path output_csv base_folder : Path)
  (delete_empty : bool) (batch_size : Z) (w : world) : world :=
  match opened output_csv w with
  | Raise e => log_error "process_music_folder" e w
  | Ret w0 =>
      let w1 :=
        after (process_batches (batches (rglob folder_path (tree w0)) batch_size)
                 base_folder) w0 in
      if delete_empty then after (delete_empty_folders folder_path) w1 else w1
  end.

(** The same with the candidates as one batch. *)
Definition run_in_one_batch (folder_path output_csv base_folder : Path)
  (delete_empty : bool) (w : world) : world :=
  match opened output_csv w with
  | Raise e => log_error "process_music_folder" e w
  | Ret w0 =>
      let w1 :=
        after (process_batch (candidates folder_path (tree w0)) base_folder) w0 in
      if delete_empty then after (delete_empty_folders folder_path) w1 else w1
  end.


(** What a move that returns has done to the tree [t] when the source is
    the regular file with inode [i] and content [c] at [ls], and the
    destination leads to [ld].  Either the destination is the file itself,
    under this name or another, and nothing has happened.  Or the content
    stands at [ld], nothing stands at [ls], and every other entry is as
    before, unless it is another name of a file that stood at [ld]. *)
Definition moved (t t' : node) (ls ld : loc) (i : nat)
  (c : option (gmap string (list string))) : Prop :=
  (t' = t /\ (ls = ld \/ exists c', kind_at ld t = Some (KFile i c')))
  \/ (ls <> ld
      /\ (forall c', kind_at ld t <> Some (KFile i c'))
      /\ (exists i', kind_at ld t' = Some (KFile i' c))
      /\ kind_at ls t' = None
      /\ (forall l, starts_with ls l = false -> starts_with ld l = false ->
                    (forall j c1 c2, kind_at ld t = Some (KFile j c1) ->
                                     kind_at l t <> Some (KFile j c2)) ->
                    kind_at l t' = kind_at l t)).

(** A cleanup pass that meets a refusal.  [stops prefix n n' lg]: the pass
    over the directory [n], named [prefix], is ended by an [rmdir] that the
    system refuses, and leaves [n'] after logging [lg].  Either the refused
    directory is an entry of [n] itself: the empty directories listed
    before it are removed, and it and the entries after it are left as they
    are.  Or the first half removes every empty directory of [n], the
    directories listed before [c] are walked to their end, and the pass
    stops below [c]: the directories listed after [c] are not entered. *)
Inductive stops : Path -> node -> node -> list event -> Prop :=
| stops_here prefix b before m c after_it :
    forallb (fun e => negb (refused (snd e))) before = true ->
    refused c = true ->
    stops prefix (Dir b (before ++ (m, c) :: after_it))
      (Dir b (survivors before ++ (m, c) :: after_it))
      (deleted_log prefix before)
| stops_below prefix b before m c after_it before' lgb c' lgc :
    forallb (fun e => negb (refused (snd e))) (before ++ (m, c) :: after_it) = true ->
    descend sweep_node prefix before = (before', lgb, None) ->
    is_empty_dir c = false ->
    stops (child prefix m) c c' lgc ->
    stops prefix (Dir b (before ++ (m, c) :: after_it))
      (Dir b (before' ++ (m, c') :: survivors after_it))
      (deleted_log prefix (before ++ (m, c) :: after_it) ++ lgb ++ lgc).

End Vocabulary.

End Spec.

Export Spec.

(** ** Trees and worlds for the examples *)

Module Examples.

(** [str.upper] for the strings of the examples, all of them ASCII: the
    letters a to z move to upper case, every other byte stays. *)
Definition upper_char (c : ascii) : ascii :=
  let n := nat_of_ascii c in
  if (97 <=? n)%nat && (n <=? 122)%nat then ascii_of_nat (n - 32) else c.

Fixpoint ascii_upper (s : string) : string :=
  match s with
  | EmptyString => EmptyString
  | String c rest => String (upper_char c) (ascii_upper rest)
  end.

(** The surroundings of the examples: the working directory is the root of
    the tree, and the whole tree lies on one device. *)
#[global] Instance one_device : Platform :=
  {| str_upper := ascii_upper; cwd := []; device := fun _ => 0 |}.

(** The same with the directory [out] mounted from a second device. *)
Definition two_devices : Platform :=
  {| str_upper := ascii_upper;
     cwd := [];
     device := fun l => match l with "out" :: _ => 1 | _ => 0 end |}.

Definition tagged (ino : nat) (albumartist album : string) : node :=
  File ino (Some (<["albumartist" := [albumartist]]>
                 (<["album" := [album]]>
                 (<["title" := ["T"]]> ∅)))).

Definition untagged (ino : nat) : node := File ino None.

Definition fresh (t : node) : world := mkWorld t [] [].

(** A source folder [in] and an empty destination [out]: a tagged file, a
    file without tags, a folder with a tagged file and an empty folder, and
    an empty folder whose name ends like a music file. *)
Definition library : node :=
  Dir false
    [("in", Dir false
        [("x.mp3", tagged 1 "abba" "Best:Of");
         ("y.mp3", untagged 2);
         ("sub", Dir false [("z.flac", tagged 3 "" "Gold"); ("e", Dir false [])]);
         ("live.mp3", Dir false []);
         ("cover.MP3", untagged 4)]);
     ("out", Dir false [])].

(** A destination root in which the name of the first-level folder is taken
    by a regular file. *)
Definition blocked : node :=
  Dir false
    [("in", Dir false [("x.mp3", tagged 1 "Abba" "Gold")]);
     ("out", Dir false [("A", untagged 2)])].


(** A file whose destination is a second name of the file itself. *)
Definition linked : node :=
  Dir false
    [("in", Dir false [("x.mp3", tagged 1 "Abba" "Gold")]);
     ("out", Dir false
        [("A", Dir false
            [("Abba", Dir false
                [("Gold", Dir false [("x.mp3", tagged 1 "Abba" "Gold")])])])])].

(** An empty folder inside a folder that holds nothing else. *)
Definition nested_empty : node :=
  Dir false [("in", Dir false [("a", Dir false [("b", Dir false [])])])].

(** Two empty folders, the first of which the system refuses to remove. *)
Definition refused_then_free : node :=
  Dir false [("in", Dir false [("a", Dir true []); ("b", Dir false [])])].

(** A refusal two levels down: [in/p/q] cannot be removed; [in/o] is walked
    before it, [in/p/r] and [in/s] come after it. *)
Definition refused_below : node :=
  Dir false
    [("in", Dir false
        [("e", Dir false []);
         ("o", Dir false [("n", Dir false []); ("f", untagged 1)]);
         ("p", Dir false [("q", Dir true []); ("r", Dir false [])]);
         ("s", Dir false [("t", Dir false [])])])].

(** A destination whose last name is taken by a directory. *)
Definition taken_by_a_directory : node :=
  Dir false
    [("in", Dir false [("x.mp3", tagged 1 "Abba" "Gold")]);
     ("out", Dir false
        [("A", Dir false
            [("Abba", Dir false [("Gold", Dir false [("x.mp3", Dir false [])])])])])].

(** A name that is no UTF-8: the byte 255 before the extension. *)
Definition odd_name : string := String (ascii_of_nat 255) ".mp3".

(** Two tagged files, the first under a name that cannot be encoded. *)
Definition undecodable : node :=
  Dir false
    [("in", Dir false
        [(odd_name, tagged 1 "Abba" "Gold");
         ("y.mp3", tagged 2 "Abba" "Gold")]);
     ("out", Dir false [])].

(** The tags of [in/x.mp3] in [library], and what is read from them. *)
Definition x_tags : option (gmap string (list string)) :=
  Some (<["albumartist" := ["abba"]]>
       (<["album" := ["Best:Of"]]>
       (<["title" := ["T"]]> ∅))).

Definition x_info : Info := mkInfo "T" "Unknown" "abba" "Unknown" "Best:Of".

Definition gold_info : Info := mkInfo "T" "Unknown" "Abba" "Unknown" "Gold".

End Examples.

(** ** Further vocabulary *)

Module More.

(** The tag keys [get_music_info] reads, in the order it reads them. *)
Definition TAG_KEYS : list string :=
  ["title"; "artist"; "albumartist"; "date"; "album"].

(** What a tag mapping gives for a key when reading it does not raise: the
    first value, or the sentinel for a key that is not there. *)
Definition first_or_unknown (audio : gmap string (list string)) (key : string)
  : string :=
  match audio !! key with
  | Some (v :: _) => v
  | _ => "Unknown"
  end.

Definition info_of (audio : gmap string (list string)) : Info :=
  mkInfo (first_or_unknown audio "title") (first_or_unknown audio "artist")
         (first_or_unknown audio "albumartist") (first_or_unknown audio "date")
         (first_or_unknown audio "album").

(** No key that is read has an empty list of values. *)
Definition no_empty_tag (audio : gmap string (list string)) : bool :=
  forallb (fun key => negb (bool_decide (audio !! key = Some []))) TAG_KEYS.

(** A string that the path reads as one component of its own: not empty,
    no slash in it, and not starting with a dot. *)
Definition simple (s : string) : bool :=
  negb (occurs "/" s) &&
  match s with
  | String c _ => negb (Ascii.eqb c ".")
  | EmptyString => false
  end.

(** The error lines of the per-file steps. *)
Definition file_error (ev : event) : bool :=
  match ev with
  | LogError func _ =>
      String.eqb func "get_music_info" || String.eqb func "move_music_file"
  | LogDeleted _ => false
  end.


(** A tree of directories only, none of which (below the top) the system
    refuses to remove. *)
Fixpoint purely_empty (n : node) : bool :=
  match n with
  | File _ _ => false
  | Dir _ es =>
      forallb (fun '(_, c) =>
                 match c with
                 | Dir busy _ => negb busy && purely_empty c
                 | File _ _ => false
                 end) es
  end.

(** How many levels of entries lie below an entry. *)
Fixpoint height (n : node) : nat :=
  match n with
  | File _ _ => 0
  | Dir _ es => fold_right (fun '(_, c) acc => Nat.max (S (height c)) acc) 0 es
  end.

End More.

Export More.
(** ** Properties of the sanitizer *)

Section Sanitizer.

Lemma sanitize_occurs_forbidden (c : ascii) (x : string) :
  forbidden c = true -> occurs c (sanitize_folder_name x) = false.
Proof.
  intros Hc. induction x as [|d rest IH]; simpl; [reflexivity|].
  destruct (forbidden d) eqn:Hd; [exact IH|].
  simpl. rewrite IH, orb_false_r.
  destruct (Ascii.eqb c d) eqn:E; [|reflexivity].
  apply Ascii.eqb_eq in E. subst d. congruence.
Qed.

Lemma sanitize_clean (x : string) :
  all_chars (fun c => negb (forbidden c)) (sanitize_folder_name x) = true.
Proof.
  induction x as [|d rest IH]; simpl; [reflexivity|].
  destruct (forbidden d) eqn:Hd; [exact IH|].
  simpl. rewrite Hd, IH. reflexivity.
Qed.

Lemma sanitize_fixed (x : string) :
  all_chars (fun c => negb (forbidden c)) x = true ->
  sanitize_folder_name x = x.
Proof.
  induction x as [|d rest IH]; simpl; [reflexivity|].
  intros H. apply andb_prop in H as [Hd Hrest].
  apply negb_true_iff in Hd. rewrite Hd, (IH Hrest). reflexivity.
Qed.

Lemma sanitize_all_forbidden (x : string) :
  all_chars forbidden x = true -> sanitize_folder_name x = "".
Proof.
  induction x as [|d rest IH]; simpl; [reflexivity|].
  intros H. apply andb_prop in H as [Hd Hrest].
  rewrite Hd. exact (IH Hrest).
Qed.

End Sanitizer.

(** C6.  The sanitizer is a total function on strings; applying it twice is
    applying it once; none of the nine characters of its class occurs in its
    output; and a string made of those characters only is sent to the empty
    string. *)
Theorem sanitize_folder_name_spec (x : string) :
  sanitize_folder_name (sanitize_folder_name x) = sanitize_folder_name x
  /\ (forall c, In c forbidden_chars -> occurs c (sanitize_folder_name x) = false)
  /\ (all_chars forbidden x = true -> sanitize_folder_name x = "").
Proof.
  split; [|split].
  - apply sanitize_fixed, sanitize_clean.
  - intros c Hc. apply sanitize_occurs_forbidden.
    unfold forbidden. apply existsb_exists. exists c. split; [exact Hc|].
    apply Ascii.eqb_refl.
  - apply sanitize_all_forbidden.
Qed.

Example sanitize_album_of_the_scenario :
  sanitize_folder_name "Best:Of" = "BestOf".
Proof. reflexivity. Qed.

(** ** The destination *)

Section Destination.

Context {OS : Platform}.

Variables (file_path base_folder : Path).

(** The first character of a string that is not empty. *)
Lemma first_char_some (c : ascii) (rest : string) :
  exists d, first_char (String c rest) = Some d.
Proof.
  unfold first_char.
  destruct (utf8 (take_chars (announced c) (String c rest))); eauto.
Qed.

Lemma new_folder_of_eq (info : Info) :
  new_folder_of info base_folder =
  Ret (base_folder / first_letter_of (artist_component info)
                   / artist_component info / album_component info)%path.
Proof.
  unfold new_folder_of, artist_component, album_component, first_letter_of,
    or_unknown, index0.
  destruct (main_artist info) as [|c rest]; [reflexivity|].
  cbn [truthy].
  destruct (first_char_some c rest) as [d ->].
  destruct (String.eqb (String c rest) "Unknown"); reflexivity.
Qed.

Lemma new_path_of_eq (info : Info) :
  new_path_of file_path info base_folder =
  Ret (resolved_destination file_path info base_folder).
Proof.
  unfold new_path_of. rewrite new_folder_of_eq. reflexivity.
Qed.

Lemma move_music_file_body_returns (info : Info) (w w' : world) (p : Path) :
  move_music_file_body file_path info base_folder w = (Ret p, w') ->
  p = resolved_destination file_path info base_folder.
Proof.
  unfold move_music_file_body, bind, lift, ret.
  rewrite new_folder_of_eq.
  destruct (Path_mkdir _ w) as [[[]|e] w1]; [|discriminate].
  destruct (shutil_move _ _ w1) as [[[]|e] w2]; [|discriminate].
  intros H. inversion H. reflexivity.
Qed.

End Destination.

(** C1, as amended.  For every file, metadata record and base root the path
    computed before the move is
    base_root / first_letter / main_artist / sanitized(album) / filename,
    where main_artist and album are the record's fields with the empty
    string replaced by the sentinel, first_letter is the sentinel for the
    sentinel artist and otherwise the artist's first character (its first
    code point, whatever its encoding) in the upper case of [str.upper],
    the artist is handed to the path as it is and only the album goes
    through the sanitizer.  It is the path the file is moved to, after the
    directory above it has been made, and the path a successful move
    returns. *)
Theorem destination_is_resolved {OS : Platform} (file_path : Path) (info : Info)
  (base_root : Path) :
  new_path_of file_path info base_root =
    Ret (base_root / first_letter_of (or_unknown (main_artist info))
                   / or_unknown (main_artist info)
                   / sanitize_folder_name (or_unknown (album info))
                   / name file_path)%path
  /\ (forall w,
        move_music_file_body file_path info base_root w
        = (Path_mkdir (base_root / first_letter_of (or_unknown (main_artist info))
                                 / or_unknown (main_artist info)
                                 / sanitize_folder_name (or_unknown (album info)))%path ;;
           shutil_move file_path (resolved_destination file_path info base_root) ;;
           ret (resolved_destination file_path info base_root)) w)
  /\ (forall w w' p,
        move_music_file file_path info base_root w = (Ret (Some p), w') ->
        p = resolved_destination file_path info base_root).
Proof.
  split; [|split].
  - apply new_path_of_eq.
  - intros w. unfold move_music_file_body, bind, lift.
    rewrite new_folder_of_eq. reflexivity.
  - intros w w' p. unfold move_music_file, print_errors.
    destruct (move_music_file_body _ _ _ w) as [[q|e] w1] eqn:E; [|discriminate].
    intros H. inversion H. subst. eapply move_music_file_body_returns, E.
Qed.

(** C1 as the specification words it fails on a record whose album is the
    empty string: the record's album, sanitized, is empty and adds no level
    to the path, while the program files the track under the sentinel. *)
Lemma destination_not_spec_on_empty_album :
  new_path_of (parse "in/song.mp3") (mkInfo "X" "Y" "Abba" "2020" "") (parse "base")
  = Ret (parse "base/A/Abba/Unknown/song.mp3")
  /\ spec_destination (parse "in/song.mp3") (mkInfo "X" "Y" "Abba" "2020" "") (parse "base")
     = parse "base/A/Abba/song.mp3"
  /\ new_path_of (parse "in/song.mp3") (mkInfo "X" "Y" "Abba" "2020" "") (parse "base")
     <> Ret (spec_destination (parse "in/song.mp3") (mkInfo "X" "Y" "Abba" "2020" "")
               (parse "base")).
Proof. repeat split; [vm_compute; reflexivity..|vm_compute; discriminate]. Qed.

(** The first character is a code point: of an artist that starts with the
    two bytes of a letter with an accent, both bytes are taken, and the
    first-level folder is what [str.upper] makes of that letter. *)
Example first_letter_of_an_accented_artist {OS : Platform} :
  let e_acute := String (ascii_of_nat 195) (String (ascii_of_nat 169) "") in
  first_char (e_acute ++ "lan")%string = Some e_acute
  /\ first_letter_of (e_acute ++ "lan")%string = str_upper e_acute.
Proof. split; reflexivity. Qed.

(** The scenario of the specification: the artist is kept with its slash,
    which the path reads as two levels; the album loses its colon. *)
Example destination_of_the_scenario :
  new_path_of (parse "in/song.mp3") (mkInfo "X" "Y" "Artist/Z" "2020" "Best:Of")
    (parse "base")
  = Ret (parse "base/A/Artist/Z/BestOf/song.mp3").
Proof. reflexivity. Qed.

(** C10, as amended.  An empty main_artist or album is replaced by the
    sentinel, with the same destination as a record that carries the
    sentinel there; the artist handed to the path is never empty; the album
    handed to the path is empty exactly when the album is not empty and
    every character of it is one the sanitizer removes. *)
Theorem empty_fields_become_unknown {OS : Platform} (n a y : string)
  (base_folder : Path) :
  (forall al, new_folder_of (mkInfo n a "" y al) base_folder
              = new_folder_of (mkInfo n a "Unknown" y al) base_folder)
  /\ (forall m, new_folder_of (mkInfo n a m y "") base_folder
                = new_folder_of (mkInfo n a m y "Unknown") base_folder)
  /\ (forall info, artist_component info <> "")
  /\ (forall info, album_component info = "" <->
                   album info <> "" /\ all_chars forbidden (album info) = true).
Proof.
  split; [|split; [|split]].
  - intros al. rewrite !new_folder_of_eq. reflexivity.
  - intros m. rewrite !new_folder_of_eq. reflexivity.
  - intros info. unfold artist_component, or_unknown.
    destruct (main_artist info); simpl; discriminate.
  - intros info. unfold album_component, or_unknown.
    destruct (album info) as [|c rest] eqn:E.
    + simpl. split; [discriminate|]. intros [H _]. congruence.
    + change (truthy (String c rest)) with true. cbv iota.
      split.
      * intros H. split; [discriminate|].
        clear E. revert H. generalize (String c rest) as s.
        induction s as [|d s IH]; simpl; [reflexivity|].
        destruct (forbidden d); [exact IH|discriminate].
      * intros [_ H]. apply sanitize_all_forbidden, H.
Qed.

(** C10 as worded fails on an album made of removed characters only: the
    album component is the empty string, and the destination has no album
    level. *)
Lemma album_component_can_be_empty :
  album_component (mkInfo "X" "Y" "Abba" "2020" "?") = ""
  /\ new_path_of (parse "in/song.mp3") (mkInfo "X" "Y" "Abba" "2020" "?") (parse "base")
     = Ret (parse "base/A/Abba/song.mp3").
Proof. split; reflexivity. Qed.

(** ** Batches *)

Section Batches.

Context {OS : Platform}.

Variable base_folder : Path.

Lemma print_errors_returns {A} (func : string) (body : M A) (w : world) :
  exists r, print_errors func body w = (Ret r, after (print_errors func body) w).
Proof.
  unfold after, print_errors.
  destruct (body w) as [[a|e] w']; eexists; reflexivity.
Qed.

Lemma get_music_info_body_pure (file_path : Path) (w : world) :
  snd (get_music_info_body file_path w) = w.
Proof. reflexivity. Qed.

(** What one turn of the loop does, by the result of the extraction. *)
Lemma process_file_skip (file_path : Path) (w : world) (e : exn) :
  fst (get_music_info_body file_path w) = Raise e ->
  process_file file_path base_folder w
  = (Ret tt, log_error "get_music_info" e w).
Proof.
  unfold process_file, bind, get_music_info, print_errors.
  destruct (get_music_info_body file_path w) as [[i|e'] w'] eqn:E.
  - discriminate.
  - simpl. intros [= ->].
    pose proof (get_music_info_body_pure file_path w) as P.
    rewrite E in P. simpl in P. subst w'. reflexivity.
Qed.

Lemma process_file_row (file_path : Path) (w : world) (info : Info) :
  fst (get_music_info_body file_path w) = Ret info ->
  process_file file_path base_folder w
  = writerow (data_row info
                (match fst (move_music_file file_path info base_folder w) with
                 | Ret r => r
                 | Raise _ => None
                 end))
      (after (move_music_file file_path info base_folder) w).
Proof.
  unfold process_file, bind, get_music_info, print_errors at 1, after.
  destruct (get_music_info_body file_path w) as [[i|e'] w'] eqn:E.
  - simpl. intros [= ->].
    pose proof (get_music_info_body_pure file_path w) as P.
    rewrite E in P. simpl in P. subst w'.
    destruct (print_errors_returns "move_music_file"
                (move_music_file_body file_path info base_folder) w) as [r Hr].
    fold (move_music_file file_path info base_folder) in Hr.
    rewrite Hr. reflexivity.
  - discriminate.
Qed.

(** The row of a file is the row its turn hands to the writer. *)
Lemma row_of_skip (file_path : Path) (w : world) (e : exn) :
  fst (get_music_info_body file_path w) = Raise e ->
  row_of file_path base_folder w = None.
Proof.
  unfold row_of, get_music_info, print_errors.
  destruct (get_music_info_body file_path w) as [[i|e'] w']; [discriminate|].
  reflexivity.
Qed.

Lemma row_of_row (file_path : Path) (w : world) (info : Info) :
  fst (get_music_info_body file_path w) = Ret info ->
  row_of file_path base_folder w
  = Some (data_row info
            (match fst (move_music_file file_path info base_folder w) with
             | Ret r => r
             | Raise _ => None
             end)).
Proof.
  unfold row_of, get_music_info, print_errors at 1.
  pose proof (get_music_info_body_pure file_path w) as P.
  destruct (get_music_info_body file_path w) as [[i|e'] w']; [|discriminate].
  cbn [snd fst] in *. subst w'. intros [= ->].
  destruct (print_errors_returns "move_music_file"
              (move_music_file_body file_path info base_folder) w) as [r Hr].
  fold (move_music_file file_path info base_folder) in Hr.
  rewrite Hr. reflexivity.
Qed.

(** A turn of the loop raises exactly when its row cannot be encoded. *)
Lemma writerow_outcome (row : list cell) (w : world) :
  writerow row w
  = if forallb encodable row
    then (Ret tt, mkWorld (tree w) (manifest w ++ [row]) (log w))
    else (Raise UnicodeEncodeError, w).
Proof. reflexivity. Qed.

(** The header can always be encoded. *)
Lemma writerow_header (w : world) :
  writerow header_row w
  = (Ret tt, mkWorld (tree w) (manifest w ++ [header_row]) (log w)).
Proof. reflexivity. Qed.

Lemma process_file_outcome (file_path : Path) (w : world) :
  fst (process_file file_path base_folder w)
  = match row_of file_path base_folder w with
    | Some row => if forallb encodable row then Ret tt else Raise UnicodeEncodeError
    | None => Ret tt
    end.
Proof.
  destruct (fst (get_music_info_body file_path w)) as [info|e] eqn:E.
  - rewrite (process_file_row _ _ _ E), (row_of_row _ _ _ E), writerow_outcome.
    destruct (forallb encodable _); reflexivity.
  - rewrite (process_file_skip _ _ _ E), (row_of_skip _ _ _ E). reflexivity.
Qed.

Lemma process_batch_body_cons (file_path : Path) (rest : list Path) (w : world) :
  process_batch_body (file_path :: rest) base_folder w
  = match process_file file_path base_folder w with
    | (Ret _, w') => process_batch_body rest base_folder w'
    | (Raise e, w') => (Raise e, w')
    end.
Proof. reflexivity. Qed.

Lemma process_batch_body_app (a b : list Path) (w : world) :
  process_batch_body (a ++ b) base_folder w
  = match process_batch_body a base_folder w with
    | (Ret _, w') => process_batch_body b base_folder w'
    | (Raise e, w') => (Raise e, w')
    end.
Proof.
  revert w. induction a as [|f a IH]; intros w; [reflexivity|].
  rewrite <- app_comm_cons, !process_batch_body_cons.
  destruct (process_file f base_folder w) as [[[]|e] w']; [apply IH|reflexivity].
Qed.

(** A batch that no exception leaves. *)
Lemma writes_all_returns (files : list Path) (w : world) :
  writes_all files base_folder w = true ->
  process_batch_body files base_folder w
  = (Ret tt, after (process_batch_body files base_folder) w).
Proof.
  unfold writes_all, after.
  destruct (process_batch_body files base_folder w) as [[[]|e] w'];
    [reflexivity|discriminate].
Qed.

Lemma writes_all_app (a b : list Path) (w : world) :
  writes_all (a ++ b) base_folder w = true ->
  writes_all a base_folder w = true
  /\ writes_all b base_folder (after (process_batch_body a base_folder) w) = true.
Proof.
  unfold writes_all, after. rewrite process_batch_body_app.
  destruct (process_batch_body a base_folder w) as [[[]|e] w']; cbn [snd].
  - intros H. split; [reflexivity|exact H].
  - discriminate.
Qed.

Lemma process_batch_writes_all (files : list Path) (w : world) :
  writes_all files base_folder w = true ->
  process_batch files base_folder w
  = (Ret (Some tt), after (process_batch_body files base_folder) w).
Proof.
  intros H. unfold process_batch, print_errors.
  rewrite (writes_all_returns _ _ H). reflexivity.
Qed.

(** The batches of a run make up the candidates of the scan, in order. *)
Lemma concat_batches_from (batch_size : Z) (files : list Path) :
  forall (batch : list Path) (batch_count : Z),
    concat (batches_from files batch batch_count batch_size)
    = batch ++ candidates_of files.
Proof.
  induction files as [|f rest IH]; intros batch batch_count.
  - cbn. destruct batch; cbn; rewrite ?app_nil_r; reflexivity.
  - cbn [batches_from candidates_of List.filter].
    destruct (in_extensions (suffix f)); [|apply IH].
    destruct (batch_count + 1 >=? batch_size)%Z.
    + cbn [concat]. rewrite IH, <- app_assoc. reflexivity.
    + rewrite IH, <- app_assoc. reflexivity.
Qed.

(** The loop over the scanned entries and the last batch: the batches, one
    after the other. *)
Lemma batch_loop_spec (batch_size : Z) (files : list Path) :
  forall (batch : list Path) (batch_count : Z) (w : world),
  exists left w' r,
    batch_loop files batch batch_count batch_size base_folder w = (Ret left, w')
    /\ flush left base_folder w'
       = (Ret r,
          after (process_batches (batches_from files batch batch_count batch_size)
                   base_folder) w).
Proof.
  induction files as [|f rest IH]; intros batch batch_count w.
  - exists batch, w. cbn [batch_loop batches_from ret].
    destruct batch as [|f batch].
    + exists None. split; reflexivity.
    + destruct (print_errors_returns "process_batch"
                  (process_batch_body (f :: batch) base_folder) w) as [r Hr].
      fold (process_batch (f :: batch) base_folder) in Hr.
      exists r. split; [reflexivity|].
      unfold flush. rewrite Hr. unfold after.
      cbn [process_batches]. unfold bind. rewrite Hr. reflexivity.
  - cbn [batch_loop batches_from].
    destruct (in_extensions (suffix f)); [|apply IH].
    destruct (batch_count + 1 >=? batch_size)%Z; [|apply IH].
    destruct (print_errors_returns "process_batch"
                (process_batch_body (batch ++ [f]) base_folder) w) as [r Hr].
    fold (process_batch (batch ++ [f]) base_folder) in Hr.
    destruct (IH [] 0%Z (after (process_batch (batch ++ [f]) base_folder) w))
      as (left & w' & r' & E & F).
    exists left, w', r'. unfold bind. rewrite Hr. split; [exact E|].
    rewrite F. unfold after. cbn [process_batches]. unfold bind.
    rewrite Hr. reflexivity.
Qed.

(** The run in closed form. *)
Lemma process_music_folder_closed_form (folder_path output_csv : Path)
  (delete_empty : bool) (batch_size : Z) (w : world) :
  process_music_folder folder_path output_csv base_folder delete_empty batch_size w
  = (Ret (match opened output_csv w with Ret _ => Some tt | Raise _ => None end),
     run_in_batches folder_path output_csv base_folder delete_empty batch_size w).
Proof.
  unfold process_music_folder, print_errors, process_music_folder_body,
    run_in_batches, opened, bind, syscall.
  destruct (open_append output_csv (tree w)) as [t'|e]; [|reflexivity].
  unfold after. rewrite writerow_header. cbn [snd].
  set (w0 := mkWorld (tree (set_tree t' w))
               (manifest (set_tree t' w) ++ [header_row]) (log (set_tree t' w))).
  destruct (batch_loop_spec batch_size (rglob folder_path (tree w0)) [] 0%Z w0)
    as (left & w' & r & E & F).
  rewrite E. fold (flush left base_folder). rewrite F.
  fold (batches (rglob folder_path (tree w0)) batch_size).
  destruct delete_empty; [|reflexivity].
  match goal with |- context [delete_empty_folders folder_path ?x] =>
    destruct (print_errors_returns "delete_empty_folders"
                (delete_empty_folders_body folder_path) x) as [r' Hr']
  end.
  fold (delete_empty_folders folder_path) in Hr'.
  rewrite Hr'. reflexivity.
Qed.

(** When no exception leaves the loop over the files of the batches taken
    together, the batches do what one batch of all their files does. *)
Lemma process_batches_as_one (bs : list (list Path)) :
  forall w,
    writes_all (concat bs) base_folder w = true ->
    after (process_batches bs base_folder) w
    = after (process_batch (concat bs) base_folder) w.
Proof.
  induction bs as [|b bs IH]; intros w Hw; [reflexivity|].
  cbn [concat] in *. apply writes_all_app in Hw as Hab.
  destruct Hab as [Ha Hb].
  unfold after at 1. cbn [process_batches]. unfold bind.
  rewrite (process_batch_writes_all _ _ Ha).
  fold (after (process_batches bs base_folder)
          (after (process_batch_body b base_folder) w)).
  rewrite (IH _ Hb).
  unfold after at 1 3.
  rewrite (process_batch_writes_all _ _ Hb), (process_batch_writes_all _ _ Hw).
  cbn [snd]. unfold after. rewrite process_batch_body_app.
  rewrite (writes_all_returns _ _ Ha). reflexivity.
Qed.

(** Then the batch size does not show in the run. *)
Lemma run_in_batches_as_one (folder_path output_csv : Path)
  (delete_empty : bool) (batch_size : Z) (w : world) :
  (forall w0, opened output_csv w = Ret w0 ->
     writes_all (candidates folder_path (tree w0)) base_folder w0 = true) ->
  run_in_batches folder_path output_csv base_folder delete_empty batch_size w
  = run_in_one_batch folder_path output_csv base_folder delete_empty w.
Proof.
  intros Hw. unfold run_in_batches, run_in_one_batch.
  destruct (opened output_csv w) as [w0|e]; [|reflexivity].
  specialize (Hw w0 eq_refl).
  assert (C : concat (batches (rglob folder_path (tree w0)) batch_size)
              = candidates folder_path (tree w0)).
  { unfold batches. rewrite concat_batches_from. reflexivity. }
  rewrite <- C in Hw. rewrite (process_batches_as_one _ _ Hw), C. reflexivity.
Qed.

End Batches.

(** C5, as amended.  When no exception leaves the loop over the candidates
    taken as one batch, that is when every row the run forms can be written,
    a run with batch size 1 and a run with any other batch size, those of at
    least the number of candidate files among them, end in the same outcome
    and the same world: the same tree, the same manifest rows in the same
    order, the same log lines.  Both are the run of [run_in_one_batch]. *)
Theorem batch_size_one_or_whole {OS : Platform}
  (folder_path output_csv base_folder : Path) (delete_empty : bool) (w : world)
  (batch_size : Z) :
  (forall w0, opened output_csv w = Ret w0 ->
     writes_all (candidates folder_path (tree w0)) base_folder w0 = true) ->
  process_music_folder folder_path output_csv base_folder delete_empty 1 w
  = process_music_folder folder_path output_csv base_folder delete_empty
      batch_size w
  /\ after (process_music_folder folder_path output_csv base_folder delete_empty
              batch_size) w
     = run_in_one_batch folder_path output_csv base_folder delete_empty w.
Proof.
  intros Hw. rewrite !process_music_folder_closed_form.
  unfold after. rewrite process_music_folder_closed_form. cbn [snd].
  rewrite !(run_in_batches_as_one _ _ _ _ _ _ Hw). split; reflexivity.
Qed.

Lemma batch_size_one_or_whole_library :
  process_music_folder (parse "in") (parse "manifest.csv") (parse "out") true 1
    (Examples.fresh Examples.library)
  = process_music_folder (parse "in") (parse "manifest.csv") (parse "out") true 4
      (Examples.fresh Examples.library).
Proof.
  apply (batch_size_one_or_whole (parse "in") (parse "manifest.csv") (parse "out")
           true (Examples.fresh Examples.library) 4).
  intros w0 E. vm_compute in E. injection E as <-. vm_compute. reflexivity.
Defined.

(** C5 as worded fails when a row cannot be written.  Of two tagged files
    the first has a name that is no UTF-8: its row raises in [writerow],
    after the file was moved, and the exception leaves the batch.  With
    batch size 1 the second file is a batch of its own and is moved; with
    batch size 2, the number of candidates, it is in the batch that was
    left and stays where it is, without a row. *)
Lemma batch_size_decides_after_a_failed_write :
  let run := fun batch_size =>
    after (process_music_folder (parse "in") (parse "manifest.csv") (parse "out")
             false batch_size) (Examples.fresh Examples.undecodable) in
  length (candidates (parse "in") Examples.undecodable) = 2
  /\ is_file (parse "in/y.mp3") (tree (run 1%Z)) = false
  /\ is_file (parse "in/y.mp3") (tree (run 2%Z)) = true
  /\ manifest (run 1%Z) = [header_row; data_row Examples.gold_info
                                         (Some (parse "out/A/Abba/Gold/y.mp3"))]
  /\ manifest (run 2%Z) = [header_row]
  /\ log (run 1%Z) = [LogError "process_batch" UnicodeEncodeError]
  /\ log (run 2%Z) = [LogError "process_batch" UnicodeEncodeError]
  /\ run 1%Z <> run 2%Z.
Proof.
  cbv zeta. repeat split; try (vm_compute; reflexivity).
  intros E. apply (f_equal manifest) in E. vm_compute in E. discriminate E.
Qed.

(** C4.  A file whose metadata extraction raises is skipped: the turn of the
    loop writes no row and leaves the tree as it is, so nothing is moved and
    the file stays where it was; one error line naming the extraction is
    logged; and the batch goes on with the files that follow, from that
    world.  This holds wherever the file stands in its batch, once the batch
    has come to it: the files before it are behind, unless one of their rows
    could not be written, which ends the batch before the file is reached. *)
Theorem unreadable_file_is_skipped {OS : Platform} (before : list Path)
  (file_path : Path) (rest : list Path) (base_folder : Path) (w : world) (e : exn) :
  fst (get_music_info_body file_path
         (after (process_batch_body before base_folder) w)) = Raise e ->
  process_file file_path base_folder
    (after (process_batch_body before base_folder) w)
  = (Ret tt,
     mkWorld (tree (after (process_batch_body before base_folder) w))
             (manifest (after (process_batch_body before base_folder) w))
             (log (after (process_batch_body before base_folder) w)
                ++ [LogError "get_music_info" e]))
  /\ process_batch (before ++ file_path :: rest) base_folder w
     = match fst (process_batch_body before base_folder w) with
       | Ret _ =>
           process_batch rest base_folder
             (log_error "get_music_info" e
                (after (process_batch_body before base_folder) w))
       | Raise e' =>
           (Ret None,
            log_error "process_batch" e'
              (after (process_batch_body before base_folder) w))
       end.
Proof.
  intros H. pose proof (process_file_skip base_folder _ _ _ H) as Skip.
  split; [exact Skip|].
  unfold process_batch, print_errors.
  rewrite process_batch_body_app. unfold after in *.
  destruct (process_batch_body before base_folder w) as [[[]|e'] w1];
    cbn [fst snd] in *; [|reflexivity].
  rewrite process_batch_body_cons, Skip. reflexivity.
Qed.

Lemma unreadable_file_is_skipped_library :
  fst (get_music_info_body (parse "in/y.mp3")
         (after (process_batch_body [parse "in/x.mp3"] (parse "out"))
            (Examples.fresh Examples.library))) = Raise ID3NoHeaderError
  /\ process_batch ([parse "in/x.mp3"] ++ parse "in/y.mp3" :: [parse "in/sub/z.flac"])
       (parse "out") (Examples.fresh Examples.library)
     = process_batch [parse "in/sub/z.flac"] (parse "out")
         (log_error "get_music_info" ID3NoHeaderError
            (after (process_batch_body [parse "in/x.mp3"] (parse "out"))
               (Examples.fresh Examples.library))).
Proof.
  split.
  - vm_compute. reflexivity.
  - destruct (unreadable_file_is_skipped [parse "in/x.mp3"] (parse "in/y.mp3")
                [parse "in/sub/z.flac"] (parse "out")
                (Examples.fresh Examples.library) ID3NoHeaderError) as [_ E].
    + vm_compute. reflexivity.
    + rewrite E. vm_compute. reflexivity.
Defined.

(** ** The manifest *)

Section Manifest.

Context {OS : Platform}.

Lemma syscall_tree_only (f : node -> outcome node) : tree_only (syscall f).
Proof.
  intros w. unfold after, syscall. destruct (f (tree w)); split; reflexivity.
Qed.

Lemma Path_mkdir_rev_tree_only (anch : bool) (rparts : list string) :
  tree_only (Path_mkdir_rev anch rparts).
Proof.
  induction rparts as [|c rparent IH]; intros w; unfold after;
    cbn [Path_mkdir_rev].
  - destruct (os_mkdir _ (tree w)) as [t'|e]; [split; reflexivity|].
    destruct e; try (destruct (is_dir _ (tree w))); split; reflexivity.
  - destruct (os_mkdir _ (tree w)) as [t'|e]; [split; reflexivity|].
    destruct e; try (destruct (is_dir _ (tree w)); split; reflexivity).
    specialize (IH w). unfold after in IH.
    destruct (Path_mkdir_rev anch rparent w) as [[[]|e] w1]; [|exact IH].
    cbn [snd] in IH.
    destruct (os_mkdir _ (tree w1)) as [t'|e]; [exact IH|].
    destruct e; try (destruct (is_dir _ (tree w1))); exact IH.
Qed.

Lemma rename_or_copy_tree_only (src dst : Path) :
  tree_only (rename_or_copy src dst).
Proof.
  intros w. unfold after, rename_or_copy.
  destruct (os_rename src dst (tree w)) as [t'|e]; [split; reflexivity|].
  destruct (is_dir src (tree w)); [split; reflexivity|].
  unfold bind, syscall.
  destruct (copy2 src dst (tree w)) as [t1|e1]; [|split; reflexivity].
  cbn [tree set_tree].
  destruct (os_unlink src t1) as [t2|e2]; split; reflexivity.
Qed.

Lemma shutil_move_tree_only (src dst : Path) : tree_only (shutil_move src dst).
Proof.
  intros w. unfold after, shutil_move.
  destruct (is_dir dst (tree w)).
  - destruct (samefile src dst (tree w)); [apply syscall_tree_only|].
    destruct (path_exists _ (tree w)); [split; reflexivity|].
    apply rename_or_copy_tree_only.
  - apply rename_or_copy_tree_only.
Qed.

Lemma move_music_file_body_tree_only (file_path : Path) (info : Info)
  (base_folder : Path) :
  tree_only (move_music_file_body file_path info base_folder).
Proof.
  intros w. unfold after, move_music_file_body, bind, lift, ret.
  rewrite new_folder_of_eq.
  pose proof (Path_mkdir_rev_tree_only
                (anchored (base_folder / first_letter_of (artist_component info)
                            / artist_component info / album_component info)%path)
                (List.rev (parts (base_folder / first_letter_of (artist_component info)
                            / artist_component info / album_component info)%path)) w)
    as [M1 L1].
  unfold after in M1, L1. fold (Path_mkdir (base_folder / first_letter_of (artist_component info)
                            / artist_component info / album_component info)%path) in M1, L1.
  destruct (Path_mkdir _ w) as [[[]|e] w1]; [|split; assumption].
  cbn [snd] in M1, L1.
  match goal with |- context [shutil_move ?s ?d w1] =>
    pose proof (shutil_move_tree_only s d w1) as [M2 L2];
    unfold after in M2, L2; destruct (shutil_move s d w1) as [[[]|e] w2]
  end; cbn [snd] in *; split; congruence.
Qed.

Lemma move_music_file_manifest (file_path : Path) (info : Info)
  (base_folder : Path) (w : world) :
  manifest (after (move_music_file file_path info base_folder) w) = manifest w.
Proof.
  pose proof (move_music_file_body_tree_only file_path info base_folder w) as [Hm _].
  unfold after, move_music_file, print_errors in *.
  destruct (move_music_file_body _ _ _ w) as [[p|e] w1]; exact Hm.
Qed.

(** One turn of the loop, seen from the manifest, whether or not it
    raises. *)
Lemma process_file_manifest (file_path base_folder : Path) (w : world) :
  exists rows,
    manifest (after (process_file file_path base_folder) w) = manifest w ++ rows
    /\ length rows = (if written file_path base_folder w then 1 else 0)
    /\ length (List.filter has_path rows)
       = (if succeeds file_path base_folder w then 1 else 0)
    /\ Forall (fun row => forallb encodable row = true) rows.
Proof.
  unfold written, succeeds.
  destruct (fst (get_music_info_body file_path w)) as [info|e] eqn:E.
  - unfold after at 1.
    rewrite (process_file_row _ _ _ _ E), (row_of_row _ _ _ _ E), writerow_outcome.
    destruct (forallb encodable _) eqn:Enc.
    + cbn [snd manifest]. rewrite move_music_file_manifest.
      eexists. split; [reflexivity|]. split; [reflexivity|].
      split; [|repeat constructor; exact Enc].
      destruct (fst (move_music_file file_path info base_folder w)) as [[p|]|e'];
        reflexivity.
    + cbn [snd]. rewrite move_music_file_manifest.
      exists []. rewrite app_nil_r, andb_false_r. repeat split. constructor.
  - unfold after. rewrite (process_file_skip _ _ _ _ E), (row_of_skip _ _ _ _ E).
    exists []. cbn. rewrite app_nil_r. repeat split. constructor.
Qed.

End Manifest.

Section Rows.

Context {OS : Platform}.

Variable base_folder : Path.

Lemma process_batch_body_manifest (files : list Path) (w : world) :
  exists rows,
    manifest (after (process_batch_body files base_folder) w) = manifest w ++ rows
    /\ length rows = count_files written files base_folder w
    /\ length (List.filter has_path rows) = count_files succeeds files base_folder w.
Proof.
  revert w. induction files as [|f rest IH]; intros w.
  - exists []. cbn. rewrite app_nil_r. repeat split.
  - unfold after. rewrite process_batch_body_cons. cbn [count_files].
    destruct (process_file_manifest f base_folder w) as (r1 & M1 & L1 & P1 & _).
    unfold after in M1.
    destruct (process_file f base_folder w) as [[[]|e] w1]; cbn [snd] in *.
    + destruct (IH w1) as (r2 & M2 & L2 & P2).
      exists (r1 ++ r2). unfold after in *. split; [|split].
      * rewrite M2, M1, app_assoc. reflexivity.
      * rewrite length_app, L1, L2. reflexivity.
      * rewrite List.filter_app, length_app, P1, P2. reflexivity.
    + exists r1. split; [exact M1|]. split; lia.
Qed.

Lemma process_batch_manifest (files : list Path) (w : world) :
  exists rows,
    manifest (after (process_batch files base_folder) w) = manifest w ++ rows
    /\ length rows = count_files written files base_folder w
    /\ length (List.filter has_path rows) = count_files succeeds files base_folder w.
Proof.
  destruct (process_batch_body_manifest files w) as (rows & M & L & P).
  exists rows. split; [|split; assumption].
  unfold after, process_batch, print_errors in *.
  destruct (process_batch_body files base_folder w) as [[[]|e] w1]; exact M.
Qed.

Lemma process_batches_manifest (bs : list (list Path)) (w : world) :
  exists rows,
    manifest (after (process_batches bs base_folder) w) = manifest w ++ rows
    /\ length rows = count_batches written bs base_folder w
    /\ length (List.filter has_path rows) = count_batches succeeds bs base_folder w.
Proof.
  revert w. induction bs as [|b bs IH]; intros w.
  - exists []. cbn. rewrite app_nil_r. repeat split.
  - destruct (process_batch_manifest b w) as (r1 & M1 & L1 & P1).
    destruct (IH (after (process_batch b base_folder) w)) as (r2 & M2 & L2 & P2).
    exists (r1 ++ r2).
    assert (E : after (process_batches (b :: bs) base_folder) w
                = after (process_batches bs base_folder)
                    (after (process_batch b base_folder) w)).
    { unfold after. cbn [process_batches]. unfold bind.
      destruct (print_errors_returns "process_batch"
                  (process_batch_body b base_folder) w) as [r Hr].
      fold (process_batch b base_folder) in Hr. rewrite Hr. reflexivity. }
    rewrite E. cbn [count_batches]. split; [|split].
    + rewrite M2, M1, app_assoc. reflexivity.
    + rewrite length_app, L1, L2. reflexivity.
    + rewrite List.filter_app, length_app, P1, P2. reflexivity.
Qed.

End Rows.

Lemma delete_empty_folders_manifest {OS : Platform} (folder_path : Path)
  (w : world) :
  manifest (after (delete_empty_folders folder_path) w) = manifest w.
Proof.
  unfold after, delete_empty_folders, print_errors, delete_empty_folders_body.
  destruct (locate folder_path (tree w)) as [l|e]; [|reflexivity].
  destruct (lookup_loc l (tree w)) as [[i c|b es]|]; try reflexivity.
  destruct (sweep_node folder_path (Dir b es)) as [[n' lg] [e|]]; reflexivity.
Qed.

(** C2, as amended.  A batch appends one row for every file it comes to
    whose metadata was extracted and whose row could be encoded, whether or
    not the file could be moved; a file whose extraction failed gets no row.
    The rows that carry a destination are as many as the files processed
    with success (metadata read, file moved, row written): a file whose
    destination could not be made or which could not be moved gets a row
    with an empty last field.  A file whose row cannot be encoded gets no
    row, moved or not, and the batch ends with it: the files after it in
    the batch are not counted, they are not reached.  The same holds of a
    whole run, batch after batch and after the header row, when the
    manifest can be opened; a run that cannot open it writes nothing. *)
Theorem manifest_rows_of_a_batch {OS : Platform} (base_folder : Path) (w : world) :
  (forall files,
     exists rows,
       manifest (after (process_batch files base_folder) w) = manifest w ++ rows
       /\ length rows = count_files written files base_folder w
       /\ length (List.filter has_path rows)
          = count_files succeeds files base_folder w)
  /\ (forall folder_path output_csv delete_empty batch_size,
       match opened output_csv w with
       | Ret w0 =>
           exists rows,
             manifest (after (process_music_folder folder_path output_csv
                                base_folder delete_empty batch_size) w)
             = manifest w ++ header_row :: rows
             /\ length rows
                = count_batches written
                    (batches (rglob folder_path (tree w0)) batch_size)
                    base_folder w0
             /\ length (List.filter has_path rows)
                = count_batches succeeds
                    (batches (rglob folder_path (tree w0)) batch_size)
                    base_folder w0
       | Raise _ =>
           manifest (after (process_music_folder folder_path output_csv
                              base_folder delete_empty batch_size) w)
           = manifest w
       end).
Proof.
  split; [intros files; apply process_batch_manifest|].
  intros folder_path output_csv delete_empty batch_size.
  unfold after at 1 2. rewrite process_music_folder_closed_form. cbn [snd].
  unfold run_in_batches.
  destruct (opened output_csv w) as [w0|e] eqn:O; [|reflexivity].
  destruct (process_batches_manifest base_folder
              (batches (rglob folder_path (tree w0)) batch_size) w0)
    as (rows & M & L & P).
  exists rows. split; [|split; [exact L|exact P]].
  assert (E : manifest w0 = manifest w ++ [header_row]).
  { unfold opened in O. destruct (open_append output_csv (tree w)); [|discriminate].
    injection O as <-. reflexivity. }
  rewrite E, <- app_assoc in M.
  destruct delete_empty.
  - rewrite delete_empty_folders_manifest. exact M.
  - exact M.
Qed.

(** C2 as worded fails when the move fails after the metadata was read: the
    first-level folder cannot be made because a file has its name, the file
    stays where it is and is not processed with success, and still a row is
    written, with an empty last field. *)
Lemma row_written_for_a_failed_move :
  manifest (after (process_batch [parse "in/x.mp3"] (parse "out"))
              (Examples.fresh Examples.blocked))
  = [data_row (mkInfo "T" "Unknown" "Abba" "Unknown" "Gold") None]
  /\ count_files succeeds [parse "in/x.mp3"] (parse "out")
       (Examples.fresh Examples.blocked) = 0
  /\ log (after (process_batch [parse "in/x.mp3"] (parse "out"))
            (Examples.fresh Examples.blocked))
     = [LogError "move_music_file" NotADirectoryError]
  /\ is_file (parse "in/x.mp3")
       (tree (after (process_batch [parse "in/x.mp3"] (parse "out"))
                (Examples.fresh Examples.blocked))) = true
  /\ length (manifest (after (process_batch [parse "in/x.mp3"] (parse "out"))
                         (Examples.fresh Examples.blocked)))
     <> length (manifest (Examples.fresh Examples.blocked))
        + count_files succeeds [parse "in/x.mp3"] (parse "out")
            (Examples.fresh Examples.blocked).
Proof.
  repeat split; try (vm_compute; reflexivity).
  vm_compute. intros H; discriminate H.
Qed.

(** ** The scan *)

Section Scan.

Context {OS : Platform}.

Lemma in_extensions_spec (x : string) :
  in_extensions x = true <-> In x MUSIC_EXTENSIONS.
Proof.
  unfold in_extensions. rewrite existsb_exists. split.
  - intros (y & Hy & E). apply String.eqb_eq in E. subst. exact Hy.
  - intros H. exists x. split; [exact H|apply String.eqb_refl].
Qed.

Lemma get_child_In (m : string) (es : list (string * node)) (c : node) :
  get_child m es = Some c -> In (m, c) es.
Proof.
  induction es as [|[k d] es IH]; cbn; [discriminate|].
  destruct (String.eqb m k) eqn:E.
  - apply String.eqb_eq in E. intros [= ->]. subst. left. reflexivity.
  - intros H. right. exact (IH H).
Qed.

Lemma below_child (p : Path) (m : string) (l : loc) :
  below (child p m) l = below p (m :: l).
Proof. unfold below, child. cbn. rewrite <- app_assoc. reflexivity. Qed.

(** Every entry below a directory is listed by the recursive wildcard. *)
Lemma rglob_node_complete (l : loc) :
  forall (prefix : Path) (n x : node),
    l <> [] -> lookup_loc l n = Some x ->
    In (below prefix l) (rglob_node prefix n).
Proof.
  induction l as [|m l IH]; intros prefix n x Hne H; [congruence|].
  destruct n as [i c|b es]; [discriminate|].
  cbn [lookup_loc] in H.
  destruct (get_child m es) as [c|] eqn:G; [|discriminate].
  apply get_child_In in G.
  cbn [rglob_node]. apply in_or_app.
  destruct l as [|m' l'].
  - left. apply in_map_iff. exists (m, c). split; [|exact G].
    unfold below, child. reflexivity.
  - right. apply in_flat_map. exists (m, c). split; [exact G|].
    rewrite <- below_child. eapply IH; [discriminate|exact H].
Qed.

End Scan.

(** C9, as amended.  The files the run processes are the candidates: the
    batches it hands to [process_batch], one after the other, make up the
    entries the recursive scan of the root lists, files and directories
    alike, whose suffix is one of .mp3, .flac, .wav, .m4a compared character
    by character, in the order of the scan.  An entry with another suffix is
    left out, and every entry below the root with one of these suffixes is
    among them.  The scan is made once the manifest is open. *)
Theorem candidates_are_the_matching_entries {OS : Platform}
  (folder_path output_csv base_folder : Path) (delete_empty : bool)
  (batch_size : Z) (w : world) (t : node) :
  after (process_music_folder folder_path output_csv base_folder delete_empty
           batch_size) w
  = run_in_batches folder_path output_csv base_folder delete_empty batch_size w
  /\ concat (batches (rglob folder_path t) batch_size) = candidates folder_path t
  /\ (forall p, In p (candidates folder_path t) <->
                In p (rglob folder_path t) /\ In (suffix p) MUSIC_EXTENSIONS)
  /\ sublist (candidates folder_path t) (rglob folder_path t)
  /\ (forall l b es x,
        stat folder_path t = Ret (Dir b es) ->
        l <> [] -> lookup_loc l (Dir b es) = Some x ->
        In (suffix (below folder_path l)) MUSIC_EXTENSIONS ->
        In (below folder_path l) (candidates folder_path t))
  /\ in_extensions ".MP3" = false.
Proof.
  split.
  { unfold after. rewrite process_music_folder_closed_form. reflexivity. }
  split.
  { unfold batches. rewrite concat_batches_from. reflexivity. }
  split; [|split; [|split; [|reflexivity]]].
  - intros p. unfold candidates, candidates_of.
    rewrite List.filter_In, in_extensions_spec. reflexivity.
  - unfold candidates, candidates_of.
    induction (rglob folder_path t) as [|p ps IH]; [constructor|].
    cbn [List.filter].
    destruct (in_extensions (suffix p)); [apply sublist_skip|apply sublist_cons];
      exact IH.
  - intros l b es x Hs Hne Hl Hx.
    unfold candidates, candidates_of. apply List.filter_In.
    split; [|apply in_extensions_spec, Hx].
    unfold rglob. rewrite Hs. eapply rglob_node_complete; eassumption.
Qed.

(** C9 as worded fails on a directory named like a music file: it is among
    the candidates. *)
Lemma directory_among_the_candidates :
  In (parse "in/live.mp3") (candidates (parse "in") Examples.library)
  /\ is_dir (parse "in/live.mp3") Examples.library = true.
Proof.
  split; [|reflexivity].
  vm_compute. right. right. left. reflexivity.
Qed.

Example candidates_of_the_library :
  candidates (parse "in") Examples.library
  = [parse "in/x.mp3"; parse "in/y.mp3"; parse "in/live.mp3"; parse "in/sub/z.flac"].
Proof. reflexivity. Qed.

(** ** The cleanup *)

Section Cleanup.

(** Induction on a tree, with the property at hand for every entry of a
    directory. *)
Lemma node_ind_nested (P : node -> Prop)
  (Hfile : forall i c, P (File i c))
  (Hdir : forall b es, List.Forall (fun e => P (snd e)) es -> P (Dir b es)) :
  forall n, P n.
Proof.
  fix IH 1. intros [i c|b es]; [apply Hfile|].
  apply Hdir. revert es. fix IHes 1.
  intros [|[m c] es]; constructor; [apply IH|apply IHes].
Qed.

Lemma empty_dir_not_refused (c : node) :
  is_empty_dir c = true -> refused c = false -> rmdir_refusal c = None.
Proof. destruct c as [|[] [|]]; cbn; congruence. Qed.

Lemma refused_is_empty (c : node) :
  refused c = true -> is_empty_dir c = true /\ rmdir_refusal c = Some PermissionError.
Proof. destruct c as [|[] [|]]; cbn; try discriminate. split; reflexivity. Qed.

Lemma survivors_cons (m : string) (c : node) (es : list (string * node)) :
  survivors ((m, c) :: es)
  = if is_empty_dir c then survivors es else (m, c) :: survivors es.
Proof. unfold survivors. cbn. destruct (is_empty_dir c); reflexivity. Qed.

Lemma deleted_log_cons (prefix : Path) (m : string) (c : node)
  (es : list (string * node)) :
  deleted_log prefix ((m, c) :: es)
  = if is_empty_dir c then LogDeleted (child prefix m) :: deleted_log prefix es
    else deleted_log prefix es.
Proof. unfold deleted_log. cbn. destruct (is_empty_dir c); reflexivity. Qed.

(** The first half on a listing nothing of which is refused. *)
Lemma prune_clean (prefix : Path) (es : list (string * node)) :
  forallb (fun e => negb (refused (snd e))) es = true ->
  prune prefix es = (survivors es, deleted_log prefix es, None).
Proof.
  induction es as [|[m c] es IH]; [reflexivity|].
  cbn [forallb snd]. intros H. apply andb_prop in H as [Hc Hes].
  apply negb_true_iff in Hc. specialize (IH Hes).
  cbn [prune]. rewrite survivors_cons, deleted_log_cons.
  destruct (is_empty_dir c) eqn:E.
  - rewrite (empty_dir_not_refused c E Hc), IH. reflexivity.
  - rewrite IH. reflexivity.
Qed.

(** The first half stops at the first refusal. *)
Lemma prune_stops (prefix : Path) (pre post : list (string * node))
  (m : string) (c : node) :
  forallb (fun e => negb (refused (snd e))) pre = true ->
  refused c = true ->
  prune prefix (pre ++ (m, c) :: post)
  = (survivors pre ++ (m, c) :: post, deleted_log prefix pre, Some PermissionError).
Proof.
  intros Hpre Hc. destruct (refused_is_empty c Hc) as [Ec Rc].
  induction pre as [|[k d] pre IH].
  - cbn. rewrite Ec, Rc. reflexivity.
  - cbn [forallb snd] in Hpre. apply andb_prop in Hpre as [Hd Hpre].
    apply negb_true_iff in Hd. specialize (IH Hpre).
    cbn [app prune]. rewrite survivors_cons, deleted_log_cons.
    destruct (is_empty_dir d) eqn:E.
    + rewrite (empty_dir_not_refused d E Hd), IH. reflexivity.
    + rewrite IH. reflexivity.
Qed.

Lemma survivors_fixed (es : list (string * node)) :
  forallb (fun e => negb (is_empty_dir (snd e))) es = true -> survivors es = es.
Proof.
  induction es as [|[m c] es IH]; [reflexivity|].
  cbn [forallb snd]. intros H. rewrite survivors_cons.
  apply andb_prop in H as [Hc Hes]. apply negb_true_iff in Hc. rewrite Hc.
  f_equal. exact (IH Hes).
Qed.

Lemma deleted_log_nil (prefix : Path) (es : list (string * node)) :
  forallb (fun e => negb (is_empty_dir (snd e))) es = true ->
  deleted_log prefix es = [].
Proof.
  induction es as [|[m c] es IH]; [reflexivity|].
  cbn [forallb snd]. intros H. rewrite deleted_log_cons.
  apply andb_prop in H as [Hc Hes]. apply negb_true_iff in Hc. rewrite Hc.
  exact (IH Hes).
Qed.

Lemma not_empty_not_refused (es : list (string * node)) :
  forallb (fun e => negb (is_empty_dir (snd e))) es = true ->
  forallb (fun e => negb (refused (snd e))) es = true.
Proof.
  induction es as [|[m c] es IH]; [reflexivity|].
  cbn [forallb snd]. intros H. apply andb_prop in H as [Hc Hes].
  rewrite (IH Hes), andb_true_r.
  destruct c as [|[] [|]]; cbn in *; congruence.
Qed.

(** A tree without empty directories is left as it is, without a line
    logged. *)
Lemma sweep_node_fixed (n : node) :
  no_empty_below n = true -> forall prefix, sweep_node prefix n = (n, [], None).
Proof.
  induction n as [i c|b es IH] using node_ind_nested; intros H prefix;
    [reflexivity|].
  cbn [no_empty_below] in H. cbn [sweep_node].
  assert (Hne : forallb (fun e => negb (is_empty_dir (snd e))) es = true).
  { clear IH. induction es as [|[m c] es IHes]; [reflexivity|].
    cbn [forallb snd] in *. apply andb_prop in H as [Hc Hes].
    apply andb_prop in Hc as [Hc _]. rewrite Hc. exact (IHes Hes). }
  rewrite (prune_clean prefix es (not_empty_not_refused es Hne)).
  rewrite (deleted_log_nil prefix es Hne).
  assert (D : descend sweep_node prefix es = (es, [], None)).
  { clear Hne. induction es as [|[m c] es IHes]; [reflexivity|].
    cbn [forallb] in H. apply andb_prop in H as [Hc Hes].
    apply andb_prop in Hc as [Hc1 Hc2]. apply negb_true_iff in Hc1.
    inversion IH as [|? ? Pc Pes]; subst. cbn [snd] in Pc.
    cbn [descend]. rewrite Hc1, (Pc Hc2).
    fold (descend sweep_node prefix). rewrite (IHes Pes Hes). reflexivity. }
  rewrite D. reflexivity.
Qed.

(** The second half on a firm listing: no exception, as many entries left
    as the first half left, none of them an empty directory and none with
    an empty directory below. *)
Lemma descend_firm (prefix : Path) (es : list (string * node)) :
  List.Forall (fun e =>
    firm (snd e) = true -> forall prefix,
    exists n1 lg, sweep_node prefix (snd e) = (n1, lg, None)
                  /\ no_empty_below n1 = true
                  /\ (keeps_an_entry (snd e) = true -> is_empty_dir n1 = false)) es ->
  firm (Dir false es) = true ->
  exists es2 lg, descend sweep_node prefix es = (es2, lg, None)
                 /\ no_empty_below (Dir false es2) = true
                 /\ length es2 = length (survivors es).
Proof.
  intros IH. induction es as [|[m c] es IHes]; intros H.
  - exists [], []. repeat split.
  - cbn [firm forallb] in H. apply andb_prop in H as [Hc Hes].
    inversion IH as [|? ? Pc Pes]; subst. cbn [snd] in Pc.
    destruct (IHes Pes Hes) as (es2 & lg & D & N & L).
    cbn [descend]. rewrite survivors_cons.
    fold (descend sweep_node prefix).
    destruct (is_empty_dir c) eqn:E.
    + cbn [negb]. exists es2, lg. repeat split; assumption.
    + cbn [negb]. apply andb_prop in Hc as [Kc Fc].
      destruct (Pc Fc (child prefix m)) as (c1 & lga & S1 & N1 & K1).
      rewrite S1, D. exists ((m, c1) :: es2), (lga ++ lg).
      split; [reflexivity|]. split.
      * cbn [no_empty_below forallb]. rewrite (K1 Kc), N1. cbn.
        exact N.
      * cbn [length]. rewrite L. reflexivity.
Qed.

Lemma firm_not_refused (es : list (string * node)) :
  firm (Dir false es) = true ->
  forallb (fun e => negb (refused (snd e))) es = true.
Proof.
  induction es as [|[m c] es IH]; [reflexivity|].
  cbn [firm forallb snd]. intros H. apply andb_prop in H as [Hc Hes].
  cbn [firm] in IH. rewrite (IH Hes), andb_true_r.
  destruct (is_empty_dir c) eqn:E; [exact Hc|].
  destruct c as [|[] [|]]; cbn in *; congruence.
Qed.

Lemma survivors_not_nil (es : list (string * node)) :
  existsb (fun e => negb (is_empty_dir (snd e))) es = true ->
  length (survivors es) <> 0.
Proof.
  induction es as [|[m c] es IH]; [discriminate|].
  cbn [existsb snd]. rewrite survivors_cons.
  destruct (is_empty_dir c); [exact IH|discriminate].
Qed.

(** One pass over a firm tree raises nothing and leaves no empty
    directory. *)
Lemma sweep_node_firm (n : node) :
  firm n = true -> forall prefix,
  exists n1 lg, sweep_node prefix n = (n1, lg, None)
                /\ no_empty_below n1 = true
                /\ (keeps_an_entry n = true -> is_empty_dir n1 = false).
Proof.
  induction n as [i c|b es IH] using node_ind_nested; intros H prefix.
  - exists (File i c), []. repeat split.
  - cbn [sweep_node].
    change (firm (Dir b es)) with (firm (Dir false es)) in H.
    rewrite (prune_clean prefix es (firm_not_refused es H)).
    destruct (descend_firm prefix es IH H) as (es2 & lg & D & N & L).
    rewrite D. exists (Dir b es2), (deleted_log prefix es ++ lg).
    split; [reflexivity|]. split; [exact N|].
    cbn [keeps_an_entry]. intros K. apply survivors_not_nil in K.
    destruct es2; [cbn in L; congruence|reflexivity].
Qed.

(** The pass over a directory leaves a directory, with its flag. *)
Lemma sweep_node_dir (prefix : Path) (b : bool) (es : list (string * node)) :
  exists es', fst (fst (sweep_node prefix (Dir b es))) = Dir b es'.
Proof.
  cbn [sweep_node].
  destruct (prune prefix es) as [[es1 lg1] [e|]]; [eexists; reflexivity|].
  destruct (descend sweep_node prefix es) as [[es2 lg2] r].
  eexists; reflexivity.
Qed.

(** *** A pass that meets a refusal *)

(** The pass logs nothing but the directories it removes. *)
Lemma prune_logs (prefix : Path) (es : list (string * node)) :
  Forall (fun ev => exists d, ev = LogDeleted d) (snd (fst (prune prefix es))).
Proof.
  induction es as [|[m c] es IH]; [constructor|].
  cbn [prune].
  destruct (is_empty_dir c).
  - destruct (rmdir_refusal c); [constructor|].
    destruct (prune prefix es) as [[rest' lg] r]. cbn [fst snd] in *.
    constructor; [eexists; reflexivity|exact IH].
  - destruct (prune prefix es) as [[rest' lg] r]. exact IH.
Qed.

Lemma sweep_node_logs (n : node) :
  forall prefix,
    Forall (fun ev => exists d, ev = LogDeleted d) (snd (fst (sweep_node prefix n))).
Proof.
  induction n as [i c|b es IH] using node_ind_nested; intros prefix;
    [constructor|].
  cbn [sweep_node].
  pose proof (prune_logs prefix es) as P.
  destruct (prune prefix es) as [[es1 lg1] [e|]]; cbn [fst snd] in *; [exact P|].
  assert (D : Forall (fun ev => exists d, ev = LogDeleted d)
                (snd (fst (descend sweep_node prefix es)))).
  { clear P. induction es as [|[m c] es IHes]; [constructor|].
    inversion IH as [|? ? Pc Pes]; subst. cbn [snd] in Pc.
    cbn [descend]. fold (descend sweep_node prefix).
    destruct (is_empty_dir c); [exact (IHes Pes)|].
    specialize (Pc (child prefix m)).
    destruct (sweep_node (child prefix m) c) as [[c' lga] [e|]];
      cbn [fst snd] in *; [exact Pc|].
    specialize (IHes Pes).
    destruct (descend sweep_node prefix es) as [[rest' lgb] r].
    cbn [fst snd] in *. apply Forall_app. split; assumption. }
  destruct (descend sweep_node prefix es) as [[es2 lg2] r]. cbn [fst snd] in *.
  apply Forall_app. split; assumption.
Qed.

(** A listing either holds no refused directory or splits at the first. *)
Lemma first_refused (es : list (string * node)) :
  forallb (fun e => negb (refused (snd e))) es = true
  \/ exists before m c after_it,
       es = before ++ (m, c) :: after_it
       /\ forallb (fun e => negb (refused (snd e))) before = true
       /\ refused c = true.
Proof.
  induction es as [|[m c] es IH]; [left; reflexivity|].
  destruct (refused c) eqn:R.
  - right. exists [], m, c, es. repeat split. exact R.
  - destruct IH as [IH|(before & k & d & after_it & -> & Hb & Hd)].
    + left. cbn [forallb snd]. rewrite R, IH. reflexivity.
    + right. exists ((m, c) :: before), k, d, after_it.
      split; [reflexivity|]. split; [|exact Hd].
      cbn [forallb snd]. rewrite R, Hb. reflexivity.
Qed.

(** The second half over two listings in a row. *)
Lemma descend_app (f : Path -> node -> node * list event * option exn)
  (prefix : Path) (a b a' : list (string * node)) (lga : list event) :
  descend f prefix a = (a', lga, None) ->
  descend f prefix (a ++ b)
  = (let '(b', lgb, r) := descend f prefix b in (a' ++ b', lga ++ lgb, r)).
Proof.
  revert a' lga. induction a as [|[m c] a IH]; intros a' lga.
  - cbn. intros [= <- <-].
    destruct (descend f prefix b) as [[b' lgb] r]. reflexivity.
  - cbn [app descend]. fold (descend f prefix).
    destruct (is_empty_dir c); [apply IH|].
    destruct (f (child prefix m) c) as [[c' lgc] [e|]]; [discriminate|].
    destruct (descend f prefix a) as [[a1 lg1] r1] eqn:D.
    intros [= <- <- ->]. rewrite (IH a1 lg1 eq_refl).
    destruct (descend f prefix b) as [[b' lgb] r].
    rewrite <- app_assoc. reflexivity.
Qed.

(** The second half either comes to its end or splits at the directory
    below which it stops. *)
Lemma descend_split (f : Path -> node -> node * list event * option exn)
  (prefix : Path) (es : list (string * node)) :
  forall es2 lg e,
    descend f prefix es = (es2, lg, Some e) ->
    exists before m c after_it before' lgb c' lgc,
      es = before ++ (m, c) :: after_it
      /\ descend f prefix before = (before', lgb, None)
      /\ is_empty_dir c = false
      /\ f (child prefix m) c = (c', lgc, Some e)
      /\ es2 = before' ++ (m, c') :: survivors after_it
      /\ lg = lgb ++ lgc.
Proof.
  induction es as [|[m c] es IH]; intros es2 lg e; [discriminate|].
  cbn [descend]. fold (descend f prefix).
  destruct (is_empty_dir c) eqn:E.
  - intros D. destruct (IH _ _ _ D)
      as (before & k & d & after_it & before' & lgb & d' & lgd
          & -> & Db & Ed & Fd & -> & ->).
    exists ((m, c) :: before), k, d, after_it, before', lgb, d', lgd.
    repeat split; try assumption.
    cbn [descend]. fold (descend f prefix). rewrite E. exact Db.
  - destruct (f (child prefix m) c) as [[c' lgc] [e'|]] eqn:F.
    + intros [= <- <- <-].
      exists [], m, c, es, [], [], c', lgc. repeat split; assumption.
    + destruct (descend f prefix es) as [[rest' lgrest] r] eqn:D.
      intros [= <- <- ->].
      destruct (IH _ _ _ eq_refl)
        as (before & k & d & after_it & before' & lgb & d' & lgd
            & -> & Db & Ed & Fd & -> & ->).
      exists ((m, c) :: before), k, d, after_it, ((m, c') :: before'),
        (lgc ++ lgb), d', lgd.
      repeat split; try assumption.
      * cbn [descend]. fold (descend f prefix). rewrite E, F, Db. reflexivity.
      * rewrite app_assoc. reflexivity.
Qed.

Lemma descend_stops (f : Path -> node -> node * list event * option exn)
  (prefix : Path) (before after_it before' : list (string * node)) (m : string)
  (c c' : node) (lgb lgc : list event) (e : exn) :
  descend f prefix before = (before', lgb, None) ->
  is_empty_dir c = false ->
  f (child prefix m) c = (c', lgc, Some e) ->
  descend f prefix (before ++ (m, c) :: after_it)
  = (before' ++ (m, c') :: survivors after_it, lgb ++ lgc, Some e).
Proof.
  intros Db Ec Fc. rewrite (descend_app f prefix _ _ _ _ Db).
  cbn [descend]. rewrite Ec, Fc. reflexivity.
Qed.

(** A pass is ended by an exception exactly as [stops] says, and the
    exception is the refusal. *)
Lemma stops_sweep_node (prefix : Path) (n n' : node) (lg : list event) :
  stops prefix n n' lg ->
  sweep_node prefix n = (n', lg, Some PermissionError).
Proof.
  induction 1 as [prefix b before m c after_it Hb Hc
                 |prefix b before m c after_it before' lgb c' lgc Hall Db Ec Hs IH].
  - cbn [sweep_node]. rewrite (prune_stops prefix before after_it m c Hb Hc).
    reflexivity.
  - cbn [sweep_node]. rewrite (prune_clean prefix _ Hall).
    rewrite (descend_stops sweep_node prefix before after_it before' m c c'
               lgb lgc PermissionError Db Ec IH).
    reflexivity.
Qed.

Lemma sweep_node_stops (n : node) :
  forall prefix n' lg e,
    sweep_node prefix n = (n', lg, Some e) ->
    e = PermissionError /\ stops prefix n n' lg.
Proof.
  induction n as [i c|b es IH] using node_ind_nested; intros prefix n' lg e;
    [discriminate|].
  cbn [sweep_node].
  destruct (first_refused es)
    as [Hall|(before & m & c & after_it & -> & Hb & Hc)].
  - rewrite (prune_clean prefix es Hall).
    destruct (descend sweep_node prefix es) as [[es2 lg2] r] eqn:D.
    intros [= <- <- ->].
    destruct (descend_split sweep_node prefix es _ _ _ D)
      as (before & m & c & after_it & before' & lgb & c' & lgc
          & -> & Db & Ec & Fc & -> & ->).
    apply Forall_app in IH as [_ IH]. inversion IH as [|? ? Pc _]; subst.
    cbn [snd] in Pc. destruct (Pc _ _ _ _ Fc) as [-> Hs].
    split; [reflexivity|].
    apply stops_below; assumption.
  - rewrite (prune_stops prefix before after_it m c Hb Hc).
    intros [= <- <- <-]. split; [reflexivity|].
    apply stops_here; assumption.
Qed.

End Cleanup.

(** ** Positions in the tree *)

Section Positions.

Lemma get_child_map_child (m n : string) (f : node -> node)
  (es : list (string * node)) :
  get_child m (map_child n f es)
  = if String.eqb m n then option_map f (get_child n es) else get_child m es.
Proof.
  induction es as [|[k c] es IH]; cbn [map_child get_child].
  - destruct (String.eqb m n); reflexivity.
  - destruct (String.eqb n k) eqn:Enk; cbn [get_child].
    + apply String.eqb_eq in Enk. subst k.
      destruct (String.eqb m n); reflexivity.
    + rewrite IH. destruct (String.eqb m n) eqn:Emn; [|reflexivity].
      apply String.eqb_eq in Emn. subst m. rewrite Enk. reflexivity.
Qed.

Lemma get_child_put_child (m n : string) (v : node) (es : list (string * node)) :
  get_child m (put_child n v es)
  = if String.eqb m n then Some v else get_child m es.
Proof.
  induction es as [|[k c] es IH]; cbn [put_child get_child].
  - destruct (String.eqb m n); reflexivity.
  - destruct (String.eqb n k) eqn:Enk; cbn [get_child].
    + apply String.eqb_eq in Enk. subst k.
      destruct (String.eqb m n); reflexivity.
    + rewrite IH. destruct (String.eqb m n) eqn:Emn; [|reflexivity].
      apply String.eqb_eq in Emn. subst m. rewrite Enk. reflexivity.
Qed.

Lemma get_child_del_child (m n : string) (es : list (string * node)) :
  get_child m (del_child n es)
  = if String.eqb m n then None else get_child m es.
Proof.
  unfold del_child.
  induction es as [|[k c] es IH]; cbn [List.filter get_child fst].
  - destruct (String.eqb m n); reflexivity.
  - destruct (String.eqb n k) eqn:Enk; cbn [negb get_child].
    + apply String.eqb_eq in Enk. subst k. rewrite IH.
      destruct (String.eqb m n); reflexivity.
    + rewrite IH. destruct (String.eqb m n) eqn:Emn; [|reflexivity].
      apply String.eqb_eq in Emn. subst m. rewrite Enk. reflexivity.
Qed.

Lemma map_child_fixed (n : string) (f : node -> node) (es : list (string * node))
  (c : node) :
  get_child n es = Some c -> f c = c -> map_child n f es = es.
Proof.
  intros G Hf. induction es as [|[k d] es IH]; [reflexivity|].
  cbn [get_child map_child] in *.
  destruct (String.eqb n k); [|f_equal; exact (IH G)].
  injection G as ->. rewrite Hf. reflexivity.
Qed.

Lemma starts_with_app (p l2 : loc) : starts_with p (p ++ l2) = true.
Proof.
  induction p as [|a p IH]; [reflexivity|].
  cbn. rewrite String.eqb_refl. exact IH.
Qed.

Lemma starts_with_split (p l : loc) :
  starts_with p l = true -> exists l2, l = p ++ l2.
Proof.
  revert l. induction p as [|a p IH]; intros l H; [exists l; reflexivity|].
  destruct l as [|b l]; [discriminate|]. cbn in H.
  apply andb_prop in H as [E H]. apply String.eqb_eq in E. subst b.
  destruct (IH l H) as [l2 ->]. exists l2. reflexivity.
Qed.

Lemma starts_with_refl (l : loc) : starts_with l l = true.
Proof.
  rewrite <- (app_nil_r l) at 2. apply starts_with_app.
Qed.

Lemma starts_with_longer (p : loc) (n : string) :
  starts_with (p ++ [n]) p = false.
Proof.
  induction p as [|a p IH]; [reflexivity|].
  cbn. rewrite IH. apply andb_false_r.
Qed.

Lemma starts_with_trans (a b c : loc) :
  starts_with a b = true -> starts_with b c = true -> starts_with a c = true.
Proof.
  intros H1 H2. destruct (starts_with_split _ _ H1) as [x ->].
  destruct (starts_with_split _ _ H2) as [y ->].
  rewrite <- app_assoc. apply starts_with_app.
Qed.

(** The entry at the altered position. *)
Lemma lookup_alter_at_below (f : node -> node) (p l2 : loc) :
  forall t,
    lookup_loc (p ++ l2) (alter_at f p t)
    = match lookup_loc p t with
      | Some n => lookup_loc l2 (f n)
      | None => None
      end.
Proof.
  induction p as [|a p IH]; intros t; [reflexivity|].
  destruct t as [? c|b es]; [reflexivity|].
  cbn [app lookup_loc alter_at].
  rewrite get_child_map_child, String.eqb_refl.
  destruct (get_child a es) as [c|]; [|reflexivity].
  cbn [option_map]. apply IH.
Qed.

Lemma lookup_alter_at_same (f : node -> node) (l : loc) (t : node) :
  lookup_loc l (alter_at f l t) = option_map f (lookup_loc l t).
Proof.
  pose proof (lookup_alter_at_below f l [] t) as H.
  rewrite app_nil_r in H. rewrite H.
  destruct (lookup_loc l t); reflexivity.
Qed.

Lemma alter_at_fixed (l : loc) :
  forall (t n : node), lookup_loc l t = Some n -> alter_at (fun _ => n) l t = t.
Proof.
  induction l as [|a l IH]; intros t n H.
  - cbn in *. congruence.
  - destruct t as [? c|b es]; [reflexivity|].
    cbn [lookup_loc alter_at] in *.
    destruct (get_child a es) as [c|] eqn:G; [|discriminate].
    f_equal. eapply map_child_fixed; [exact G|]. apply IH, H.
Qed.

(** Away from the altered position and what lies below it, what stands at
    a position stays, when the alteration keeps files files and
    directories directories. *)
Lemma kind_at_alter_at (f : node -> node) :
  (forall n, kind_of (f n) = kind_of n) ->
  forall (p l : loc) (t : node),
    starts_with p l = false \/ l = p ->
    kind_at l (alter_at f p t) = kind_at l t.
Proof.
  intros Hf. unfold kind_at.
  induction p as [|a p IH]; intros l t H.
  - destruct H as [H| ->]; [discriminate|]. cbn. rewrite Hf. reflexivity.
  - destruct t as [? c|b es]; [reflexivity|].
    destruct l as [|m l]; [reflexivity|].
    cbn [lookup_loc alter_at]. rewrite get_child_map_child.
    destruct (String.eqb m a) eqn:E; [|reflexivity].
    apply String.eqb_eq in E. subst m.
    destruct (get_child a es) as [c|]; [|reflexivity].
    cbn [option_map]. apply IH.
    destruct H as [H|H].
    + left. cbn in H. rewrite String.eqb_refl in H. exact H.
    + right. congruence.
Qed.

Lemma kind_of_on_entries (g : list (string * node) -> list (string * node))
  (n : node) : kind_of (on_entries g n) = kind_of n.
Proof. destruct n; reflexivity. Qed.

Lemma lookup_below_file (l : loc) (t : node) (i : nat)
  (c : option (gmap string (list string)))
  (m : string) (l3 : loc) :
  lookup_loc l t = Some (File i c) -> lookup_loc (l ++ m :: l3) t = None.
Proof.
  revert t. induction l as [|a l IH]; intros t H.
  - cbn in H. injection H as ->. reflexivity.
  - destruct t as [? c'|b es]; [reflexivity|].
    cbn [app lookup_loc] in *.
    destruct (get_child a es); [apply IH, H|reflexivity].
Qed.

Lemma lookup_below_none (l l2 : loc) (t : node) :
  lookup_loc l t = None -> lookup_loc (l ++ l2) t = None.
Proof.
  revert t. induction l as [|a l IH]; intros t H; [discriminate|].
  destruct t as [? c'|b es]; [reflexivity|].
  cbn [app lookup_loc] in *.
  destruct (get_child a es); [apply IH, H|reflexivity].
Qed.

Lemma lookup_app (l l2 : loc) (t : node) :
  lookup_loc (l ++ l2) t
  = match lookup_loc l t with
    | Some n => lookup_loc l2 n
    | None => None
    end.
Proof.
  revert t. induction l as [|a l IH]; intros t; [reflexivity|].
  destruct t as [? c'|b es]; [reflexivity|].
  cbn [app lookup_loc].
  destruct (get_child a es); [apply IH|reflexivity].
Qed.

End Positions.

Section Walks.

Lemma starts_with_strictly_longer (p q : loc) (a : string) :
  starts_with (p ++ a :: q) p = false.
Proof.
  induction p as [|b p IH]; [reflexivity|].
  cbn. rewrite IH. apply andb_false_r.
Qed.

(** Off the altered position and what lies below it, nothing changes,
    whatever the alteration. *)
Lemma kind_at_alter_at_off (f : node -> node) :
  forall (p l : loc) (t : node),
    starts_with p l = false ->
    kind_at l (alter_at f p t) = kind_at l t.
Proof.
  unfold kind_at.
  induction p as [|a p IH]; intros l t H; [discriminate|].
  destruct t as [? c|b es]; [reflexivity|].
  destruct l as [|m l]; [reflexivity|].
  cbn [lookup_loc alter_at]. rewrite get_child_map_child.
  destruct (String.eqb m a) eqn:E; [|reflexivity].
  apply String.eqb_eq in E. subst m.
  destruct (get_child a es) as [c|]; [|reflexivity].
  cbn [option_map]. apply IH.
  cbn in H. rewrite String.eqb_refl in H. exact H.
Qed.

Lemma kind_at_dir (l : loc) (t : node) :
  kind_at l t = Some KDir <-> exists b es, lookup_loc l t = Some (Dir b es).
Proof.
  unfold kind_at. destruct (lookup_loc l t) as [[? c|b es]|]; cbn; split.
  all: try discriminate.
  all: try (intros (b' & es' & H); discriminate).
  - intros _. exists b, es. reflexivity.
  - reflexivity.
Qed.

(** A walk sees the tree only through the directories it passes. *)
Lemma walk_mono (t t' : node) :
  (forall l, kind_at l t = Some KDir -> kind_at l t' = Some KDir) ->
  forall cs cur l, walk t cur cs = Ret l -> walk t' cur cs = Ret l.
Proof.
  intros Hd. induction cs as [|c cs IH]; intros cur l H; [exact H|].
  cbn [walk] in *.
  destruct (lookup_loc cur t) as [[? x|b es]|] eqn:E; try discriminate.
  assert (K : kind_at cur t' = Some KDir).
  { apply Hd. unfold kind_at. rewrite E. reflexivity. }
  apply kind_at_dir in K as (b' & es' & ->). apply IH, H.
Qed.

(** Without the two dots a walk only goes down. *)
Lemma walk_plain (t : node) (cs : list string) :
  forallb (fun c => negb (String.eqb c "..")) cs = true ->
  forall cur l, walk t cur cs = Ret l -> l = cur ++ cs.
Proof.
  induction cs as [|c cs IH]; intros Hp cur l H.
  - cbn in H. rewrite app_nil_r. congruence.
  - cbn [forallb] in Hp. apply andb_prop in Hp as [Hc Hp].
    apply negb_true_iff in Hc. cbn [walk] in H. rewrite Hc in H.
    destruct (lookup_loc cur t) as [[? x|b es]|]; try discriminate.
    rewrite (IH Hp _ _ H), <- app_assoc. reflexivity.
Qed.

Lemma walk_plain_alter_at (f : node -> node) (t : node) (cs : list string) :
  forallb (fun c => negb (String.eqb c "..")) cs = true ->
  forall cur target,
    target = cur ++ cs ->
    walk t cur cs = Ret target ->
    walk (alter_at f target t) cur cs = Ret target.
Proof.
  induction cs as [|c cs IH]; intros Hp cur target Ht H; [exact H|].
  cbn [forallb] in Hp. apply andb_prop in Hp as [Hc Hp].
  apply negb_true_iff in Hc. cbn [walk] in *. rewrite Hc in *.
  destruct (lookup_loc cur t) as [[? x|b es]|] eqn:E; try discriminate.
  assert (K : kind_at cur (alter_at f target t) = Some KDir).
  { subst target.
    rewrite kind_at_alter_at_off by apply starts_with_strictly_longer.
    unfold kind_at. rewrite E. reflexivity. }
  apply kind_at_dir in K as (b' & es' & ->).
  apply IH; [exact Hp| |exact H].
  subst target. rewrite <- app_assoc. reflexivity.
Qed.

End Walks.

(** ** Linking and unlinking *)

Section Links.

Lemma starts_with_app_inv (p a b : loc) :
  starts_with (p ++ a) (p ++ b) = starts_with a b.
Proof.
  induction p as [|x p IH]; [reflexivity|].
  cbn. rewrite String.eqb_refl. exact IH.
Qed.

Lemma starts_with_prefix (p q l : loc) :
  starts_with (p ++ q) l = true -> starts_with p l = true.
Proof.
  intros H. eapply starts_with_trans; [apply starts_with_app|exact H].
Qed.

Lemma split_last (l : loc) :
  l <> [] -> l = List.removelast l ++ [List.last l ""].
Proof. intros H. apply app_removelast_last, H. Qed.

Lemma unlink_at_eq (ls : loc) (t : node) :
  ls <> [] ->
  unlink_at ls t
  = alter_at (on_entries (del_child (List.last ls ""))) (List.removelast ls) t.
Proof. destruct ls; [congruence|reflexivity]. Qed.

Lemma link_at_eq (ld : loc) (v t : node) :
  ld <> [] ->
  link_at ld v t
  = alter_at (on_entries (put_child (List.last ld "") v)) (List.removelast ld) t.
Proof. destruct ld; [congruence|reflexivity]. Qed.

(** Unlinking: nothing at the position nor below it afterwards, everything
    else as before. *)
Lemma kind_at_unlink_at (ls l : loc) (t : node) :
  ls <> [] ->
  kind_at l (unlink_at ls t)
  = if starts_with ls l then None else kind_at l t.
Proof.
  intros Hne. rewrite (unlink_at_eq ls t Hne).
  pose proof (split_last ls Hne) as E.
  set (p := List.removelast ls) in *. set (n := List.last ls "") in *.
  destruct (starts_with p l) eqn:Hp.
  - destruct (starts_with_split _ _ Hp) as [l2 ->].
    rewrite E, starts_with_app_inv.
    destruct l2 as [|m l3].
    + cbn [starts_with]. rewrite app_nil_r.
      apply kind_at_alter_at; [apply kind_of_on_entries|right; reflexivity].
    + unfold kind_at. rewrite lookup_alter_at_below, lookup_app.
      cbn [starts_with]. rewrite andb_true_r.
      destruct (lookup_loc p t) as [[? c|b es]|]; cbn [on_entries lookup_loc].
      * destruct (String.eqb n m); reflexivity.
      * rewrite get_child_del_child, (String.eqb_sym n m).
        destruct (String.eqb m n); reflexivity.
      * destruct (String.eqb n m); reflexivity.
  - rewrite kind_at_alter_at_off by exact Hp.
    destruct (starts_with ls l) eqn:Hs; [|reflexivity].
    rewrite E in Hs. apply starts_with_prefix in Hs. congruence.
Qed.

(** Linking an entry that has nothing below it, in an existing directory:
    the entry at the position afterwards, nothing below it, everything
    else as before. *)
Lemma kind_at_link_at (ld l : loc) (v t : node) :
  ld <> [] ->
  kind_at (List.removelast ld) t = Some KDir ->
  (forall m l3, lookup_loc (m :: l3) v = None) ->
  kind_at l (link_at ld v t)
  = if starts_with ld l
    then (if bool_decide (l = ld) then Some (kind_of v) else None)
    else kind_at l t.
Proof.
  intros Hne Hdir Hv. rewrite (link_at_eq ld v t Hne).
  pose proof (split_last ld Hne) as E.
  set (p := List.removelast ld) in *. set (n := List.last ld "") in *.
  apply kind_at_dir in Hdir as (b & es & Hp').
  destruct (starts_with p l) eqn:Hp.
  - destruct (starts_with_split _ _ Hp) as [l2 ->].
    rewrite E, starts_with_app_inv.
    destruct l2 as [|m l3].
    + cbn [starts_with]. rewrite app_nil_r.
      apply kind_at_alter_at; [apply kind_of_on_entries|right; reflexivity].
    + unfold kind_at. rewrite lookup_alter_at_below, lookup_app, Hp'.
      cbn [starts_with on_entries lookup_loc]. rewrite andb_comm.
      rewrite get_child_put_child, (String.eqb_sym n m).
      destruct (String.eqb m n) eqn:Emn.
      * apply String.eqb_eq in Emn. subst m.
        destruct l3 as [|m' l3']; cbn [starts_with andb].
        -- rewrite bool_decide_eq_true_2 by reflexivity. reflexivity.
        -- rewrite Hv. rewrite bool_decide_eq_false_2; [reflexivity|].
           intros H. apply app_inv_head in H. discriminate.
      * destruct l3; reflexivity.
  - rewrite kind_at_alter_at_off by exact Hp.
    destruct (starts_with ld l) eqn:Hs; [|reflexivity].
    rewrite E in Hs. apply starts_with_prefix in Hs. congruence.
Qed.

Lemma lookup_parent_dir (l : loc) (t x : node) :
  l <> [] -> lookup_loc l t = Some x ->
  kind_at (List.removelast l) t = Some KDir.
Proof.
  intros Hne H. rewrite (split_last l Hne), lookup_app in H.
  unfold kind_at.
  destruct (lookup_loc (List.removelast l) t) as [[? c|b es]|];
    [discriminate|reflexivity|discriminate].
Qed.

Lemma lookup_removelast (l : loc) (t x : node) :
  lookup_loc l t = Some x -> lookup_loc (List.removelast l) t <> None.
Proof.
  intros H. destruct l as [|a l]; [cbn; discriminate|].
  assert (Hne : a :: l <> []) by discriminate.
  pose proof (lookup_parent_dir _ _ _ Hne H) as K.
  unfold kind_at in K. destruct (lookup_loc (List.removelast (a :: l)) t);
    [discriminate|discriminate].
Qed.

(** Where a walk ends on a name that is not there, the directory to hold
    that name is. *)
Lemma walk_target_parent (t : node) (cs : list string) :
  forall cur l,
    walk t cur cs = Ret l -> cs <> [] -> lookup_loc l t = None ->
    l <> [] /\ kind_at (List.removelast l) t = Some KDir.
Proof.
  induction cs as [|c cs IH]; intros cur l H Hne Hnone; [congruence|].
  cbn [walk] in H.
  destruct (lookup_loc cur t) as [[? x|b es]|] eqn:E; try discriminate.
  destruct cs as [|c2 cs].
  - cbn [walk] in H. injection H as <-.
    destruct (String.eqb c "..").
    + exfalso. exact (lookup_removelast _ _ _ E Hnone).
    + split; [intros A; apply app_eq_nil in A as [_ A]; discriminate|].
      rewrite removelast_last. unfold kind_at. rewrite E. reflexivity.
  - eapply IH; [exact H|discriminate|exact Hnone].
Qed.

End Links.

(** ** Making directories and moving files *)

Section Moves.

Context {OS : Platform}.

Lemma extends_refl (t : node) : extends t t.
Proof. intros l k H. exact H. Qed.

Lemma extends_trans (t1 t2 t3 : node) :
  extends t1 t2 -> extends t2 t3 -> extends t1 t3.
Proof. intros H1 H2 l k H. apply H2, H1, H. Qed.

Lemma kind_at_below_none (l l2 : loc) (t : node) :
  lookup_loc l t = None -> kind_at (l ++ l2) t = None.
Proof.
  intros H. unfold kind_at. rewrite (lookup_below_none l l2 t H). reflexivity.
Qed.

Lemma locate_walk (p : Path) (t : node) (l : loc) :
  locate p t = Ret l -> walk t (start p) (parts p) = Ret l.
Proof.
  unfold locate.
  destruct (lookup_loc (start p) t) as [[? c|b es]|]; [discriminate| |discriminate].
  intros H. exact H.
Qed.

Lemma locate_start (p : Path) (t : node) (l : loc) :
  locate p t = Ret l -> kind_at (start p) t = Some KDir.
Proof.
  unfold locate, kind_at.
  destruct (lookup_loc (start p) t) as [[? c|b es]|]; [discriminate| |discriminate].
  reflexivity.
Qed.

Lemma locate_nil_lookup (p : Path) (t : node) (l : loc) :
  locate p t = Ret l -> lookup_loc l t = None -> parts p <> [].
Proof.
  intros H Hn E. pose proof (locate_start p t l H) as K.
  apply locate_walk in H. rewrite E in H. cbn in H.
  injection H as <-. unfold kind_at in K. rewrite Hn in K. discriminate.
Qed.

(** Without the two dots, a path leads to the position its components
    spell out. *)
Lemma locate_plain (p : Path) (t : node) (l : loc) :
  plain p = true -> locate p t = Ret l -> l = start p ++ parts p.
Proof.
  intros Hp H. apply locate_walk in H. exact (walk_plain t _ Hp _ _ H).
Qed.

(** A directory named without the two dots is found again when it is
    replaced by a directory. *)
Lemma locate_alter_at_plain (p : Path) (t : node) (l : loc) (b b' : bool)
  (es es' : list (string * node)) :
  plain p = true ->
  locate p t = Ret l ->
  lookup_loc l t = Some (Dir b es) ->
  locate p (alter_at (fun _ => Dir b' es') l t) = Ret l.
Proof.
  intros Hp Hl Hn. pose proof (locate_plain p t l Hp Hl) as E.
  pose proof (locate_start p t l Hl) as K.
  apply locate_walk in Hl.
  pose proof (walk_plain_alter_at (fun _ => Dir b' es') t (parts p) Hp
                (start p) l E Hl) as W.
  unfold locate.
  assert (D : kind_at (start p) (alter_at (fun _ => Dir b' es') l t) = Some KDir).
  { destruct (parts p) as [|c cs] eqn:Ep.
    - rewrite app_nil_r in E. subst l.
      unfold kind_at. rewrite lookup_alter_at_same, Hn. reflexivity.
    - subst l. rewrite kind_at_alter_at_off; [exact K|].
      apply starts_with_strictly_longer. }
  apply kind_at_dir in D as (b0 & es0 & ->). exact W.
Qed.

(** [os.mkdir] adds a directory and touches nothing else. *)
Lemma os_mkdir_extends (p : Path) (t t' : node) :
  os_mkdir p t = Ret t' -> extends t t'.
Proof.
  unfold os_mkdir.
  destruct (locate p t) as [l0|e] eqn:Hl; [|discriminate].
  destruct (lookup_loc l0 t) as [x|] eqn:Hn; [discriminate|].
  intros [= <-] l k H.
  destruct (walk_target_parent t (parts p) _ l0 (locate_walk p t l0 Hl)
              (locate_nil_lookup p t l0 Hl Hn) Hn) as [Hne Hdir].
  rewrite kind_at_link_at; [|exact Hne|exact Hdir|reflexivity].
  destruct (starts_with l0 l) eqn:Hs; [|exact H].
  destruct (starts_with_split _ _ Hs) as [l2 ->].
  rewrite (kind_at_below_none l0 l2 t Hn) in H. discriminate.
Qed.

Lemma Path_mkdir_rev_extends (anch : bool) (rparts : list string) :
  forall w, extends (tree w) (tree (after (Path_mkdir_rev anch rparts) w)).
Proof.
  induction rparts as [|c rparent IH]; intros w; unfold after;
    cbn [Path_mkdir_rev].
  - destruct (os_mkdir _ (tree w)) as [t'|e] eqn:E.
    + apply (os_mkdir_extends _ _ _ E).
    + destruct e; try (destruct (is_dir _ (tree w))); apply extends_refl.
  - destruct (os_mkdir _ (tree w)) as [t'|e] eqn:E.
    + apply (os_mkdir_extends _ _ _ E).
    + destruct e; try (destruct (is_dir _ (tree w)); apply extends_refl).
      specialize (IH w). unfold after in IH.
      destruct (Path_mkdir_rev anch rparent w) as [[[]|e] w1]; [|exact IH].
      cbn [snd] in IH.
      destruct (os_mkdir _ (tree w1)) as [t'|e] eqn:E1.
      * eapply extends_trans; [exact IH|apply (os_mkdir_extends _ _ _ E1)].
      * destruct e; try (destruct (is_dir _ (tree w1))); exact IH.
Qed.

Lemma locate_mono (p : Path) (t t' : node) (l : loc) :
  (forall l, kind_at l t = Some KDir -> kind_at l t' = Some KDir) ->
  locate p t = Ret l -> locate p t' = Ret l.
Proof.
  intros H Hl. pose proof (locate_start p t l Hl) as K.
  apply H, kind_at_dir in K as (b & es & K).
  apply locate_walk in Hl. unfold locate. rewrite K.
  exact (walk_mono t t' H _ _ _ Hl).
Qed.

Lemma stat_file_iff (p : Path) (t : node) (i : nat)
  (c : option (gmap string (list string))) :
  stat p t = Ret (File i c) <->
  exists l, locate p t = Ret l /\ kind_at l t = Some (KFile i c).
Proof.
  unfold stat, kind_at. split.
  - destruct (locate p t) as [l|e]; [|discriminate].
    destruct (lookup_loc l t) as [n|] eqn:E; [|discriminate].
    intros [= ->]. exists l. split; [reflexivity|]. rewrite E. reflexivity.
  - intros (l & -> & H).
    destruct (lookup_loc l t) as [[? c'|b es]|]; cbn in H; congruence.
Qed.

Lemma is_dir_iff (p : Path) (t : node) :
  is_dir p t = true <->
  exists l, locate p t = Ret l /\ kind_at l t = Some KDir.
Proof.
  unfold is_dir, stat, kind_at. split.
  - destruct (locate p t) as [l|e]; [|discriminate].
    destruct (lookup_loc l t) as [[? c|b es]|] eqn:E; try discriminate.
    intros _. exists l. split; [reflexivity|]. rewrite E. reflexivity.
  - intros (l & -> & H).
    destruct (lookup_loc l t) as [[? c'|b es]|]; cbn in H; congruence.
Qed.

Lemma stat_file_extends (p : Path) (t t' : node) (i : nat)
  (c : option (gmap string (list string))) :
  extends t t' -> stat p t = Ret (File i c) -> stat p t' = Ret (File i c).
Proof.
  intros H. rewrite !stat_file_iff. intros (l & Hl & K).
  exists l. split; [|apply H, K].
  eapply locate_mono; [|exact Hl]. intros l'. apply H.
Qed.

Lemma same_dirs_refl (t : node) : same_dirs t t.
Proof. intros l. reflexivity. Qed.

Lemma is_dir_same_dirs (p : Path) (t t' : node) :
  same_dirs t t' -> is_dir p t = is_dir p t'.
Proof.
  intros H. apply eq_true_iff_eq. rewrite !is_dir_iff.
  split; intros (l & Hl & K); exists l; split.
  - eapply locate_mono; [|exact Hl]. intros l'. apply H.
  - apply H, K.
  - eapply locate_mono; [|exact Hl]. intros l'. apply H.
  - apply H, K.
Qed.

Lemma kind_at_below_file (l l2 : loc) (t : node) (i : nat)
  (c : option (gmap string (list string))) :
  kind_at l t = Some (KFile i c) -> kind_at (l ++ l2) t <> Some KDir.
Proof.
  unfold kind_at. destruct (lookup_loc l t) as [[? c'|b es]|] eqn:E;
    try discriminate.
  intros _. destruct l2 as [|m l3].
  - rewrite app_nil_r, E. discriminate.
  - rewrite (lookup_below_file l t _ c' m l3 E). discriminate.
Qed.

Lemma kind_at_below_not_dir (l l2 : loc) (t : node) :
  kind_at l t <> Some KDir -> kind_at (l ++ l2) t <> Some KDir.
Proof.
  intros H. destruct (kind_at l t) as [[i c|]|] eqn:K.
  - eapply kind_at_below_file, K.
  - congruence.
  - unfold kind_at in K. destruct (lookup_loc l t) eqn:E; [discriminate|].
    rewrite (kind_at_below_none l l2 t E). discriminate.
Qed.

(** A regular file renamed onto a name that is free or taken by a regular
    file: the file stands at the new position and no longer at the old
    one, and the directories are the same as before. *)
Lemma file_not_top (ls ld : loc) (t : node) (i : nat)
  (c : option (gmap string (list string))) :
  kind_at ls t = Some (KFile i c) ->
  kind_at (List.removelast ld) t = Some KDir ->
  ls <> [].
Proof.
  intros Hs Hparent ->. unfold kind_at in Hs, Hparent. cbn in Hs.
  destruct t as [? c'|b es]; [|discriminate].
  destruct (List.removelast ld); [discriminate|discriminate].
Qed.

Lemma rename_file_kinds (ls ld : loc) (t : node) (i : nat)
  (c : option (gmap string (list string))) :
  kind_at ls t = Some (KFile i c) ->
  ls <> ld -> ld <> [] ->
  kind_at (List.removelast ld) t = Some KDir ->
  kind_at ld t <> Some KDir ->
  let t' := link_at ld (File i c) (unlink_at ls t) in
  kind_at ld t' = Some (KFile i c)
  /\ kind_at ls t' = None
  /\ same_dirs t t'
  /\ (forall l, starts_with ls l = false -> starts_with ld l = false ->
                kind_at l t' = kind_at l t).
Proof.
  intros Hs Hneq Hld Hparent Hnd t'.
  pose proof (file_not_top ls ld t i c Hs Hparent) as Hls.
  assert (Hparent' : kind_at (List.removelast ld) (unlink_at ls t) = Some KDir).
  { rewrite kind_at_unlink_at by exact Hls.
    destruct (starts_with ls (List.removelast ld)) eqn:S; [|exact Hparent].
    destruct (starts_with_split _ _ S) as [l2 E]. rewrite E in Hparent.
    exfalso. exact (kind_at_below_file ls l2 t i c Hs Hparent). }
  assert (K : forall l,
    kind_at l t'
    = if starts_with ld l
      then (if bool_decide (l = ld) then Some (KFile i c) else None)
      else if starts_with ls l then None else kind_at l t).
  { intros l. unfold t'.
    rewrite kind_at_link_at; [|exact Hld|exact Hparent'|reflexivity].
    rewrite kind_at_unlink_at by exact Hls. reflexivity. }
  split; [|split; [|split]].
  - rewrite K, starts_with_refl, bool_decide_eq_true_2 by reflexivity.
    reflexivity.
  - rewrite K, starts_with_refl.
    destruct (starts_with ld ls); [|reflexivity].
    rewrite bool_decide_eq_false_2 by exact Hneq. reflexivity.
  - intros l. rewrite K.
    destruct (starts_with ld l) eqn:Sd.
    + destruct (starts_with_split _ _ Sd) as [l2 ->].
      pose proof (kind_at_below_not_dir ld l2 t Hnd) as N.
      destruct (bool_decide (ld ++ l2 = ld)); split; congruence.
    + destruct (starts_with ls l) eqn:Ss; [|reflexivity].
      destruct (starts_with_split _ _ Ss) as [l2 ->].
      pose proof (kind_at_below_file ls l2 t i c Hs) as N.
      split; congruence.
  - intros l S1 S2. rewrite K, S2, S1. reflexivity.
Qed.

(** *** Writing an inode *)

Lemma get_child_write_inode (m : string) (j : nat)
  (c : option (gmap string (list string))) (es : list (string * node)) :
  get_child m (List.map (fun '(k, x) => (k, write_inode j c x)) es)
  = option_map (write_inode j c) (get_child m es).
Proof.
  induction es as [|[k x] es IH]; [reflexivity|].
  cbn [List.map get_child]. destruct (String.eqb m k); [reflexivity|exact IH].
Qed.

Lemma lookup_write_inode (j : nat) (c : option (gmap string (list string)))
  (l : loc) :
  forall t,
    lookup_loc l (write_inode j c t) = option_map (write_inode j c) (lookup_loc l t).
Proof.
  induction l as [|m l IH]; intros t; [reflexivity|].
  destruct t as [i c0|b es].
  - cbn [write_inode]. destruct (i =? j)%nat; reflexivity.
  - cbn [write_inode lookup_loc]. rewrite get_child_write_inode.
    destruct (get_child m es) as [x|]; [apply IH|reflexivity].
Qed.

(** Every name of the inode shows the new content; everything else is as
    before. *)
Lemma kind_at_write_inode (j : nat) (c : option (gmap string (list string)))
  (l : loc) (t : node) :
  kind_at l (write_inode j c t)
  = match kind_at l t with
    | Some (KFile i c0) => Some (KFile i (if (i =? j)%nat then c else c0))
    | k => k
    end.
Proof.
  unfold kind_at. rewrite lookup_write_inode.
  destruct (lookup_loc l t) as [[i c0|b es]|]; cbn [option_map write_inode kind_of];
    [|reflexivity..].
  destruct (i =? j)%nat; reflexivity.
Qed.

Lemma same_dirs_write_inode (j : nat) (c : option (gmap string (list string)))
  (t : node) : same_dirs t (write_inode j c t).
Proof.
  intros l. rewrite kind_at_write_inode.
  destruct (kind_at l t) as [[i c0|]|]; split; congruence.
Qed.

Lemma same_dirs_trans (t1 t2 t3 : node) :
  same_dirs t1 t2 -> same_dirs t2 t3 -> same_dirs t1 t3.
Proof. intros H1 H2 l. rewrite (H1 l). apply H2. Qed.

(** A regular file copied onto a free name and then unlinked: the copy
    stands at the new position, and nothing at the old one. *)
Lemma copy_new_kinds (ls ld : loc) (t : node) (i f : nat)
  (c : option (gmap string (list string))) :
  kind_at ls t = Some (KFile i c) ->
  ld <> [] ->
  kind_at (List.removelast ld) t = Some KDir ->
  kind_at ld t = None ->
  let t' := unlink_at ls (link_at ld (File f c) t) in
  kind_at ld t' = Some (KFile f c)
  /\ kind_at ls t' = None
  /\ same_dirs t t'
  /\ (forall l, starts_with ls l = false -> starts_with ld l = false ->
                kind_at l t' = kind_at l t).
Proof.
  intros Hs Hld Hparent Hnone t'.
  pose proof (file_not_top ls ld t i c Hs Hparent) as Hls.
  assert (K : forall l,
    kind_at l t'
    = if starts_with ls l then None
      else if starts_with ld l
           then (if bool_decide (l = ld) then Some (KFile f c) else None)
           else kind_at l t).
  { intros l. unfold t'. rewrite kind_at_unlink_at by exact Hls.
    rewrite kind_at_link_at; [|exact Hld|exact Hparent|reflexivity].
    reflexivity. }
  assert (Hoff : starts_with ls ld = false).
  { destruct (starts_with ls ld) eqn:S; [|reflexivity].
    destruct (starts_with_split _ _ S) as [l2 E].
    destruct l2 as [|m l2].
    - rewrite app_nil_r in E. subst ld. congruence.
    - exfalso. apply (kind_at_below_file ls (List.removelast (m :: l2)) t i c Hs).
      rewrite E in Hparent. rewrite removelast_app in Hparent by discriminate.
      exact Hparent. }
  split; [|split; [|split]].
  - rewrite K, Hoff, starts_with_refl, bool_decide_eq_true_2 by reflexivity.
    reflexivity.
  - rewrite K, starts_with_refl. reflexivity.
  - intros l. rewrite K.
    destruct (starts_with ls l) eqn:Ss.
    + destruct (starts_with_split _ _ Ss) as [l2 ->].
      pose proof (kind_at_below_file ls l2 t i c Hs) as N. split; congruence.
    + destruct (starts_with ld l) eqn:Sd; [|reflexivity].
      destruct (starts_with_split _ _ Sd) as [l2 ->].
      assert (N : kind_at (ld ++ l2) t = None).
      { apply kind_at_below_none. unfold kind_at in Hnone.
        destruct (lookup_loc ld t); [discriminate|reflexivity]. }
      rewrite N. destruct (bool_decide (ld ++ l2 = ld)); split; congruence.
  - intros l S1 S2. rewrite K, S1, S2. reflexivity.
Qed.

(** A regular file copied over another file and then unlinked: the file
    written over shows the content under each of its names, and nothing
    stands at the old position. *)
Lemma copy_over_kinds (ls ld : loc) (t : node) (i j : nat)
  (c c' : option (gmap string (list string))) :
  kind_at ls t = Some (KFile i c) ->
  kind_at ld t = Some (KFile j c') ->
  i <> j ->
  let t' := unlink_at ls (write_inode j c t) in
  kind_at ld t' = Some (KFile j c)
  /\ kind_at ls t' = None
  /\ same_dirs t t'
  /\ (forall l, starts_with ls l = false ->
                kind_at l t'
                = match kind_at l t with
                  | Some (KFile k c0) => Some (KFile k (if (k =? j)%nat then c else c0))
                  | k => k
                  end).
Proof.
  intros Hs Hd Hij t'.
  assert (Hls : ls <> []).
  { intros ->. unfold kind_at in Hs, Hd. cbn in Hs.
    destruct t as [n c0|b es]; [|discriminate].
    destruct ld; cbn in Hd; [|discriminate].
    injection Hs as -> _. injection Hd as -> _. congruence. }
  assert (K : forall l,
    kind_at l t'
    = if starts_with ls l then None
      else match kind_at l t with
           | Some (KFile k c0) => Some (KFile k (if (k =? j)%nat then c else c0))
           | k => k
           end).
  { intros l. unfold t'. rewrite kind_at_unlink_at by exact Hls.
    rewrite kind_at_write_inode. reflexivity. }
  assert (Hoff : starts_with ls ld = false).
  { destruct (starts_with ls ld) eqn:S; [|reflexivity].
    destruct (starts_with_split _ _ S) as [l2 E].
    destruct l2 as [|m l2].
    - rewrite app_nil_r in E. subst ld. congruence.
    - subst ld. unfold kind_at in Hs, Hd.
      destruct (lookup_loc ls t) as [[? x|b es]|] eqn:E; try discriminate.
      rewrite (lookup_below_file ls t _ x m l2 E) in Hd. discriminate. }
  split; [|split; [|split]].
  - rewrite K, Hoff, Hd, Nat.eqb_refl. reflexivity.
  - rewrite K, starts_with_refl. reflexivity.
  - intros l. rewrite K.
    destruct (starts_with ls l) eqn:Ss.
    + destruct (starts_with_split _ _ Ss) as [l2 ->].
      pose proof (kind_at_below_file ls l2 t i c Hs) as N. split; congruence.
    + destruct (kind_at l t) as [[k c0|]|]; split; congruence.
  - intros l S1. rewrite K, S1. reflexivity.
Qed.

End Moves.

Section MoveFile.

Context {OS : Platform}.

Lemma kind_at_file_lookup (l : loc) (t : node) (i : nat)
  (c : option (gmap string (list string))) :
  kind_at l t = Some (KFile i c) <-> lookup_loc l t = Some (File i c).
Proof.
  unfold kind_at. destruct (lookup_loc l t) as [[? c'|b es]|]; cbn; split;
    congruence.
Qed.

Lemma kind_at_none_lookup (l : loc) (t : node) :
  kind_at l t = None <-> lookup_loc l t = None.
Proof. unfold kind_at. destruct (lookup_loc l t); split; congruence. Qed.

(** [os.rename] of a regular file. *)
Lemma os_rename_file (src dst : Path) (t t' : node) (ls : loc) (i : nat)
  (c : option (gmap string (list string))) :
  locate src t = Ret ls ->
  kind_at ls t = Some (KFile i c) ->
  os_rename src dst t = Ret t' ->
  exists ld,
    locate dst t = Ret ld /\ same_dirs t t' /\ moved t t' ls ld i c.
Proof.
  intros Hls Hk. pose proof Hk as Hlook. apply kind_at_file_lookup in Hlook.
  unfold os_rename. rewrite Hls.
  destruct (locate dst t) as [ld|e] eqn:Hld; [|discriminate].
  destruct (same_device ls ld); [|discriminate]. cbn [negb]. rewrite Hlook.
  case_bool_decide as Heq.
  - intros [= <-]. exists ld. split; [reflexivity|].
    split; [apply same_dirs_refl|]. left. split; [reflexivity|left; exact Heq].
  - intros Hren. exists ld. split; [reflexivity|].
    assert (Hfacts :
      (t' = t /\ exists c', kind_at ld t = Some (KFile i c'))
      \/ (ld <> []
          /\ kind_at (List.removelast ld) t = Some KDir
          /\ kind_at ld t <> Some KDir
          /\ (forall c', kind_at ld t <> Some (KFile i c'))
          /\ t' = link_at ld (File i c) (unlink_at ls t))).
    { destruct (lookup_loc ld t) as [[j c'|b es]|] eqn:E.
      - destruct (i =? j)%nat eqn:Eij.
        + apply Nat.eqb_eq in Eij. subst j. injection Hren as <-.
          left. split; [reflexivity|]. exists c'. apply kind_at_file_lookup, E.
        + apply Nat.eqb_neq in Eij. injection Hren as <-. right.
          assert (Hne : ld <> []).
          { intros ->. cbn in E. injection E as ->.
            destruct ls as [|a ls]; [congruence|discriminate]. }
          split; [exact Hne|]. split.
          { eapply lookup_parent_dir; [exact Hne|exact E]. }
          unfold kind_at. rewrite E. cbn [kind_of].
          split; [discriminate|]. split; [|reflexivity].
          intros c0 [= A]. congruence.
      - discriminate.
      - injection Hren as <-. right.
        destruct (walk_target_parent t (parts dst) _ ld (locate_walk dst t ld Hld)
                    (locate_nil_lookup dst t ld Hld E) E) as [Hne Hdir].
        split; [exact Hne|]. split; [exact Hdir|].
        unfold kind_at. rewrite E. repeat split; discriminate. }
    destruct Hfacts as [[-> Hsame]|(Hne & Hdir & Hnd & Hother & ->)].
    + split; [apply same_dirs_refl|]. left. split; [reflexivity|right; exact Hsame].
    + destruct (rename_file_kinds ls ld t i c Hk Heq Hne Hdir Hnd)
        as (K1 & K2 & K3 & K4).
      split; [exact K3|]. right. split; [exact Heq|]. split; [exact Hother|].
      split; [exists i; exact K1|]. split; [exact K2|].
      intros l S1 S2 _. apply K4; assumption.
Qed.

Lemma syscall_inv (f : node -> outcome node) (w w' : world) :
  syscall f w = (Ret tt, w') ->
  f (tree w) = Ret (tree w') /\ manifest w' = manifest w /\ log w' = log w.
Proof.
  unfold syscall. destruct (f (tree w)) as [t'|e]; [|discriminate].
  intros [= <-]. repeat split.
Qed.

Lemma is_dir_false_not_dir (p : Path) (t : node) (l : loc) :
  is_dir p t = false -> locate p t = Ret l -> kind_at l t <> Some KDir.
Proof.
  intros D L K. assert (X : is_dir p t = true).
  { apply is_dir_iff. exists l. split; assumption. }
  congruence.
Qed.

(** [shutil.copy2] of a regular file onto a path that is not a directory. *)
Lemma copy2_file (src dst : Path) (t t1 : node) (ls : loc) (i : nat)
  (c : option (gmap string (list string))) :
  locate src t = Ret ls ->
  kind_at ls t = Some (KFile i c) ->
  is_dir dst t = false ->
  copy2 src dst t = Ret t1 ->
  exists ld,
    locate dst t = Ret ld
    /\ ((exists j c', kind_at ld t = Some (KFile j c') /\ i <> j
                      /\ t1 = write_inode j c t)
        \/ (kind_at ld t = None /\ ld <> []
            /\ kind_at (List.removelast ld) t = Some KDir
            /\ t1 = link_at ld (File (fresh_ino t) c) t)).
Proof.
  intros Hls Hk Hd. pose proof Hk as Hlook. apply kind_at_file_lookup in Hlook.
  unfold copy2. rewrite Hd. unfold samefile, stat. rewrite Hls, Hlook.
  destruct (locate dst t) as [ld|e] eqn:Hld; [|discriminate].
  pose proof (is_dir_false_not_dir dst t ld Hd Hld) as Hnd.
  unfold kind_at in Hnd.
  destruct (lookup_loc ld t) as [[j c'|b es]|] eqn:E.
  - destruct (i =? j)%nat eqn:Eij; [discriminate|].
    apply Nat.eqb_neq in Eij. intros [= <-]. exists ld. split; [reflexivity|].
    left. exists j, c'. split; [apply kind_at_file_lookup, E|].
    split; [exact Eij|reflexivity].
  - exfalso. apply Hnd. reflexivity.
  - intros [= <-]. exists ld. split; [reflexivity|]. right.
    destruct (walk_target_parent t (parts dst) _ ld (locate_walk dst t ld Hld)
                (locate_nil_lookup dst t ld Hld E) E) as [Hne Hdir].
    split; [apply kind_at_none_lookup, E|]. repeat split; assumption.
Qed.

(** The copy leaves the source where it is, so that it can be unlinked. *)
Lemma unlink_after_copy (src : Path) (t t1 : node) (ls : loc) (i : nat)
  (c : option (gmap string (list string))) :
  locate src t = Ret ls ->
  same_dirs t t1 ->
  kind_at ls t1 = Some (KFile i c) ->
  os_unlink src t1 = Ret (unlink_at ls t1).
Proof.
  intros Hls Hsame Hk. unfold os_unlink.
  assert (L : locate src t1 = Ret ls).
  { eapply locate_mono; [|exact Hls]. intros l. apply Hsame. }
  rewrite L. apply kind_at_file_lookup in Hk. rewrite Hk. reflexivity.
Qed.

Lemma same_dirs_link_file (ld : loc) (t : node) (f : nat)
  (c : option (gmap string (list string))) :
  ld <> [] -> kind_at (List.removelast ld) t = Some KDir -> kind_at ld t = None ->
  same_dirs t (link_at ld (File f c) t)
  /\ forall l, starts_with ld l = false ->
               kind_at l (link_at ld (File f c) t) = kind_at l t.
Proof.
  intros Hne Hdir Hnone.
  assert (K : forall l,
    kind_at l (link_at ld (File f c) t)
    = if starts_with ld l
      then (if bool_decide (l = ld) then Some (KFile f c) else None)
      else kind_at l t).
  { intros l. rewrite kind_at_link_at; [reflexivity|exact Hne|exact Hdir|reflexivity]. }
  split.
  - intros l. rewrite K. destruct (starts_with ld l) eqn:S; [|reflexivity].
    destruct (starts_with_split _ _ S) as [l2 ->].
    assert (N : kind_at (ld ++ l2) t = None).
    { apply kind_at_below_none, kind_at_none_lookup, Hnone. }
    rewrite N. destruct (bool_decide (ld ++ l2 = ld)); split; congruence.
  - intros l S. rewrite K, S. reflexivity.
Qed.

(** The end of [shutil.move] for a regular file and a destination that is
    not a directory. *)
Lemma rename_or_copy_file (src dst : Path) (w w' : world) (ls : loc) (i : nat)
  (c : option (gmap string (list string))) :
  locate src (tree w) = Ret ls ->
  kind_at ls (tree w) = Some (KFile i c) ->
  is_dir dst (tree w) = false ->
  rename_or_copy src dst w = (Ret tt, w') ->
  exists ld,
    locate dst (tree w) = Ret ld
    /\ same_dirs (tree w) (tree w')
    /\ moved (tree w) (tree w') ls ld i c.
Proof.
  intros Hls Hk Hd. unfold rename_or_copy.
  destruct (os_rename src dst (tree w)) as [t'|e] eqn:R.
  - intros [= <-]. apply (os_rename_file src dst _ _ ls i c Hls Hk R).
  - assert (Hsrc : is_dir src (tree w) = false).
    { destruct (is_dir src (tree w)) eqn:D; [|reflexivity].
      apply is_dir_iff in D as (l & L & K). congruence. }
    rewrite Hsrc. unfold bind.
    destruct (syscall (copy2 src dst) w) as [[[]|e1] w1] eqn:C; [|discriminate].
    apply syscall_inv in C as (C & _ & _).
    destruct (copy2_file src dst _ _ ls i c Hls Hk Hd C) as (ld & Hld & Cases).
    intros U. exists ld. split; [exact Hld|].
    destruct Cases as [(j & c' & Kd & Hij & E1)|(Kn & Hne & Hdir & E1)].
    + destruct (copy_over_kinds ls ld (tree w) i j c c' Hk Kd Hij)
        as (K1 & K2 & K3 & K4).
      assert (Hk1 : kind_at ls (tree w1) = Some (KFile i c)).
      { rewrite E1, kind_at_write_inode, Hk.
        apply Nat.eqb_neq in Hij. rewrite Hij. reflexivity. }
      assert (S1 : same_dirs (tree w) (tree w1)).
      { rewrite E1. apply same_dirs_write_inode. }
      pose proof (unlink_after_copy src _ _ ls i c Hls S1 Hk1) as Un.
      unfold syscall in U. rewrite Un in U. injection U as <-.
      cbn [tree set_tree]. rewrite E1.
      split; [exact K3|]. right.
      assert (Hneq : ls <> ld) by (intros ->; congruence).
      split; [exact Hneq|]. split; [intros c0; congruence|].
      split; [exists j; exact K1|]. split; [exact K2|].
      intros l Sl _ Hnames. rewrite (K4 l Sl).
      destruct (kind_at l (tree w)) as [[k c0|]|] eqn:Kl; [|reflexivity..].
      destruct (k =? j)%nat eqn:Ekj; [|reflexivity].
      apply Nat.eqb_eq in Ekj. subst k. exfalso.
      exact (Hnames j c' c0 Kd eq_refl).
    + destruct (copy_new_kinds ls ld (tree w) i (fresh_ino (tree w)) c
                  Hk Hne Hdir Kn) as (K1 & K2 & K3 & K4).
      destruct (same_dirs_link_file ld (tree w) (fresh_ino (tree w)) c
                  Hne Hdir Kn) as [S1 F1].
      assert (Hoff : starts_with ld ls = false).
      { destruct (starts_with ld ls) eqn:S; [|reflexivity].
        destruct (starts_with_split _ _ S) as [l2 E].
        rewrite E, (kind_at_below_none ld l2 (tree w)) in Hk; [discriminate|].
        apply kind_at_none_lookup, Kn. }
      assert (Hk1 : kind_at ls (tree w1) = Some (KFile i c)).
      { rewrite E1, (F1 ls Hoff). exact Hk. }
      rewrite <- E1 in S1.
      pose proof (unlink_after_copy src _ _ ls i c Hls S1 Hk1) as Un.
      unfold syscall in U. rewrite Un in U. injection U as <-.
      cbn [tree set_tree]. rewrite E1.
      split; [exact K3|]. right.
      assert (Hneq : ls <> ld) by (intros ->; congruence).
      split; [exact Hneq|]. split; [intros c0; congruence|].
      split; [exists (fresh_ino (tree w)); exact K1|]. split; [exact K2|].
      intros l Sl Sd _. apply K4; assumption.
Qed.

(** A move of a regular file that raises has changed nothing. *)
Lemma rename_or_copy_raises (src dst : Path) (w w' : world) (ls : loc) (i : nat)
  (c : option (gmap string (list string))) (e : exn) :
  locate src (tree w) = Ret ls ->
  kind_at ls (tree w) = Some (KFile i c) ->
  is_dir dst (tree w) = false ->
  rename_or_copy src dst w = (Raise e, w') -> w' = w.
Proof.
  intros Hls Hk Hd. unfold rename_or_copy.
  destruct (os_rename src dst (tree w)) as [t'|e0] eqn:R; [discriminate|].
  destruct (is_dir src (tree w)); [intros [= _ <-]; reflexivity|].
  unfold bind.
  destruct (syscall (copy2 src dst) w) as [[[]|e1] w1] eqn:C.
  - apply syscall_inv in C as (C & _ & _).
    destruct (copy2_file src dst _ _ ls i c Hls Hk Hd C) as (ld & Hld & Cases).
    assert (X : same_dirs (tree w) (tree w1)
                /\ kind_at ls (tree w1) = Some (KFile i c)).
    { destruct Cases as [(j & c' & Kd & Hij & E1)|(Kn & Hne & Hdir & E1)].
      - rewrite E1. split; [apply same_dirs_write_inode|].
        rewrite kind_at_write_inode, Hk.
        apply Nat.eqb_neq in Hij. rewrite Hij. reflexivity.
      - destruct (same_dirs_link_file ld (tree w) (fresh_ino (tree w)) c
                    Hne Hdir Kn) as [S1 F1].
        rewrite E1. split; [exact S1|]. rewrite F1; [exact Hk|].
        destruct (starts_with ld ls) eqn:S; [|reflexivity].
        destruct (starts_with_split _ _ S) as [l2 E].
        rewrite E, (kind_at_below_none ld l2 (tree w)) in Hk; [discriminate|].
        apply kind_at_none_lookup, Kn. }
    destruct X as [S1 Hk1].
    pose proof (unlink_after_copy src _ _ ls i c Hls S1 Hk1) as Un.
    unfold syscall. rewrite Un. discriminate.
  - unfold syscall in C. destruct (copy2 src dst (tree w)); [discriminate|].
    injection C as _ <-. intros [= _ <-]. reflexivity.
Qed.

(** [shutil.move] of a regular file: the directories stay, and the file is
    moved as [moved] says onto the destination, or into it under its own
    name when the destination is a directory. *)
Lemma shutil_move_file_onto (src dst : Path) (w w' : world) (ls : loc) (i : nat)
  (c : option (gmap string (list string))) :
  locate src (tree w) = Ret ls ->
  kind_at ls (tree w) = Some (KFile i c) ->
  shutil_move src dst w = (Ret tt, w') ->
  same_dirs (tree w) (tree w')
  /\ exists ld,
       locate (if is_dir dst (tree w) then (dst / name src)%path else dst) (tree w)
       = Ret ld
       /\ kind_at ld (tree w) <> Some KDir
       /\ (is_dir dst (tree w) = true -> kind_at ld (tree w) = None)
       /\ moved (tree w) (tree w') ls ld i c.
Proof.
  intros Hls Hk. unfold shutil_move.
  destruct (is_dir dst (tree w)) eqn:Hd.
  - assert (Sf : samefile src dst (tree w) = false).
    { unfold samefile. rewrite Hls.
      apply is_dir_iff in Hd as (l & -> & K).
      apply kind_at_file_lookup in Hk. rewrite Hk.
      apply kind_at_dir in K as (b & es & ->). reflexivity. }
    rewrite Sf.
    destruct (path_exists _ (tree w)) eqn:P; [discriminate|].
    intros H.
    assert (Hd' : is_dir (dst / name src)%path (tree w) = false).
    { unfold is_dir. unfold path_exists in P.
      destruct (stat _ (tree w)); [discriminate|reflexivity]. }
    destruct (rename_or_copy_file _ _ _ _ ls i c Hls Hk Hd' H)
      as (ld & L & S & M).
    split; [exact S|]. exists ld. split; [exact L|].
    split; [apply (is_dir_false_not_dir _ _ _ Hd' L)|]. split; [|exact M].
    intros _. unfold path_exists, stat in P. rewrite L in P.
    apply kind_at_none_lookup.
    destruct (lookup_loc ld (tree w)); [discriminate|reflexivity].
  - intros H.
    destruct (rename_or_copy_file _ _ _ _ ls i c Hls Hk Hd H) as (ld & L & S & M).
    split; [exact S|]. exists ld. split; [exact L|].
    split; [apply (is_dir_false_not_dir _ _ _ Hd L)|]. split; [discriminate|exact M].
Qed.

Lemma shutil_move_file (src dst : Path) (w w' : world) (ls : loc) (i : nat)
  (c : option (gmap string (list string))) :
  locate src (tree w) = Ret ls ->
  kind_at ls (tree w) = Some (KFile i c) ->
  shutil_move src dst w = (Ret tt, w') ->
  same_dirs (tree w) (tree w')
  /\ (is_dir dst (tree w) = false ->
      exists ld,
        locate dst (tree w) = Ret ld /\ moved (tree w) (tree w') ls ld i c).
Proof.
  intros Hls Hk H.
  destruct (shutil_move_file_onto src dst w w' ls i c Hls Hk H)
    as (S & ld & L & _ & _ & M).
  split; [exact S|]. intros Hd. rewrite Hd in L. exists ld. split; assumption.
Qed.

Lemma shutil_move_raises (src dst : Path) (w w' : world) (ls : loc) (i : nat)
  (c : option (gmap string (list string))) (e : exn) :
  locate src (tree w) = Ret ls ->
  kind_at ls (tree w) = Some (KFile i c) ->
  shutil_move src dst w = (Raise e, w') -> w' = w.
Proof.
  intros Hls Hk.
  assert (S : forall f, syscall f w = (Raise e, w') -> w' = w).
  { intros f. unfold syscall. destruct (f (tree w)); [discriminate|].
    intros [= _ <-]. reflexivity. }
  unfold shutil_move. destruct (is_dir dst (tree w)) eqn:Hd.
  - destruct (samefile src dst (tree w)); [apply S|].
    destruct (path_exists _ (tree w)) eqn:P; [intros [= _ <-]; reflexivity|].
    apply (rename_or_copy_raises _ _ _ _ ls i c e Hls Hk).
    unfold is_dir. unfold path_exists in P.
    destruct (stat _ (tree w)); [discriminate|reflexivity].
  - apply (rename_or_copy_raises _ _ _ _ ls i c e Hls Hk Hd).
Qed.

Lemma move_music_file_inv (file_path : Path) (info : Info) (base_folder : Path)
  (w w' : world) (p : Path) :
  move_music_file file_path info base_folder w = (Ret (Some p), w') ->
  exists new_folder w1,
    new_folder_of info base_folder = Ret new_folder
    /\ Path_mkdir new_folder w = (Ret tt, w1)
    /\ p = (new_folder / name file_path)%path
    /\ shutil_move file_path p w1 = (Ret tt, w').
Proof.
  unfold move_music_file, print_errors.
  destruct (move_music_file_body file_path info base_folder w) as [[q|e] w2] eqn:E;
    [|discriminate].
  intros [= -> ->]. revert E.
  unfold move_music_file_body, bind, lift, ret.
  destruct (new_folder_of info base_folder) as [nf|e]; [|discriminate].
  destruct (Path_mkdir nf w) as [[[]|e] w1] eqn:E1; [|discriminate].
  destruct (shutil_move file_path (nf / name file_path)%path w1)
    as [[[]|e] w3] eqn:E2; [|discriminate].
  intros [= <- <-]. exists nf, w1.
  split; [reflexivity|]. split; [exact E1|]. split; [reflexivity|exact E2].
Qed.

End MoveFile.




(** A destination taken by a directory: the move puts the file inside that
    directory, and the path returned is the directory. *)
Example file_moved_into_a_directory :
  fst (move_music_file (parse "in/x.mp3") Examples.gold_info (parse "out")
         (Examples.fresh Examples.taken_by_a_directory))
  = Ret (Some (parse "out/A/Abba/Gold/x.mp3"))
  /\ is_dir (parse "out/A/Abba/Gold/x.mp3")
       (tree (after (move_music_file (parse "in/x.mp3") Examples.gold_info (parse "out"))
                (Examples.fresh Examples.taken_by_a_directory))) = true
  /\ is_file (parse "out/A/Abba/Gold/x.mp3/x.mp3")
       (tree (after (move_music_file (parse "in/x.mp3") Examples.gold_info (parse "out"))
                (Examples.fresh Examples.taken_by_a_directory))) = true.
Proof. repeat split; vm_compute; reflexivity. Qed.

(** A destination that is a second name of the file: the rename does
    nothing, the move returns the destination, and the file is still found
    under its original path. *)
Example hard_linked_destination_keeps_the_source :
  move_music_file (parse "in/x.mp3") Examples.gold_info (parse "out")
    (Examples.fresh Examples.linked)
  = (Ret (Some (parse "out/A/Abba/Gold/x.mp3")), Examples.fresh Examples.linked)
  /\ is_file (parse "in/x.mp3") Examples.linked = true.
Proof. split; vm_compute; reflexivity. Qed.

(** A destination on another device: the rename is refused, the file is
    copied and the original unlinked; the copy is a new file. *)
Example move_to_another_device :
  let w' := after (@move_music_file Examples.two_devices (parse "in/x.mp3")
                     Examples.x_info (parse "out"))
              (Examples.fresh Examples.library) in
  @os_rename Examples.two_devices (parse "in/x.mp3")
    (parse "out/x.mp3") Examples.library = Raise CrossDeviceLink
  /\ @stat Examples.two_devices (parse "out/A/abba/BestOf/x.mp3") (tree w')
     = Ret (File 5 Examples.x_tags)
  /\ @stat Examples.two_devices (parse "in/x.mp3") (tree w')
     = Raise FileNotFoundError
  /\ log w' = [].
Proof. cbv zeta. repeat split; vm_compute; reflexivity. Qed.

(** C7, as amended.  On a folder, named by a path without the two dots,
    below which every empty directory can be removed and every other
    directory keeps an entry that is not an empty directory, a first cleanup
    raises nothing and a second cleanup right after it changes nothing: no
    directory removed, no line logged, no error.  (A directory that held
    nothing but empty directories is left empty by the first cleanup and is
    removed by the second.) *)
Theorem second_cleanup_changes_nothing {OS : Platform} (folder_path : Path)
  (w : world) (n : node) :
  plain folder_path = true ->
  stat folder_path (tree w) = Ret n ->
  firm n = true ->
  fst (delete_empty_folders folder_path w) = Ret (Some tt)
  /\ delete_empty_folders folder_path (after (delete_empty_folders folder_path) w)
     = (Ret (Some tt), after (delete_empty_folders folder_path) w).
Proof.
  intros Hplain Hstat Hfirm. unfold stat in Hstat.
  destruct (locate folder_path (tree w)) as [l|e] eqn:Hl; [|discriminate].
  destruct (lookup_loc l (tree w)) as [n'|] eqn:Hn; [|discriminate].
  injection Hstat as ->.
  unfold after, delete_empty_folders, print_errors, delete_empty_folders_body.
  rewrite Hl, Hn.
  destruct n as [? c|b es].
  - cbn [fst snd]. rewrite Hl, Hn. split; reflexivity.
  - destruct (sweep_node_firm (Dir b es) Hfirm folder_path) as (n1 & lg & S1 & N1 & _).
    rewrite S1. cbn [fst snd tree manifest log]. split; [reflexivity|].
    destruct (sweep_node_dir folder_path b es) as [es1 D].
    rewrite S1 in D. cbn [fst] in D. subst n1.
    rewrite (locate_alter_at_plain folder_path (tree w) l b b es es1 Hplain Hl Hn).
    rewrite lookup_alter_at_same, Hn. cbn [option_map].
    rewrite (sweep_node_fixed (Dir b es1) N1 folder_path).
    rewrite alter_at_fixed
      by (rewrite lookup_alter_at_same, Hn; reflexivity).
    rewrite app_nil_r. reflexivity.
Qed.

Lemma second_cleanup_changes_nothing_library :
  plain (parse "in") = true
  /\ firm (Dir false [("x.mp3", Examples.untagged 1); ("e", Dir false [])]) = true
  /\ delete_empty_folders (parse "in")
       (after (delete_empty_folders (parse "in"))
          (Examples.fresh
             (Dir false [("in", Dir false [("x.mp3", Examples.untagged 1);
                                          ("e", Dir false [])])])))
     = (Ret (Some tt),
        after (delete_empty_folders (parse "in"))
          (Examples.fresh
             (Dir false [("in", Dir false [("x.mp3", Examples.untagged 1);
                                          ("e", Dir false [])])]))).
Proof.
  split; [reflexivity|]. split; [reflexivity|].
  apply (second_cleanup_changes_nothing (parse "in")
           (Examples.fresh
              (Dir false [("in", Dir false [("x.mp3", Examples.untagged 1);
                                           ("e", Dir false [])])]))
           (Dir false [("x.mp3", Examples.untagged 1); ("e", Dir false [])])).
  - reflexivity.
  - reflexivity.
  - reflexivity.
Defined.

(** C7 as worded fails on an empty folder inside a folder that holds nothing
    else: the first cleanup removes the inner one only, the second removes
    the outer one. *)
Lemma second_cleanup_removes_a_folder :
  is_dir (parse "in/a")
    (tree (after (delete_empty_folders (parse "in"))
             (Examples.fresh Examples.nested_empty))) = true
  /\ is_dir (parse "in/a")
       (tree (after (delete_empty_folders (parse "in"))
                (after (delete_empty_folders (parse "in"))
                   (Examples.fresh Examples.nested_empty)))) = false
  /\ log (after (delete_empty_folders (parse "in"))
            (after (delete_empty_folders (parse "in"))
               (Examples.fresh Examples.nested_empty)))
     = [LogDeleted (parse "in/a/b"); LogDeleted (parse "in/a")]
  /\ delete_empty_folders (parse "in")
       (after (delete_empty_folders (parse "in"))
          (Examples.fresh Examples.nested_empty))
     <> (Ret (Some tt),
         after (delete_empty_folders (parse "in"))
           (Examples.fresh Examples.nested_empty)).
Proof.
  repeat split; try (vm_compute; reflexivity).
  vm_compute. intros H; discriminate H.
Qed.

(** C8, as amended.  A directory the system refuses to remove ends the
    cleanup, wherever it lies below the folder: the exception is caught at
    the level of the whole cleanup only, logged once under the name of the
    cleanup, and nothing is raised to the caller.  What the pass leaves is
    what [stops] says: in the directory that holds the refused one, the
    empty directories listed before it are removed and logged, the refused
    one and every entry listed after it are left as they are, empty
    directories included; in each directory above, the empty directories
    are removed, the directories listed before the one the pass went down
    into are walked to their end, and those listed after it are not
    entered.  A pass ends with an error only in this way.  The folder is
    named by a path without the two dots. *)
Theorem refusal_ends_the_cleanup {OS : Platform} (folder_path : Path) (w : world)
  (n : node) :
  plain folder_path = true ->
  stat folder_path (tree w) = Ret n ->
  exists l,
    locate folder_path (tree w) = Ret l
    /\ (exists r, fst (delete_empty_folders folder_path w) = Ret r)
    /\ (forall n' lg,
          stops folder_path n n' lg ->
          delete_empty_folders folder_path w
          = (Ret None,
             mkWorld (alter_at (fun _ => n') l (tree w)) (manifest w)
               ((log w ++ lg) ++ [LogError "delete_empty_folders" PermissionError]))
          /\ Forall (fun ev => exists d, ev = LogDeleted d) lg)
    /\ (fst (delete_empty_folders folder_path w) = Ret None ->
        exists n' lg, stops folder_path n n' lg).
Proof.
  intros _ Hstat. unfold stat in Hstat.
  destruct (locate folder_path (tree w)) as [l|e] eqn:Hl; [|discriminate].
  destruct (lookup_loc l (tree w)) as [n0|] eqn:Hn; [|discriminate].
  injection Hstat as ->. exists l. split; [reflexivity|].
  split; [|split].
  - destruct (print_errors_returns "delete_empty_folders"
                (delete_empty_folders_body folder_path) w) as [r Hr].
    fold (delete_empty_folders folder_path) in Hr.
    exists r. rewrite Hr. reflexivity.
  - intros n' lg Hs.
    pose proof (stops_sweep_node folder_path n n' lg Hs) as S.
    split.
    + unfold delete_empty_folders, print_errors, delete_empty_folders_body.
      rewrite Hl, Hn. destruct n as [? c|b es]; [inversion Hs|].
      rewrite S. reflexivity.
    + pose proof (sweep_node_logs n folder_path) as L. rewrite S in L. exact L.
  - unfold delete_empty_folders, print_errors, delete_empty_folders_body.
    rewrite Hl, Hn. destruct n as [? c|b es]; [discriminate|].
    destruct (sweep_node folder_path (Dir b es)) as [[n' lg] [e|]] eqn:S;
      [|discriminate].
    intros _. exists n', lg. apply (sweep_node_stops _ _ _ _ _ S).
Qed.

Lemma refusal_ends_the_cleanup_example :
  delete_empty_folders (parse "in") (Examples.fresh Examples.refused_below)
  = (Ret None,
     mkWorld
       (Dir false
          [("in", Dir false
              [("o", Dir false [("f", Examples.untagged 1)]);
               ("p", Dir false [("q", Dir true []); ("r", Dir false [])]);
               ("s", Dir false [("t", Dir false [])])])])
       []
       [LogDeleted (parse "in/e"); LogDeleted (parse "in/o/n");
        LogError "delete_empty_folders" PermissionError]).
Proof.
  destruct (refusal_ends_the_cleanup (parse "in")
              (Examples.fresh Examples.refused_below)
              (Dir false
                 [("e", Dir false []);
                  ("o", Dir false [("n", Dir false []); ("f", Examples.untagged 1)]);
                  ("p", Dir false [("q", Dir true []); ("r", Dir false [])]);
                  ("s", Dir false [("t", Dir false [])])]))
    as (l & Hl & _ & Stops & _).
  - reflexivity.
  - reflexivity.
  - vm_compute in Hl. injection Hl as <-.
    destruct (Stops
                (Dir false
                   [("o", Dir false [("f", Examples.untagged 1)]);
                    ("p", Dir false [("q", Dir true []); ("r", Dir false [])]);
                    ("s", Dir false [("t", Dir false [])])])
                [LogDeleted (parse "in/e"); LogDeleted (parse "in/o/n")]) as [E _].
    + exact (stops_below (parse "in") false
               [("e", Dir false []);
                ("o", Dir false [("n", Dir false []); ("f", Examples.untagged 1)])]
               "p" (Dir false [("q", Dir true []); ("r", Dir false [])])
               [("s", Dir false [("t", Dir false [])])]
               [("o", Dir false [("f", Examples.untagged 1)])]
               [LogDeleted (parse "in/o/n")]
               (Dir false [("q", Dir true []); ("r", Dir false [])])
               []
               eq_refl eq_refl eq_refl
               (stops_here (child (parse "in") "p") false [] "q" (Dir true [])
                  [("r", Dir false [])] eq_refl eq_refl)).
    + rewrite E. reflexivity.
Defined.

(** C8 as worded fails on two empty folders the first of which is refused:
    the second, which could be removed, is never looked at and is still
    there after the cleanup. *)
Lemma sibling_left_after_a_refusal :
  after (delete_empty_folders (parse "in")) (Examples.fresh Examples.refused_then_free)
  = mkWorld Examples.refused_then_free []
      [LogError "delete_empty_folders" PermissionError]
  /\ is_dir (parse "in/b")
       (tree (after (delete_empty_folders (parse "in"))
                (Examples.fresh Examples.refused_then_free))) = true
  /\ rmdir_refusal (Dir false []) = None.
Proof. repeat split. Qed.

(** ** More on the sanitizer and on suffixes *)

Section MoreText.

Lemma append_nil_l (b : string) : (EmptyString +:+ b) = b.
Proof. reflexivity. Qed.

Lemma append_cons (c : ascii) (a b : string) :
  (String c a +:+ b) = String c (a +:+ b).
Proof. reflexivity. Qed.

Lemma sanitize_app (a b : string) :
  sanitize_folder_name (a ++ b)%string
  = (sanitize_folder_name a ++ sanitize_folder_name b)%string.
Proof.
  induction a as [|c a IH]; [reflexivity|].
  change (String c a +:+ b) with (String c (a +:+ b)).
  cbn [sanitize_folder_name].
  destruct (forbidden c); rewrite IH; reflexivity.
Qed.

Lemma sanitize_length (x : string) :
  String.length (sanitize_folder_name x) <= String.length x.
Proof.
  induction x as [|c x IH]; [reflexivity|].
  cbn [sanitize_folder_name String.length].
  destruct (forbidden c); cbn [String.length]; lia.
Qed.

Lemma rfind_dot_app (a b : string) :
  rfind_dot (a ++ b)%string
  = match rfind_dot b with
    | Some i => Some (String.length a + i)
    | None => rfind_dot a
    end.
Proof.
  induction a as [|c a IH].
  - rewrite append_nil_l. cbn. destruct (rfind_dot b); reflexivity.
  - rewrite append_cons.
    cbn [rfind_dot String.length]. rewrite IH.
    destruct (rfind_dot b) as [i|]; reflexivity.
Qed.

Lemma drop_chars_app (a b : string) : drop_chars (String.length a) (a ++ b)%string = b.
Proof.
  induction a as [|c a IH]; [rewrite append_nil_l; destruct b; reflexivity|].
  rewrite append_cons. exact IH.
Qed.

Lemma length_append (a b : string) :
  String.length (a ++ b)%string = String.length a + String.length b.
Proof.
  induction a as [|c a IH]; [reflexivity|].
  rewrite append_cons. cbn [String.length]. rewrite IH. reflexivity.
Qed.

Lemma take_drop_chars (i : nat) (s : string) :
  s = (take_chars i s ++ drop_chars i s)%string.
Proof.
  revert s. induction i as [|i IH]; intros s; [reflexivity|].
  destruct s as [|c s]; [reflexivity|].
  cbn [take_chars drop_chars].
  change (String c (take_chars i s) +:+ drop_chars i s)
    with (String c (take_chars i s +:+ drop_chars i s)).
  f_equal. apply IH.
Qed.

Lemma rfind_dot_bound (s : string) (i : nat) :
  rfind_dot s = Some i -> i < String.length s.
Proof.
  revert i. induction s as [|c s IH]; intros i; [discriminate|].
  cbn [rfind_dot String.length].
  destruct (rfind_dot s) as [j|].
  - intros [= <-]. specialize (IH j eq_refl). lia.
  - destruct (Ascii.eqb c "."); [intros [= <-]; lia|discriminate].
Qed.

Lemma take_chars_not_empty (i : nat) (s : string) :
  0 < i -> i < String.length s -> take_chars i s <> EmptyString.
Proof.
  destruct i as [|i]; [lia|]. destruct s as [|c s]; cbn; [lia|discriminate].
Qed.

Lemma extension_shape (ext : string) :
  In ext MUSIC_EXTENSIONS -> rfind_dot ext = Some 0 /\ 2 <= String.length ext.
Proof.
  cbn. intros [<-|[<-|[<-|[<-|[]]]]]; split; cbn; try reflexivity; lia.
Qed.

End MoreText.

(** X1.  The sanitizer works character by character: the sanitized form of a
    concatenation is the concatenation of the sanitized forms, and the
    output is never longer than the input. *)
Theorem sanitize_folder_name_pieces (a b : string) :
  sanitize_folder_name (a ++ b)%string
  = (sanitize_folder_name a ++ sanitize_folder_name b)%string
  /\ String.length (sanitize_folder_name a) <= String.length a.
Proof. split; [apply sanitize_app|apply sanitize_length]. Qed.

(** X2.  The names the sanitizer leaves as they are are exactly the names
    without any of the nine characters it removes. *)
Theorem sanitize_folder_name_fixed_points (x : string) :
  sanitize_folder_name x = x
  <-> all_chars (fun c => negb (forbidden c)) x = true.
Proof.
  split.
  - intros E. rewrite <- E. apply sanitize_clean.
  - apply sanitize_fixed.
Qed.

(** X3.  An entry passes the extension test of the scan exactly when its
    name is a non-empty stem followed by one of .mp3, .flac, .wav, .m4a: a
    name that is nothing but the extension does not pass. *)
Theorem candidate_names (p : Path) :
  in_extensions (suffix p) = true
  <-> exists stem ext,
        stem <> EmptyString /\ In ext MUSIC_EXTENSIONS
        /\ name p = (stem ++ ext)%string.
Proof.
  rewrite in_extensions_spec. unfold suffix. split.
  - destruct (rfind_dot (name p)) as [i|] eqn:R.
    + destruct ((0 <? i)%nat && (i <? String.length (name p) - 1)%nat) eqn:B.
      * intros H. apply andb_prop in B as [B1 B2].
        apply Nat.ltb_lt in B1. apply Nat.ltb_lt in B2.
        exists (take_chars i (name p)), (drop_chars i (name p)).
        split; [apply take_chars_not_empty; lia|].
        split; [exact H|apply take_drop_chars].
      * cbn. intros [H|[H|[H|[H|[]]]]]; discriminate H.
    + cbn. intros [H|[H|[H|[H|[]]]]]; discriminate H.
  - intros (stem & ext & Hstem & Hext & ->).
    destruct (extension_shape ext Hext) as [R L].
    rewrite rfind_dot_app, R, Nat.add_0_r, length_append.
    assert (0 < String.length stem) by (destruct stem; cbn; [congruence|lia]).
    replace ((0 <? String.length stem)%nat) with true
      by (symmetry; apply Nat.ltb_lt; lia).
    replace ((String.length stem <? String.length stem + String.length ext - 1)%nat)
      with true by (symmetry; apply Nat.ltb_lt; lia).
    cbn [andb]. rewrite drop_chars_app. exact Hext.
Qed.

(** ** More on the extraction and on the destination *)

Section MoreInfo.

Context {OS : Platform}.

Lemma tag_or_unknown_value (audio : gmap string (list string)) (key : string) :
  negb (bool_decide (audio !! key = Some [])) = true ->
  tag_or_unknown audio key = Ret (first_or_unknown audio key).
Proof.
  unfold tag_or_unknown, first_or_unknown.
  destruct (audio !! key) as [[|v l]|]; cbn; [|reflexivity|reflexivity].
  rewrite bool_decide_eq_true_2 by reflexivity. discriminate.
Qed.

Lemma tag_or_unknown_empty (audio : gmap string (list string)) (key : string) :
  negb (bool_decide (audio !! key = Some [])) = false ->
  tag_or_unknown audio key = Raise IndexError.
Proof.
  unfold tag_or_unknown. intros H. apply negb_false_iff in H.
  apply bool_decide_eq_true_1 in H. rewrite H. reflexivity.
Qed.

Lemma tags_read (audio : gmap string (list string)) :
  (let? n := tag_or_unknown audio "title" in
   let? a := tag_or_unknown audio "artist" in
   let? m := tag_or_unknown audio "albumartist" in
   let? y := tag_or_unknown audio "date" in
   let? b := tag_or_unknown audio "album" in
   Ret (mkInfo n a m y b))
  = if no_empty_tag audio then Ret (info_of audio) else Raise IndexError.
Proof.
  unfold no_empty_tag, TAG_KEYS, info_of. cbn [forallb].
  repeat match goal with
  | |- context [negb (bool_decide (audio !! ?k = Some []))] =>
      let E := fresh "E" in
      destruct (negb (bool_decide (audio !! k = Some []))) eqn:E;
      [rewrite (tag_or_unknown_value audio k E)
      |rewrite (tag_or_unknown_empty audio k E)];
      cbn [and_then andb]
  end; reflexivity.
Qed.

Lemma split_slash_aux_no_slash (cur s : string) :
  occurs "/" s = false -> split_slash_aux cur s = [(cur +:+ s)].
Proof.
  revert cur. induction s as [|c s IH]; intros cur H.
  - cbn. f_equal. induction cur as [|d cur IHc]; [reflexivity|].
    rewrite append_cons. f_equal. exact IHc.
  - cbn [occurs] in H. apply orb_false_elim in H as [Hc Hs].
    cbn [split_slash_aux]. rewrite Ascii.eqb_sym, Hc, (IH _ Hs).
    f_equal. clear. induction cur as [|d cur IHc]; [reflexivity|].
    rewrite !append_cons. f_equal. exact IHc.
Qed.

(** A string without a slash that is neither empty nor the single dot is
    read as one component. *)
Lemma parse_one_component (s : string) :
  occurs "/" s = false -> s <> EmptyString -> s <> "." ->
  parse s = mkPath false [s].
Proof.
  intros Hs Hne Hdot. unfold parse, split_slash.
  rewrite (split_slash_aux_no_slash EmptyString s Hs), append_nil_l.
  cbn [List.filter]. unfold kept_component.
  destruct (String.eqb s EmptyString) eqn:E1;
    [apply String.eqb_eq in E1; congruence|].
  destruct (String.eqb s ".") eqn:E2;
    [apply String.eqb_eq in E2; congruence|].
  cbn. f_equal. destruct s as [|c s]; [congruence|].
  cbn [occurs] in Hs. apply orb_false_elim in Hs as [Hc _].
  cbn. rewrite Ascii.eqb_sym. exact Hc.
Qed.

Lemma joinpath_one_component (p : Path) (s : string) :
  occurs "/" s = false -> s <> EmptyString -> s <> "." ->
  joinpath p s = child p s.
Proof.
  intros Hs Hne Hdot. unfold joinpath.
  rewrite (parse_one_component s Hs Hne Hdot). reflexivity.
Qed.

Lemma simple_one_component (s : string) :
  simple s = true -> occurs "/" s = false /\ s <> EmptyString /\ s <> ".".
Proof.
  unfold simple. intros H. apply andb_prop in H as [H1 H2].
  apply negb_true_iff in H1. split; [exact H1|].
  destruct s as [|c s]; [discriminate|].
  apply negb_true_iff in H2. split; [discriminate|].
  intros [= -> _]. discriminate.
Qed.

Lemma simple_not_dots (s : string) : simple s = true -> s <> "..".
Proof.
  unfold simple. intros H. apply andb_prop in H as [_ H].
  intros ->. discriminate H.
Qed.

Lemma album_component_no_slash (info : Info) :
  occurs "/" (album_component info) = false.
Proof. apply sanitize_occurs_forbidden. reflexivity. Qed.

End MoreInfo.

(** X4.  The extraction succeeds exactly on a file that opens as tagged
    audio and in which none of the five keys read has an empty list of
    values; it then returns, for each key, the first value, or the sentinel
    for a key that is not there, and leaves the world as it is.  A key with
    an empty list of values fails the whole extraction, and so does any
    file that does not open; one error line is logged then, and nothing
    else changes. *)
Theorem extraction_of_tags {OS : Platform} (file_path : Path) (w : world) :
  (forall i audio,
     stat file_path (tree w) = Ret (File i (Some audio)) ->
     get_music_info file_path w
     = if no_empty_tag audio then (Ret (Some (info_of audio)), w)
       else (Ret None, log_error "get_music_info" IndexError w))
  /\ ((forall i audio, stat file_path (tree w) <> Ret (File i (Some audio))) ->
      exists e, get_music_info file_path w
                = (Ret None, log_error "get_music_info" e w)).
Proof.
  split.
  - intros i audio H.
    unfold get_music_info, print_errors, get_music_info_body, lift, EasyID3.
    rewrite H. cbn [and_then]. rewrite tags_read.
    destruct (no_empty_tag audio); reflexivity.
  - intros H.
    unfold get_music_info, print_errors, get_music_info_body, lift, EasyID3.
    destruct (stat file_path (tree w)) as [[i [audio|]|b es]|e] eqn:E.
    + exfalso. exact (H i audio eq_refl).
    + eexists. reflexivity.
    + eexists. reflexivity.
    + eexists. reflexivity.
Qed.

(** X5.  When the artist is a name of its own (no slash, not starting with
    a dot), the first-level folder that [str.upper] makes of its first
    character is one too, and the sanitized album is not empty and neither
    one dot nor two, then the destination folder is the base root followed
    by exactly three components, none of them the two dots: it lies three
    levels below the base root, first letter, artist, album. *)
Theorem destination_layout {OS : Platform} (info : Info) (base_folder : Path) :
  simple (artist_component info) = true ->
  simple (first_letter_of (artist_component info)) = true ->
  album_component info <> EmptyString ->
  album_component info <> "." ->
  album_component info <> ".." ->
  new_folder_of info base_folder
  = Ret (mkPath (anchored base_folder)
           (parts base_folder ++
            [first_letter_of (artist_component info); artist_component info;
             album_component info]))
  /\ plain (mkPath false [first_letter_of (artist_component info);
                          artist_component info; album_component info]) = true.
Proof.
  intros Ha Hf Hal1 Hal2 Hal3. split.
  - rewrite new_folder_of_eq. f_equal.
    destruct (simple_one_component _ Hf) as (F1 & F2 & F3).
    destruct (simple_one_component _ Ha) as (A1 & A2 & A3).
    rewrite (joinpath_one_component _ _ F1 F2 F3).
    rewrite (joinpath_one_component _ _ A1 A2 A3).
    rewrite (joinpath_one_component _ _ (album_component_no_slash info) Hal1 Hal2).
    unfold child. cbn [anchored parts]. rewrite <- !app_assoc. reflexivity.
  - unfold plain. cbn [parts forallb].
    apply simple_not_dots in Ha, Hf.
    apply String.eqb_neq in Ha, Hf, Hal3. rewrite Ha, Hf, Hal3. reflexivity.
Qed.

Lemma destination_layout_scenario :
  new_folder_of (mkInfo "X" "Y" "abba" "2020" "Best:Of") (parse "base")
  = Ret (mkPath false ["base"; "A"; "abba"; "BestOf"]).
Proof.
  destruct (destination_layout (mkInfo "X" "Y" "abba" "2020" "Best:Of")
              (parse "base")) as [E _];
    [reflexivity|reflexivity|discriminate|discriminate|discriminate|exact E].
Defined.

(** X6.  An artist that starts with a slash makes the base root
    irrelevant: the folder is the rooted path of the artist followed by the
    album, whatever the base root is.  (That path may lie below the base
    root or anywhere else.) *)
Theorem rooted_artist_replaces_the_base {OS : Platform} (info : Info)
  (base_folder : Path) :
  starts_with_slash (main_artist info) = true ->
  new_folder_of info base_folder
  = Ret (mkPath true (parts (parse (main_artist info))
                        ++ parts (parse (album_component info))))
  /\ new_folder_of info base_folder = new_folder_of info (parse "/").
Proof.
  intros H.
  assert (G : forall base,
    new_folder_of info base
    = Ret (mkPath true (parts (parse (main_artist info))
                          ++ parts (parse (album_component info))))).
  { intros base. rewrite new_folder_of_eq. f_equal.
    unfold artist_component, or_unknown.
    destruct (main_artist info) as [|c a] eqn:E; [discriminate|].
    cbn [truthy starts_with_slash] in *. apply Ascii.eqb_eq in H. subst c.
    assert (P : anchored (parse (album_component info)) = false).
    { unfold parse. cbn [anchored]. pose proof (album_component_no_slash info) as N.
      destruct (album_component info) as [|d s]; [reflexivity|].
      cbn [occurs] in N. apply orb_false_elim in N as [N _].
      cbn. rewrite Ascii.eqb_sym. exact N. }
    unfold joinpath at 1. rewrite P.
    unfold joinpath at 1.
    change (anchored (parse (String "/" a))) with true. cbn iota.
    reflexivity. }
  split; [apply G|]. rewrite !G. reflexivity.
Qed.

Lemma rooted_artist_replaces_the_base_example :
  new_folder_of (mkInfo "X" "Y" "/tmp/x" "2020" "Gold") (parse "base")
  = Ret (parse "/tmp/x/Gold").
Proof.
  destruct (rooted_artist_replaces_the_base (mkInfo "X" "Y" "/tmp/x" "2020" "Gold")
              (parse "base")) as [E _]; [reflexivity|exact E].
Defined.
(** ** More on the move *)

Section MoreMove.

Context {OS : Platform}.

Lemma Path_mkdir_extends (p : Path) (w : world) :
  extends (tree w) (tree (after (Path_mkdir p) w)).
Proof. apply Path_mkdir_rev_extends. Qed.

(** [os.mkdir] adds no file. *)
Lemma os_mkdir_files (p : Path) (t t' : node) (l : loc) (i : nat)
  (c : option (gmap string (list string))) :
  os_mkdir p t = Ret t' ->
  kind_at l t' = Some (KFile i c) -> kind_at l t = Some (KFile i c).
Proof.
  unfold os_mkdir.
  destruct (locate p t) as [l0|e] eqn:Hl; [|discriminate].
  destruct (lookup_loc l0 t) as [x|] eqn:Hn; [discriminate|].
  intros [= <-].
  destruct (walk_target_parent t (parts p) _ l0 (locate_walk p t l0 Hl)
              (locate_nil_lookup p t l0 Hl Hn) Hn) as [Hne Hdir].
  rewrite kind_at_link_at; [|exact Hne|exact Hdir|reflexivity].
  destruct (starts_with l0 l); [|intros H; exact H].
  destruct (bool_decide (l = l0)); discriminate.
Qed.

Lemma Path_mkdir_rev_files (anch : bool) (rparts : list string) (l : loc)
  (i : nat) (c : option (gmap string (list string))) :
  forall w,
    kind_at l (tree (after (Path_mkdir_rev anch rparts) w)) = Some (KFile i c) ->
    kind_at l (tree w) = Some (KFile i c).
Proof.
  induction rparts as [|x rparent IH]; intros w; unfold after;
    cbn [Path_mkdir_rev].
  - destruct (os_mkdir _ (tree w)) as [t'|e] eqn:E.
    + apply (os_mkdir_files _ _ _ _ _ _ E).
    + destruct e; try (destruct (is_dir _ (tree w))); intros H; exact H.
  - destruct (os_mkdir _ (tree w)) as [t'|e] eqn:E.
    + apply (os_mkdir_files _ _ _ _ _ _ E).
    + destruct e; try (destruct (is_dir _ (tree w)); intros H; exact H).
      specialize (IH w). unfold after in IH.
      destruct (Path_mkdir_rev anch rparent w) as [[[]|e] w1]; [|exact IH].
      cbn [snd] in IH.
      destruct (os_mkdir _ (tree w1)) as [t'|e] eqn:E1.
      * intros H. apply IH. apply (os_mkdir_files _ _ _ _ _ _ E1 H).
      * destruct e; try (destruct (is_dir _ (tree w1))); exact IH.
Qed.

(** Whatever comes of it, the body of the move on a regular file only adds
    to the tree, unless it returns. *)
Lemma move_music_file_body_raises (file_path : Path) (info : Info)
  (base_folder : Path) (w w' : world) (e : exn) (ls : loc) (i : nat)
  (c : option (gmap string (list string))) :
  locate file_path (tree w) = Ret ls ->
  kind_at ls (tree w) = Some (KFile i c) ->
  move_music_file_body file_path info base_folder w = (Raise e, w') ->
  extends (tree w) (tree w').
Proof.
  intros Hls Hk.
  unfold move_music_file_body, bind, lift, ret. rewrite new_folder_of_eq.
  match goal with |- context [Path_mkdir ?nf w] =>
    pose proof (Path_mkdir_extends nf w) as X; unfold after in X;
    destruct (Path_mkdir nf w) as [[[]|e1] w1]
  end; cbn [snd] in X.
  - match goal with |- context [shutil_move ?s ?d w1] =>
      destruct (shutil_move s d w1) as [[[]|e2] w2] eqn:E2
    end; [discriminate|].
    intros [= _ <-].
    assert (Hls1 : locate file_path (tree w1) = Ret ls).
    { eapply locate_mono; [|exact Hls]. intros l'. apply X. }
    apply (shutil_move_raises _ _ _ _ ls i c _ Hls1 (X _ _ Hk)) in E2.
    subst w2. exact X.
  - intros [= _ <-]. exact X.
Qed.

Lemma kind_at_below_not_dir_none (l l2 : loc) (t : node) :
  kind_at l t <> Some KDir -> l2 <> [] -> kind_at (l ++ l2) t = None.
Proof.
  intros H Hne. destruct l2 as [|m l3]; [congruence|].
  unfold kind_at in *.
  destruct (lookup_loc l t) as [[? c|b es]|] eqn:E.
  - rewrite (lookup_below_file l t _ c m l3 E). reflexivity.
  - exfalso. apply H. reflexivity.
  - rewrite (lookup_below_none l (m :: l3) t E). reflexivity.
Qed.

Lemma exists_not_below (l0 l : loc) (t : node) (k : kind) :
  kind_at l0 t <> Some KDir -> kind_at l t = Some k -> l <> l0 ->
  starts_with l0 l = false.
Proof.
  intros Hnd Hl Hne. destruct (starts_with l0 l) eqn:S; [|reflexivity].
  destruct (starts_with_split _ _ S) as [l2 ->].
  rewrite kind_at_below_not_dir_none in Hl; [discriminate|exact Hnd|].
  intros ->. rewrite app_nil_r in Hne. congruence.
Qed.

(** A regular file moved: nothing but the old and the new position is
    touched, and the other names of a file that is written over. *)
Lemma shutil_move_frame (src dst : Path) (w w' : world) (ls : loc) (i : nat)
  (c : option (gmap string (list string))) :
  locate src (tree w) = Ret ls ->
  kind_at ls (tree w) = Some (KFile i c) ->
  shutil_move src dst w = (Ret tt, w') ->
  forall l k, kind_at l (tree w) = Some k -> l <> ls ->
              locate dst (tree w) <> Ret l ->
              (forall ld j c1 c2,
                 locate dst (tree w) = Ret ld ->
                 kind_at ld (tree w) = Some (KFile j c1) ->
                 kind_at l (tree w) <> Some (KFile j c2)) ->
              kind_at l (tree w') = Some k.
Proof.
  intros Hls Hk Hmv l k Hl Hne Hdst Hnames.
  destruct (shutil_move_file_onto src dst w w' ls i c Hls Hk Hmv)
    as (_ & ld & L & Hnd & Hfree & M).
  destruct M as [[-> _]|(_ & _ & _ & _ & F)]; [exact Hl|].
  rewrite F; [exact Hl| | |].
  - apply (exists_not_below ls l (tree w) k);
      [rewrite Hk; discriminate|exact Hl|exact Hne].
  - apply (exists_not_below ld l (tree w) k); [exact Hnd|exact Hl|].
    intros ->. destruct (is_dir dst (tree w)) eqn:Hd.
    + rewrite (Hfree eq_refl) in Hl. discriminate.
    + apply Hdst. exact L.
  - intros j c1 c2 Kd Kl. destruct (is_dir dst (tree w)) eqn:Hd.
    + rewrite (Hfree eq_refl) in Kd. discriminate.
    + exact (Hnames ld j c1 c2 L Kd Kl).
Qed.

Lemma os_mkdir_is_dir (p : Path) (t t' : node) :
  os_mkdir p t = Ret t' -> is_dir p t' = true.
Proof.
  intros H. pose proof (os_mkdir_extends p t t' H) as X.
  unfold os_mkdir in H.
  destruct (locate p t) as [l0|e] eqn:Hl; [|discriminate].
  destruct (lookup_loc l0 t) as [x|] eqn:Hn; [discriminate|].
  injection H as <-.
  destruct (walk_target_parent t (parts p) _ l0 (locate_walk p t l0 Hl)
              (locate_nil_lookup p t l0 Hl Hn) Hn) as [Hne Hdir].
  apply is_dir_iff. exists l0. split.
  - eapply locate_mono; [|exact Hl]. intros l. apply X.
  - rewrite kind_at_link_at; [|exact Hne|exact Hdir|reflexivity].
    rewrite starts_with_refl, bool_decide_eq_true_2 by reflexivity. reflexivity.
Qed.

(** A [mkdir] that returns leaves a directory at the path. *)
Lemma Path_mkdir_rev_is_dir (anch : bool) (rparts : list string) (w w' : world) :
  Path_mkdir_rev anch rparts w = (Ret tt, w') ->
  is_dir (mkPath anch (List.rev rparts)) (tree w') = true.
Proof.
  destruct rparts as [|c rparent]; cbn [Path_mkdir_rev].
  - destruct (os_mkdir _ (tree w)) as [t'|e] eqn:E.
    + intros [= <-]. apply (os_mkdir_is_dir _ _ _ E).
    + destruct e; try discriminate;
        destruct (is_dir _ (tree w)) eqn:D; try discriminate;
        intros [= <-]; exact D.
  - destruct (os_mkdir _ (tree w)) as [t'|e] eqn:E.
    + intros [= <-]. apply (os_mkdir_is_dir _ _ _ E).
    + destruct e;
        try (destruct (is_dir _ (tree w)) eqn:D; try discriminate;
             intros [= <-]; exact D).
      destruct (Path_mkdir_rev anch rparent w) as [[[]|e] w1]; [|discriminate].
      destruct (os_mkdir _ (tree w1)) as [t'|e] eqn:E1.
      * intros [= <-]. apply (os_mkdir_is_dir _ _ _ E1).
      * destruct e; try discriminate;
          destruct (is_dir _ (tree w1)) eqn:D; try discriminate;
          intros [= <-]; exact D.
Qed.

(** On a directory that is there, [mkdir] with [exist_ok] changes nothing. *)
Lemma Path_mkdir_existing (p : Path) (w : world) :
  is_dir p (tree w) = true -> Path_mkdir p w = (Ret tt, w).
Proof.
  intros D. unfold Path_mkdir.
  assert (E : os_mkdir p (tree w) = Raise FileExistsError).
  { apply is_dir_iff in D as (l & L & K). unfold os_mkdir. rewrite L.
    unfold kind_at in K. destruct (lookup_loc l (tree w)); [reflexivity|discriminate]. }
  assert (P : mkPath (anchored p) (List.rev (List.rev (parts p))) = p).
  { rewrite rev_involutive. destruct p; reflexivity. }
  destruct (List.rev (parts p)) as [|c r] eqn:Er; cbn [Path_mkdir_rev];
    rewrite P, E, D; reflexivity.
Qed.

Lemma move_music_file_returns (file_path : Path) (info : Info)
  (base_folder : Path) (w w' : world) (p : Path) :
  move_music_file file_path info base_folder w = (Ret (Some p), w') ->
  p = resolved_destination file_path info base_folder.
Proof.
  unfold move_music_file, print_errors.
  destruct (move_music_file_body _ _ _ w) as [[q|e] w1] eqn:E; [|discriminate].
  intros H. inversion H. subst. eapply move_music_file_body_returns, E.
Qed.

End MoreMove.

(** X7.  A move that fails leaves the file where it was, with its content:
    the directories made before the failure stay, nothing that stood in the
    tree is removed or changed, and no row is written by the move. *)
Theorem failed_move_keeps_the_file {OS : Platform} (file_path : Path)
  (info : Info) (base_folder : Path) (w w' : world) (i : nat)
  (c : option (gmap string (list string))) :
  stat file_path (tree w) = Ret (File i c) ->
  move_music_file file_path info base_folder w = (Ret None, w') ->
  stat file_path (tree w') = Ret (File i c)
  /\ extends (tree w) (tree w')
  /\ manifest w' = manifest w.
Proof.
  intros Hstat Hmove.
  pose proof (move_music_file_manifest file_path info base_folder w) as Hm.
  unfold after in Hm. rewrite Hmove in Hm. cbn [snd] in Hm.
  unfold move_music_file, print_errors in Hmove.
  destruct (move_music_file_body file_path info base_folder w) as [[p|e] w1] eqn:E;
    [discriminate|].
  injection Hmove as <-.
  apply stat_file_iff in Hstat as Hs. destruct Hs as (ls & Hls & Hk).
  apply (move_music_file_body_raises _ _ _ _ _ _ ls i c Hls Hk) in E.
  cbn [tree]. split; [|split; [exact E|exact Hm]].
  eapply stat_file_extends; [exact E|exact Hstat].
Qed.

Lemma failed_move_keeps_the_file_blocked :
  stat (parse "in/x.mp3") (tree (Examples.fresh Examples.blocked))
  = Ret (Examples.tagged 1 "Abba" "Gold")
  /\ stat (parse "in/x.mp3")
       (tree (after (move_music_file (parse "in/x.mp3") Examples.gold_info (parse "out"))
                (Examples.fresh Examples.blocked)))
     = Ret (Examples.tagged 1 "Abba" "Gold").
Proof.
  split; [reflexivity|].
  apply (failed_move_keeps_the_file (parse "in/x.mp3") Examples.gold_info
           (parse "out") (Examples.fresh Examples.blocked)
           (after (move_music_file (parse "in/x.mp3") Examples.gold_info (parse "out"))
              (Examples.fresh Examples.blocked))).
  - reflexivity.
  - vm_compute. reflexivity.
Defined.

(** X8.  A move, whether it succeeds or fails, touches two positions at
    most: whatever stood in the tree anywhere but at the position of the
    file and at the position of the resolved destination stands there
    afterwards, as the same file or as a directory.  The one exception is
    a file written over by a copy from another device: its content changes
    under every name it has, so the entry is taken not to be another name
    of a file that stood at the destination. *)
Theorem move_touches_source_and_destination {OS : Platform} (file_path : Path)
  (info : Info) (base_folder : Path) (w w' : world) (r : outcome (option Path))
  (i : nat) (c : option (gmap string (list string))) (ls : loc) :
  locate file_path (tree w) = Ret ls ->
  kind_at ls (tree w) = Some (KFile i c) ->
  move_music_file file_path info base_folder w = (r, w') ->
  forall l k,
    kind_at l (tree w) = Some k ->
    l <> ls ->
    locate (resolved_destination file_path info base_folder) (tree w') <> Ret l ->
    (forall ld j c1 c2,
       locate (resolved_destination file_path info base_folder) (tree w') = Ret ld ->
       kind_at ld (tree w) = Some (KFile j c1) ->
       kind_at l (tree w) <> Some (KFile j c2)) ->
    kind_at l (tree w') = Some k.
Proof.
  intros Hls Hk Hmove l k Hl Hne Hdst Hnames.
  destruct r as [[p|]|e].
  - pose proof (move_music_file_returns _ _ _ _ _ _ Hmove) as Hp. subst p.
    destruct (move_music_file_inv _ _ _ _ _ _ Hmove)
      as (nf & w1 & Hnf & Hmk & _ & Hmv).
    assert (Hext : extends (tree w) (tree w1)).
    { pose proof (Path_mkdir_extends nf w) as X. unfold after in X.
      rewrite Hmk in X. exact X. }
    assert (Hfiles : forall l0 j c0,
              kind_at l0 (tree w1) = Some (KFile j c0) ->
              kind_at l0 (tree w) = Some (KFile j c0)).
    { intros l0 j c0.
      pose proof (Path_mkdir_rev_files (anchored nf) (List.rev (parts nf)) l0 j c0 w)
        as X.
      unfold after in X. fold (Path_mkdir nf) in X. rewrite Hmk in X. exact X. }
    assert (Hls1 : locate file_path (tree w1) = Ret ls).
    { eapply locate_mono; [|exact Hls]. intros l'. apply Hext. }
    pose proof (Hext _ _ Hk) as Hk1.
    destruct (shutil_move_file _ _ _ _ ls i c Hls1 Hk1 Hmv) as [Hsame _].
    assert (Hloc : forall l0,
              locate (resolved_destination file_path info base_folder) (tree w1)
              = Ret l0 ->
              locate (resolved_destination file_path info base_folder) (tree w')
              = Ret l0).
    { intros l0 L. eapply locate_mono; [|exact L]. intros l'. apply Hsame. }
    eapply (shutil_move_frame _ _ _ _ ls i c Hls1 Hk1 Hmv);
      [apply Hext, Hl|exact Hne| |].
    + intros L. apply Hdst, Hloc, L.
    + intros ld j c1 c2 L Kd Kl.
      apply (Hnames ld j c1 c2 (Hloc _ L) (Hfiles _ _ _ Kd) (Hfiles _ _ _ Kl)).
  - unfold move_music_file, print_errors in Hmove.
    destruct (move_music_file_body file_path info base_folder w) as [[p|e] w1] eqn:E;
      [discriminate|].
    injection Hmove as <-.
    apply (move_music_file_body_raises _ _ _ _ _ _ ls i c Hls Hk) in E.
    cbn [tree]. apply E, Hl.
  - unfold move_music_file, print_errors in Hmove.
    destruct (move_music_file_body file_path info base_folder w) as [[p|e'] w1];
      discriminate.
Qed.

Lemma move_touches_source_and_destination_library :
  kind_at ["in"; "y.mp3"] (tree (Examples.fresh Examples.library))
  = Some (KFile 2 None)
  /\ kind_at ["in"; "y.mp3"]
       (tree (after (move_music_file (parse "in/x.mp3") Examples.x_info (parse "out"))
                (Examples.fresh Examples.library)))
     = Some (KFile 2 None).
Proof.
  split; [reflexivity|].
  apply (move_touches_source_and_destination (parse "in/x.mp3") Examples.x_info
           (parse "out") (Examples.fresh Examples.library)
           (after (move_music_file (parse "in/x.mp3") Examples.x_info (parse "out"))
              (Examples.fresh Examples.library))
           (Ret (Some (parse "out/A/abba/BestOf/x.mp3")))
           1 Examples.x_tags ["in"; "x.mp3"]).
  - reflexivity.
  - reflexivity.
  - vm_compute. reflexivity.
  - reflexivity.
  - discriminate.
  - vm_compute. intros H; discriminate H.
  - intros ld j c1 c2 L. vm_compute in L. injection L as <-.
    intros K. vm_compute in K. discriminate K.
Defined.

(** X9.  After a successful move of a regular file the folder the file was
    sent to exists as a directory, and the path returned is that folder
    followed by the name of the file; when the folder was there before the
    call, making it changed nothing. *)
Theorem successful_move_makes_the_folder {OS : Platform} (file_path : Path)
  (info : Info) (base_folder : Path) (w w' : world) (p : Path) (i : nat)
  (c : option (gmap string (list string))) :
  stat file_path (tree w) = Ret (File i c) ->
  move_music_file file_path info base_folder w = (Ret (Some p), w') ->
  exists new_folder,
    new_folder_of info base_folder = Ret new_folder
    /\ p = (new_folder / name file_path)%path
    /\ is_dir new_folder (tree w') = true
    /\ (is_dir new_folder (tree w) = true ->
        Path_mkdir new_folder w = (Ret tt, w)).
Proof.
  intros Hstat Hmove.
  destruct (move_music_file_inv _ _ _ _ _ _ Hmove) as (nf & w1 & Hnf & Hmk & Hp & Hmv).
  exists nf. split; [exact Hnf|]. split; [exact Hp|].
  split; [|apply Path_mkdir_existing].
  assert (Hext : extends (tree w) (tree w1)).
  { pose proof (Path_mkdir_extends nf w) as X. unfold after in X.
    rewrite Hmk in X. exact X. }
  pose proof (stat_file_extends _ _ _ i c Hext Hstat) as Hstat1.
  apply stat_file_iff in Hstat1 as (ls & Hls & Hk).
  destruct (shutil_move_file _ _ _ _ ls i c Hls Hk Hmv) as [Hsame _].
  rewrite <- (is_dir_same_dirs nf _ _ Hsame).
  unfold Path_mkdir in Hmk. apply Path_mkdir_rev_is_dir in Hmk.
  rewrite rev_involutive in Hmk. destruct nf. exact Hmk.
Qed.

Lemma successful_move_makes_the_folder_library :
  stat (parse "in/x.mp3") (tree (Examples.fresh Examples.library))
  = Ret (File 1 Examples.x_tags)
  /\ exists new_folder,
       new_folder_of Examples.x_info (parse "out") = Ret new_folder
       /\ parse "out/A/abba/BestOf/x.mp3" = (new_folder / name (parse "in/x.mp3"))%path
       /\ is_dir new_folder
            (tree (after (move_music_file (parse "in/x.mp3") Examples.x_info (parse "out"))
                     (Examples.fresh Examples.library))) = true.
Proof.
  split; [reflexivity|].
  destruct (successful_move_makes_the_folder (parse "in/x.mp3") Examples.x_info
              (parse "out") (Examples.fresh Examples.library)
              (after (move_music_file (parse "in/x.mp3") Examples.x_info (parse "out"))
                 (Examples.fresh Examples.library))
              (parse "out/A/abba/BestOf/x.mp3") 1 Examples.x_tags)
    as (nf & H1 & H2 & H3 & _).
  - reflexivity.
  - vm_compute. reflexivity.
  - exists nf. split; [exact H1|]. split; [exact H2|exact H3].
Defined.



(** A file written over from another device shows the new content under
    its other name too. *)
Example copy_over_a_file_with_two_names :
  let t :=
    Dir false
      [("in", Dir false [("x.mp3", Examples.tagged 1 "Abba" "Gold")]);
       ("out", Dir false
          [("A", Dir false
              [("Abba", Dir false
                  [("Gold", Dir false [("x.mp3", Examples.untagged 7)])])]);
           ("other", Examples.untagged 7)])] in
  let w' := after (@move_music_file Examples.two_devices (parse "in/x.mp3")
                     Examples.gold_info (parse "out")) (Examples.fresh t) in
  kind_at ["out"; "other"] t = Some (KFile 7 None)
  /\ kind_at ["out"; "other"] (tree w')
     = Some (kind_of (Examples.tagged 7 "Abba" "Gold"))
  /\ kind_at ["out"; "A"; "Abba"; "Gold"; "x.mp3"] (tree w')
     = Some (kind_of (Examples.tagged 7 "Abba" "Gold"))
  /\ kind_at ["in"; "x.mp3"] (tree w') = None.
Proof. cbv zeta. repeat split; vm_compute; reflexivity. Qed.
(** ** More on batches and runs *)

Section MoreBatch.

Context {OS : Platform}.

Variable base_folder : Path.

Lemma move_music_file_log (file_path : Path) (info : Info) (w : world) :
  exists evs,
    log (after (move_music_file file_path info base_folder) w) = log w ++ evs
    /\ length evs
       = match fst (move_music_file file_path info base_folder w) with
         | Ret (Some _) => 0
         | _ => 1
         end
    /\ forallb file_error evs = true.
Proof.
  pose proof (move_music_file_body_tree_only file_path info base_folder w) as [_ L].
  unfold after, move_music_file, print_errors in *.
  destruct (move_music_file_body file_path info base_folder w) as [[p|e] w1];
    cbn [snd fst log] in *.
  - exists []. rewrite app_nil_r. repeat split. exact L.
  - exists [LogError "move_music_file" e]. rewrite L. repeat split.
Qed.

(** One turn of the loop, seen from the log: a turn that returns has logged
    one error unless the file was processed with success; a turn is left
    only by the error of a row that cannot be encoded. *)
Lemma process_file_log (file_path : Path) (w : world) :
  exists evs,
    log (after (process_file file_path base_folder) w) = log w ++ evs
    /\ forallb file_error evs = true
    /\ match fst (process_file file_path base_folder w) with
       | Ret _ => length evs = (if succeeds file_path base_folder w then 0 else 1)
       | Raise e => e = UnicodeEncodeError
       end.
Proof.
  unfold succeeds.
  destruct (fst (get_music_info_body file_path w)) as [info|e] eqn:E.
  - unfold after at 1.
    rewrite (process_file_row _ _ _ _ E), (row_of_row _ _ _ _ E), writerow_outcome.
    destruct (move_music_file_log file_path info w) as (evs & L & N & F).
    exists evs.
    destruct (forallb encodable _) eqn:Enc; cbn [snd fst log].
    + split; [exact L|]. split; [exact F|]. rewrite N, andb_true_r.
      destruct (fst (move_music_file file_path info base_folder w)) as [[p|]|e'];
        reflexivity.
    + split; [exact L|]. split; [exact F|reflexivity].
  - unfold after. rewrite (process_file_skip _ _ _ _ E), (row_of_skip _ _ _ _ E).
    exists [LogError "get_music_info" e]. repeat split.
Qed.

Lemma process_batch_body_log (files : list Path) (w : world) :
  exists evs,
    log (after (process_batch_body files base_folder) w) = log w ++ evs
    /\ forallb file_error evs = true
    /\ match fst (process_batch_body files base_folder w) with
       | Ret _ => length evs + count_files succeeds files base_folder w
                  = length files
       | Raise e => e = UnicodeEncodeError
       end.
Proof.
  revert w. induction files as [|f rest IH]; intros w.
  - exists []. cbn. rewrite app_nil_r. repeat split.
  - unfold after. rewrite process_batch_body_cons. cbn [count_files].
    destruct (process_file_log f w) as (e1 & L1 & F1 & N1).
    unfold after in L1.
    destruct (process_file f base_folder w) as [[[]|e] w1]; cbn [fst snd] in *.
    + destruct (IH w1) as (e2 & L2 & F2 & N2).
      exists (e1 ++ e2). unfold after in *. split; [|split].
      * rewrite L2, L1, app_assoc. reflexivity.
      * rewrite forallb_app, F1, F2. reflexivity.
      * destruct (process_batch_body rest base_folder w1) as [[[]|e] w2];
          cbn [fst] in *; [|exact N2].
        rewrite length_app. cbn [length].
        destruct (succeeds f base_folder w); lia.
    + exists e1. split; [exact L1|]. split; [exact F1|exact N1].
Qed.




(** The batches of a run, the count being the length of the batch at hand
    and below the batch size. *)
Lemma batches_from_sizes (batch_size : Z) (files : list Path) :
  (1 <= batch_size)%Z ->
  forall (batch : list Path) (batch_count : Z),
    batch_count = Z.of_nat (length batch) ->
    (batch_count < batch_size)%Z ->
    Forall (fun b => 1 <= length b /\ (Z.of_nat (length b) <= batch_size)%Z)
      (batches_from files batch batch_count batch_size)
    /\ forall pre b post,
         batches_from files batch batch_count batch_size = pre ++ b :: post ->
         post <> [] -> Z.of_nat (length b) = batch_size.
Proof.
  intros Hsize. induction files as [|f rest IH]; intros batch batch_count Hc Hlt.
  - cbn [batches_from]. destruct batch as [|x batch].
    + split; [constructor|]. intros [|? ?] b post E; discriminate E.
    + split.
      * constructor; [|constructor]. cbn [length] in *. split; lia.
      * intros [|y pre] b post E Hpost.
        -- injection E as <- <-. congruence.
        -- injection E as _ E. destruct pre; discriminate E.
  - cbn [batches_from].
    destruct (in_extensions (suffix f)); [|apply IH; assumption].
    assert (Hlen : Z.of_nat (length (batch ++ [f])) = (batch_count + 1)%Z).
    { rewrite length_app. cbn [length]. lia. }
    destruct (batch_count + 1 >=? batch_size)%Z eqn:G.
    + rewrite Z.geb_leb in G. apply Z.leb_le in G.
      destruct (IH [] 0%Z eq_refl ltac:(lia)) as [F1 F2].
      split.
      * constructor; [|exact F1]. rewrite length_app. cbn [length]. split; lia.
      * intros [|y pre] b post E Hpost.
        -- injection E as <- _. lia.
        -- injection E as _ E. exact (F2 pre b post E Hpost).
    + rewrite Z.geb_leb in G. apply Z.leb_gt in G. apply IH; [symmetry; exact Hlen|lia].
Qed.

End MoreBatch.

(** X10.  Batches compose as long as no exception leaves the first part:
    processing a list of files as one batch is processing a first part of
    it as a batch and then the rest as a batch, from the world the first
    part leaves.  When a row of the first part cannot be written, the
    batch ends there, as the first part does, and the rest is not
    processed. *)
Theorem process_batch_app {OS : Platform} (a b : list Path) (base_folder : Path)
  (w : world) :
  process_batch (a ++ b) base_folder w
  = match process_batch a base_folder w with
    | (Ret (Some _), w1) => process_batch b base_folder w1
    | (r, w1) => (r, w1)
    end.
Proof.
  unfold process_batch, print_errors. rewrite process_batch_body_app.
  destruct (process_batch_body a base_folder w) as [[[]|e] w1]; reflexivity.
Qed.

(** X12.  In a batch that comes to its end every file either is processed
    with success and logs nothing, or logs exactly one error, of the
    extraction or of the move: the error lines added are as many as the
    files that did not succeed.  A batch that does not come to its end was
    left by a row that could not be encoded: after the error lines of its
    files, that error is logged under the name of the batch. *)
Theorem one_error_line_per_failed_file {OS : Platform} (files : list Path)
  (base_folder : Path) (w : world) :
  exists evs,
    forallb file_error evs = true
    /\ match fst (process_batch files base_folder w) with
       | Ret (Some _) =>
           log (after (process_batch files base_folder) w) = log w ++ evs
           /\ length evs + count_files succeeds files base_folder w = length files
       | _ =>
           log (after (process_batch files base_folder) w)
           = log w ++ evs ++ [LogError "process_batch" UnicodeEncodeError]
       end.
Proof.
  destruct (process_batch_body_log base_folder files w) as (evs & L & F & N).
  exists evs. split; [exact F|].
  unfold after, process_batch, print_errors in *.
  destruct (process_batch_body files base_folder w) as [[[]|e] w1];
    cbn [fst snd log] in *.
  - split; assumption.
  - subst e. rewrite L, app_assoc. reflexivity.
Qed.



(** X20.  A run whose manifest cannot be opened does nothing but log the
    error under its own name: no header, no file is moved, no cleanup, and
    the caller sees a normal return. *)
Theorem run_without_a_manifest {OS : Platform}
  (folder_path output_csv base_folder : Path) (delete_empty : bool)
  (batch_size : Z) (w : world) (e : exn) :
  open_append output_csv (tree w) = Raise e ->
  process_music_folder folder_path output_csv base_folder delete_empty
    batch_size w
  = (Ret None, mkWorld (tree w) (manifest w)
                 (log w ++ [LogError "process_music_folder" e])).
Proof.
  intros O. rewrite process_music_folder_closed_form.
  unfold run_in_batches, opened. rewrite O. reflexivity.
Qed.

Lemma run_without_a_manifest_library :
  open_append (parse "reports/manifest.csv") Examples.library
  = Raise FileNotFoundError
  /\ process_music_folder (parse "in") (parse "reports/manifest.csv")
       (parse "out") true 100 (Examples.fresh Examples.library)
     = (Ret None,
        mkWorld Examples.library [] [LogError "process_music_folder" FileNotFoundError]).
Proof.
  split; [reflexivity|].
  apply (run_without_a_manifest (parse "in") (parse "reports/manifest.csv")
           (parse "out") true 100 (Examples.fresh Examples.library)
           FileNotFoundError).
  reflexivity.
Defined.

(** X21.  A run that opens its manifest hands the scanned entries to
    [process_batch] in the batches of [batches].  They make up the
    candidates in scan order; with a batch size of at least one, none of
    them is empty, none is longer than the batch size, and every batch but
    the last has exactly the batch size; with a batch size of one or less,
    every candidate is a batch of its own. *)
Theorem batches_have_the_batch_size {OS : Platform} (files : list Path)
  (batch_size : Z) :
  (forall folder_path output_csv base_folder delete_empty w w0,
     opened output_csv w = Ret w0 ->
     after (process_music_folder folder_path output_csv base_folder delete_empty
              batch_size) w
     = let w1 :=
         after (process_batches (batches (rglob folder_path (tree w0)) batch_size)
                  base_folder) w0 in
       if delete_empty then after (delete_empty_folders folder_path) w1 else w1)
  /\ concat (batches files batch_size) = candidates_of files
  /\ ((1 <= batch_size)%Z ->
      Forall (fun b => 1 <= length b /\ (Z.of_nat (length b) <= batch_size)%Z)
        (batches files batch_size)
      /\ forall pre b post,
           batches files batch_size = pre ++ b :: post ->
           post <> [] -> Z.of_nat (length b) = batch_size)
  /\ ((batch_size <= 1)%Z ->
      batches files batch_size = List.map (fun f => [f]) (candidates_of files)).
Proof.
  split.
  { intros folder_path output_csv base_folder delete_empty w w0 O.
    unfold after at 1. rewrite process_music_folder_closed_form. cbn [snd].
    unfold run_in_batches. rewrite O. reflexivity. }
  split; [unfold batches; apply concat_batches_from|]. split.
  - intros H. apply (batches_from_sizes batch_size files H [] 0%Z eq_refl). lia.
  - intros H. unfold batches, candidates_of.
    induction files as [|f rest IH]; [reflexivity|].
    cbn [batches_from List.filter].
    destruct (in_extensions (suffix f)); [|exact IH].
    replace (0 + 1 >=? batch_size)%Z with true
      by (symmetry; rewrite Z.geb_leb; apply Z.leb_le; lia).
    cbn [List.map app]. f_equal. exact IH.
Qed.

Example batches_of_the_library :
  batches (rglob (parse "in") Examples.library) 3
  = [[parse "in/x.mp3"; parse "in/y.mp3"; parse "in/live.mp3"];
     [parse "in/sub/z.flac"]].
Proof. reflexivity. Qed.

(** ** More on the cleanup *)

Section MoreCleanup.

Context {OS : Platform}.

Lemma prune_get_child (prefix : Path) (m : string) (c0 : node)
  (es : list (string * node)) :
  is_empty_dir c0 = false ->
  get_child m es = Some c0 ->
  get_child m (fst (fst (prune prefix es))) = Some c0.
Proof.
  intros Hc. induction es as [|[k d] es IH]; [discriminate|].
  cbn [get_child prune]. destruct (prune prefix es) as [[rest' lg] r].
  cbn [fst] in IH.
  destruct (String.eqb m k) eqn:E.
  - intros [= ->]. rewrite Hc. cbn [fst get_child]. rewrite E. reflexivity.
  - intros H. destruct (is_empty_dir d).
    + destruct (rmdir_refusal d); cbn [fst get_child].
      * rewrite E. exact H.
      * exact (IH H).
    + cbn [fst get_child]. rewrite E. exact (IH H).
Qed.

Lemma survivors_get_child (m : string) (c0 : node) (es : list (string * node)) :
  is_empty_dir c0 = false ->
  get_child m es = Some c0 ->
  get_child m (survivors es) = Some c0.
Proof.
  intros Hc. induction es as [|[k d] es IH]; [discriminate|].
  rewrite survivors_cons. cbn [get_child].
  destruct (String.eqb m k) eqn:E.
  - intros [= ->]. rewrite Hc. cbn [get_child]. rewrite E. reflexivity.
  - intros H. destruct (is_empty_dir d); [exact (IH H)|].
    cbn [get_child]. rewrite E. exact (IH H).
Qed.

(** An entry that is not an empty directory is found in the listing after
    the second half, either as it was or as its own walk left it. *)
Lemma descend_get_child (prefix : Path) (m : string) (c0 : node)
  (es : list (string * node)) :
  is_empty_dir c0 = false ->
  get_child m es = Some c0 ->
  exists c1,
    get_child m (fst (fst (descend sweep_node prefix es))) = Some c1
    /\ (c1 = c0 \/ c1 = fst (fst (sweep_node (child prefix m) c0))).
Proof.
  intros Hc. induction es as [|[k d] es IH]; [discriminate|].
  cbn [get_child descend]. fold (descend sweep_node prefix).
  destruct (String.eqb m k) eqn:E.
  - intros [= ->]. rewrite Hc. apply String.eqb_eq in E. subst k.
    destruct (sweep_node (child prefix m) c0) as [[c' lga] [e|]].
    + exists c'. cbn [fst get_child]. rewrite String.eqb_refl.
      split; [reflexivity|right; reflexivity].
    + destruct (descend sweep_node prefix es) as [[rest' lgb] r].
      exists c'. cbn [fst get_child]. rewrite String.eqb_refl.
      split; [reflexivity|right; reflexivity].
  - intros H. destruct (is_empty_dir d); [exact (IH H)|].
    destruct (sweep_node (child prefix k) d) as [[c' lga] [e|]].
    + exists c0. cbn [fst get_child]. rewrite E.
      split; [apply survivors_get_child; assumption|left; reflexivity].
    + destruct (IH H) as (c1 & G & Hc1).
      destruct (descend sweep_node prefix es) as [[rest' lgb] r].
      exists c1. cbn [fst get_child] in *. rewrite E. split; assumption.
Qed.

Lemma holds_a_file_not_empty (l : loc) (c0 : node) (i : nat)
  (c : option (gmap string (list string))) :
  lookup_loc l c0 = Some (File i c) -> is_empty_dir c0 = false.
Proof.
  destruct c0 as [? c'|b [|e es]]; try reflexivity.
  destruct l; cbn; discriminate.
Qed.

(** The walk of the cleanup keeps every regular file. *)
Lemma sweep_node_keeps_files (n : node) :
  forall prefix l i c,
    lookup_loc l n = Some (File i c) ->
    lookup_loc l (fst (fst (sweep_node prefix n))) = Some (File i c).
Proof.
  induction n as [j c'|b es IH] using node_ind_nested; intros prefix l i c H;
    [exact H|].
  destruct l as [|m l]; [discriminate|].
  cbn [lookup_loc] in H.
  destruct (get_child m es) as [c0|] eqn:G; [|discriminate].
  pose proof (holds_a_file_not_empty l c0 i c H) as Hc.
  cbn [sweep_node].
  pose proof (prune_get_child prefix m c0 es Hc G) as P.
  destruct (prune prefix es) as [[es1 lg1] [e|]]; cbn [fst] in *.
  - cbn [lookup_loc]. rewrite P. exact H.
  - destruct (descend_get_child prefix m c0 es Hc G) as (c1 & G1 & Hc1).
    destruct (descend sweep_node prefix es) as [[es2 lg2] r].
    cbn [fst lookup_loc] in *. rewrite G1.
    destruct Hc1 as [->| ->]; [exact H|].
    rewrite List.Forall_forall in IH.
    apply (IH (m, c0) (get_child_In m es c0 G)). exact H.
Qed.

Lemma sweep_node_kind (prefix : Path) (b : bool) (es : list (string * node)) :
  kind_of (fst (fst (sweep_node prefix (Dir b es)))) = KDir.
Proof.
  destruct (sweep_node_dir prefix b es) as [es' ->]. reflexivity.
Qed.

Lemma delete_empty_folders_tree (folder_path : Path) (w : world) :
  tree (after (delete_empty_folders folder_path) w) = tree w
  \/ exists l b es,
       locate folder_path (tree w) = Ret l
       /\ lookup_loc l (tree w) = Some (Dir b es)
       /\ tree (after (delete_empty_folders folder_path) w)
          = alter_at (fun _ => fst (fst (sweep_node folder_path (Dir b es)))) l (tree w).
Proof.
  unfold after, delete_empty_folders, print_errors, delete_empty_folders_body.
  destruct (locate folder_path (tree w)) as [l|e]; [|left; reflexivity].
  destruct (lookup_loc l (tree w)) as [[? c|b es]|] eqn:E; try (left; reflexivity).
  right. exists l, b, es. split; [reflexivity|]. split; [exact E|].
  destruct (sweep_node folder_path (Dir b es)) as [[n' lg] [e|]]; reflexivity.
Qed.

End MoreCleanup.

(** X15.  The cleanup removes directories only: every regular file of the
    tree is there afterwards with its content, so every directory with a
    file anywhere below it is there too; the folder cleaned is never
    removed itself; and the manifest is not written to. *)
Theorem cleanup_keeps_every_file {OS : Platform} (folder_path : Path) (w : world) :
  (forall l i c,
     kind_at l (tree w) = Some (KFile i c) ->
     kind_at l (tree (after (delete_empty_folders folder_path) w))
     = Some (KFile i c))
  /\ (forall l l2 i c,
        l2 <> [] ->
        kind_at (l ++ l2) (tree w) = Some (KFile i c) ->
        kind_at l (tree (after (delete_empty_folders folder_path) w))
        = Some KDir)
  /\ (forall l,
        locate folder_path (tree w) = Ret l ->
        kind_at l (tree w) = Some KDir ->
        kind_at l (tree (after (delete_empty_folders folder_path) w))
        = Some KDir)
  /\ manifest (after (delete_empty_folders folder_path) w) = manifest w.
Proof.
  assert (Files : forall l i c,
    kind_at l (tree w) = Some (KFile i c) ->
    kind_at l (tree (after (delete_empty_folders folder_path) w))
    = Some (KFile i c)).
  { intros l i c H.
    destruct (delete_empty_folders_tree folder_path w)
      as [->|(lf & b & es & Hl & Hn & ->)]; [exact H|].
    destruct (starts_with lf l) eqn:S.
    - destruct (starts_with_split _ _ S) as [l2 ->].
      apply kind_at_file_lookup. apply kind_at_file_lookup in H.
      rewrite lookup_alter_at_below, Hn. rewrite lookup_app, Hn in H.
      apply sweep_node_keeps_files, H.
    - rewrite kind_at_alter_at_off by exact S. exact H. }
  split; [exact Files|]. split; [|split].
  - intros l l2 i c Hne H. apply Files in H.
    apply kind_at_file_lookup in H. rewrite lookup_app in H.
    unfold kind_at.
    destruct (lookup_loc l (tree (after (delete_empty_folders folder_path) w)))
      as [[? c'|b es]|]; [|reflexivity|discriminate].
    destruct l2; [congruence|discriminate].
  - intros l Hl Hk.
    destruct (delete_empty_folders_tree folder_path w)
      as [->|(lf & b & es & Hl' & Hn & ->)]; [exact Hk|].
    rewrite Hl in Hl'. injection Hl' as <-.
    unfold kind_at. rewrite lookup_alter_at_same, Hn. cbn [option_map].
    rewrite sweep_node_kind. reflexivity.
  - apply delete_empty_folders_manifest.
Qed.

Section RepeatedCleanup.

Context {OS : Platform}.

Lemma height_cons (b : bool) (m : string) (c : node) (es : list (string * node)) :
  height (Dir b ((m, c) :: es)) = Nat.max (S (height c)) (height (Dir b es)).
Proof. reflexivity. Qed.

Lemma purely_empty_cons (b : bool) (m : string) (c : node)
  (es : list (string * node)) :
  purely_empty (Dir b ((m, c) :: es))
  = match c with
    | Dir busy _ => negb busy && purely_empty c
    | File _ _ => false
    end && purely_empty (Dir b es).
Proof. reflexivity. Qed.

Lemma height_zero (b : bool) (es : list (string * node)) :
  height (Dir b es) = 0 -> es = [].
Proof.
  destruct es as [|[m c] es]; [reflexivity|]. rewrite height_cons. lia.
Qed.

Lemma purely_empty_not_refused (b : bool) (es : list (string * node)) :
  purely_empty (Dir b es) = true ->
  forallb (fun e => negb (refused (snd e))) es = true.
Proof.
  induction es as [|[m c] es IH]; [reflexivity|].
  rewrite purely_empty_cons. intros H. apply andb_prop in H as [Hc Hes].
  cbn [forallb snd]. rewrite (IH Hes), andb_true_r.
  destruct c as [? c|[] [|e l]]; cbn in *; congruence.
Qed.

(** The second half on a listing of directories only: one level less. *)
Lemma descend_purely_empty (prefix : Path) (es : list (string * node)) :
  List.Forall (fun e =>
    purely_empty (snd e) = true -> forall prefix b es0,
    snd e = Dir b es0 ->
    exists es1 lg,
      sweep_node prefix (snd e) = (Dir b es1, lg, None)
      /\ purely_empty (Dir b es1) = true
      /\ height (Dir b es1) = Nat.pred (height (snd e))) es ->
  purely_empty (Dir false es) = true ->
  exists es2 lg,
    descend sweep_node prefix es = (es2, lg, None)
    /\ purely_empty (Dir false es2) = true
    /\ height (Dir false es2) = Nat.pred (height (Dir false es)).
Proof.
  intros IH. induction es as [|[m c] es IHes]; intros H.
  - exists [], []. repeat split.
  - rewrite purely_empty_cons in H. apply andb_prop in H as [Hc Hes].
    inversion IH as [|? ? Pc Pes]; subst. cbn [snd] in Pc.
    destruct (IHes Pes Hes) as (es2 & lg & D & N & L).
    destruct c as [? c|busy esc]; [discriminate|].
    apply andb_prop in Hc as [Hb Hc]. apply negb_true_iff in Hb. subst busy.
    cbn [descend]. fold (descend sweep_node prefix).
    destruct esc as [|e0 esc].
    + cbn [is_empty_dir]. exists es2, lg. split; [exact D|]. split; [exact N|].
      rewrite L, height_cons. cbn [height fold_right]. lia.
    + cbn [is_empty_dir].
      destruct (Pc Hc (child prefix m) false (e0 :: esc) eq_refl)
        as (es1 & lga & S1 & N1 & L1).
      rewrite S1, D. exists ((m, Dir false es1) :: es2), (lga ++ lg).
      split; [reflexivity|]. split.
      * rewrite purely_empty_cons. cbn [negb andb].
        rewrite N1. exact N.
      * rewrite !height_cons, L1, L.
        assert (1 <= height (Dir false (e0 :: esc))).
        { destruct e0 as [m0 c0]. rewrite height_cons. lia. }
        lia.
Qed.

(** One pass over a tree of directories only removes its lowest level. *)
Lemma sweep_node_purely_empty (n : node) :
  purely_empty n = true -> forall prefix b es,
  n = Dir b es ->
  exists es1 lg,
    sweep_node prefix n = (Dir b es1, lg, None)
    /\ purely_empty (Dir b es1) = true
    /\ height (Dir b es1) = Nat.pred (height n).
Proof.
  induction n as [? c|b0 es0 IH] using node_ind_nested;
    intros H prefix b es E; [discriminate|].
  injection E as -> ->. cbn [sweep_node].
  rewrite (prune_clean prefix es (purely_empty_not_refused b es H)).
  destruct (descend_purely_empty prefix es IH H) as (es2 & lg & D & N & L).
  rewrite D. exists es2, (deleted_log prefix es ++ lg).
  split; [reflexivity|]. split; [exact N|exact L].
Qed.

Lemma cleanup_pass_purely_empty (folder_path : Path) (w : world) (n : node) :
  plain folder_path = true ->
  stat folder_path (tree w) = Ret n ->
  purely_empty n = true ->
  exists n1,
    stat folder_path (tree (after (delete_empty_folders folder_path) w)) = Ret n1
    /\ purely_empty n1 = true
    /\ height n1 = Nat.pred (height n).
Proof.
  intros Hplain Hstat Hpure. unfold stat in Hstat.
  destruct (locate folder_path (tree w)) as [l|e] eqn:Hl; [|discriminate].
  destruct (lookup_loc l (tree w)) as [n'|] eqn:Hn; [|discriminate].
  injection Hstat as ->. destruct n as [? c|b es]; [discriminate|].
  destruct (sweep_node_purely_empty (Dir b es) Hpure folder_path b es eq_refl)
    as (es1 & lg & S1 & N1 & L1).
  exists (Dir b es1).
  unfold after, delete_empty_folders, print_errors, delete_empty_folders_body.
  rewrite Hl, Hn, S1. cbn [snd tree].
  pose proof (locate_alter_at_plain folder_path (tree w) l b b es es1
                Hplain Hl Hn) as Hl1.
  unfold stat. rewrite Hl1, lookup_alter_at_same, Hn. cbn [option_map].
  split; [reflexivity|]. split; [exact N1|exact L1].
Qed.

End RepeatedCleanup.

(** X16.  On a folder that holds directories only, all of which can be
    removed, every cleanup removes the lowest level: after k cleanups the
    folder is as many levels deep as before less k, so after as many
    cleanups as it was deep the folder is empty (and is itself still
    there). *)
Theorem repeated_cleanup_empties_the_folder {OS : Platform} (folder_path : Path)
  (w : world) (n : node) (k : nat) :
  plain folder_path = true ->
  stat folder_path (tree w) = Ret n ->
  purely_empty n = true ->
  exists n',
    stat folder_path
      (tree (Nat.iter k (after (delete_empty_folders folder_path)) w)) = Ret n'
    /\ purely_empty n' = true
    /\ height n' = height n - k
    /\ (height n <= k -> exists b, n' = Dir b []).
Proof.
  intros Hplain Hstat Hpure.
  assert (Main : exists n',
    stat folder_path
      (tree (Nat.iter k (after (delete_empty_folders folder_path)) w)) = Ret n'
    /\ purely_empty n' = true
    /\ height n' = height n - k).
  { induction k as [|k IH].
    - exists n. cbn [Nat.iter]. split; [exact Hstat|]. split; [exact Hpure|lia].
    - destruct IH as (nk & Sk & Pk & Lk).
      destruct (cleanup_pass_purely_empty folder_path _ nk Hplain Sk Pk)
        as (n1 & S1 & P1 & L1).
      exists n1. cbn [Nat.iter]. split; [exact S1|]. split; [exact P1|lia]. }
  destruct Main as (n' & S & P & L). exists n'.
  split; [exact S|]. split; [exact P|]. split; [exact L|].
  intros Hk. destruct n' as [? c|b es]; [discriminate|].
  exists b. f_equal. apply (height_zero b). lia.
Qed.

Lemma repeated_cleanup_empties_the_folder_nested :
  plain (parse "in") = true
  /\ purely_empty (Dir false [("a", Dir false [("b", Dir false [])])]) = true
  /\ exists n',
       stat (parse "in")
         (tree (Nat.iter 2 (after (delete_empty_folders (parse "in")))
                  (Examples.fresh Examples.nested_empty))) = Ret n'
       /\ exists b, n' = Dir b [].
Proof.
  split; [reflexivity|]. split; [reflexivity|].
  destruct (repeated_cleanup_empties_the_folder (parse "in")
              (Examples.fresh Examples.nested_empty)
              (Dir false [("a", Dir false [("b", Dir false [])])]) 2)
    as (n' & S & _ & _ & E); try reflexivity.
  exists n'. split; [exact S|]. apply E. cbn. lia.
Defined.

(** ** More on rows and on path components *)

Section MoreRows.

Context {OS : Platform}.

Lemma split_slash_aux_pieces (s cur c : string) :
  occurs "/" cur = false ->
  In c (split_slash_aux cur s) -> occurs "/" c = false.
Proof.
  revert cur. induction s as [|d s IH]; intros cur Hcur.
  - cbn. intros [<-|[]]. exact Hcur.
  - cbn [split_slash_aux]. destruct (Ascii.eqb d "/") eqn:E.
    + cbn [In]. intros [<-|H]; [exact Hcur|]. apply (IH EmptyString); [reflexivity|exact H].
    + apply IH. clear IH. induction cur as [|x cur IHc].
      * rewrite append_nil_l. cbn [occurs]. rewrite Ascii.eqb_sym, E. reflexivity.
      * rewrite append_cons. cbn [occurs] in *.
        apply orb_false_elim in Hcur as [Hx Hcur].
        rewrite Hx, (IHc Hcur). reflexivity.
Qed.

(** What the reading of a string gives: components that are not empty, not
    the single dot, and without a slash. *)
Lemma parse_parts (s c : string) :
  In c (parts (parse s)) ->
  c <> EmptyString /\ c <> "." /\ occurs "/" c = false.
Proof.
  unfold parse. cbn [parts]. rewrite List.filter_In. intros [Hin Hk].
  unfold kept_component in Hk. apply andb_prop in Hk as [K1 K2].
  apply negb_true_iff in K1, K2.
  split; [intros ->; discriminate|]. split; [intros ->; discriminate|].
  eapply (split_slash_aux_pieces s EmptyString); [reflexivity|exact Hin].
Qed.

Lemma joinpath_parts (p : Path) (s c : string) :
  In c (parts (p / s)%path) -> In c (parts p) \/ In c (parts (parse s)).
Proof.
  unfold joinpath. destruct (anchored (parse s)).
  - intros H. right. exact H.
  - cbn [parts]. apply in_app_or.
Qed.

Lemma joinpath_dot (p : Path) : (p / ".")%path = p.
Proof.
  unfold joinpath. cbn. rewrite app_nil_r. destruct p; reflexivity.
Qed.

End MoreRows.

(** X17.  The row formed for a file whose metadata was read lists the five
    fields as they were read, not as the resolver uses them (an empty
    artist stays empty, an album keeps the characters the sanitizer
    removes), and then the resolved destination when the move succeeded,
    an empty field when it did not.  When every cell of it can be encoded
    the row is appended to the manifest and the turn returns; otherwise
    nothing is appended and the turn raises the error of the encoding. *)
Theorem row_of_a_file {OS : Platform} (file_path base_folder : Path) (w : world)
  (info : Info) :
  fst (get_music_info_body file_path w) = Ret info ->
  let row :=
    [Str (name_ info); Str (artists info); Str (main_artist info);
     Str (year info); Str (album info);
     match fst (move_music_file file_path info base_folder w) with
     | Ret (Some _) => PathCell (resolved_destination file_path info base_folder)
     | _ => NoneCell
     end] in
  row_of file_path base_folder w = Some row
  /\ (if forallb encodable row
      then fst (process_file file_path base_folder w) = Ret tt
           /\ manifest (after (process_file file_path base_folder) w)
              = manifest w ++ [row]
      else fst (process_file file_path base_folder w) = Raise UnicodeEncodeError
           /\ manifest (after (process_file file_path base_folder) w)
              = manifest w).
Proof.
  intros H row.
  assert (R : row = data_row info
                      (match fst (move_music_file file_path info base_folder w) with
                       | Ret r => r
                       | Raise _ => None
                       end)).
  { unfold row, data_row.
    destruct (move_music_file file_path info base_folder w) as [[[p|]|e] w1] eqn:E;
      cbn [fst]; try reflexivity.
    rewrite (move_music_file_returns _ _ _ _ _ _ E). reflexivity. }
  split; [rewrite R; apply row_of_row, H|].
  unfold after. rewrite (process_file_row _ _ _ _ H), <- R, writerow_outcome.
  destruct (forallb encodable row); cbn [fst snd manifest];
    rewrite move_music_file_manifest; split; reflexivity.
Qed.

Lemma row_of_a_file_library :
  manifest (after (process_file (parse "in/x.mp3") (parse "out"))
              (Examples.fresh Examples.library))
  = [[Str "T"; Str "Unknown"; Str "abba"; Str "Unknown"; Str "Best:Of";
      PathCell (parse "out/A/abba/BestOf/x.mp3")]].
Proof.
  destruct (row_of_a_file (parse "in/x.mp3") (parse "out")
              (Examples.fresh Examples.library) Examples.x_info) as [_ E];
    [reflexivity|].
  vm_compute in E. destruct E as [_ E]. exact E.
Defined.

(** A file under a name that is no UTF-8: it is moved, and its row is not
    written. *)
Example row_of_an_undecodable_name :
  let w' := after (process_file (parse "in" / Examples.odd_name)%path (parse "out"))
              (Examples.fresh Examples.undecodable) in
  fst (process_file (parse "in" / Examples.odd_name)%path (parse "out")
         (Examples.fresh Examples.undecodable)) = Raise UnicodeEncodeError
  /\ manifest w' = []
  /\ is_file (parse "out/A/Abba/Gold" / Examples.odd_name)%path (tree w') = true
  /\ is_file (parse "in" / Examples.odd_name)%path (tree w') = false.
Proof. cbv zeta. repeat split; vm_compute; reflexivity. Qed.

(** X18.  Whatever the metadata, every component of the destination folder
    either is a component of the base root or is a name the path accepts:
    not empty, not the single dot, and without a slash. *)
Theorem destination_components {OS : Platform} (info : Info)
  (base_folder new_folder : Path) (c : string) :
  new_folder_of info base_folder = Ret new_folder ->
  In c (parts new_folder) ->
  In c (parts base_folder)
  \/ (c <> EmptyString /\ c <> "." /\ occurs "/" c = false).
Proof.
  rewrite new_folder_of_eq. intros [= <-] H.
  apply joinpath_parts in H as [H|H]; [|right; eapply parse_parts, H].
  apply joinpath_parts in H as [H|H]; [|right; eapply parse_parts, H].
  apply joinpath_parts in H as [H|H]; [|right; eapply parse_parts, H].
  left. exact H.
Qed.

Lemma destination_components_scenario :
  new_folder_of (mkInfo "X" "Y" "Artist/Z" "2020" "Best:Of") (parse "base")
  = Ret (parse "base/A/Artist/Z/BestOf")
  /\ In "Z" (parts (parse "base/A/Artist/Z/BestOf"))
  /\ occurs "/" "Z" = false.
Proof.
  split; [reflexivity|]. split; [vm_compute; tauto|].
  destruct (destination_components (mkInfo "X" "Y" "Artist/Z" "2020" "Best:Of")
              (parse "base") (parse "base/A/Artist/Z/BestOf") "Z")
    as [H|(_ & _ & H)].
  - reflexivity.
  - vm_compute. tauto.
  - vm_compute in H. destruct H as [H|[]]. discriminate H.
  - exact H.
Defined.

(** X19.  An artist whose name starts with a dot (and has no slash, and
    something other than a second dot after the dot) gets no first-letter
    folder: the first letter is the dot, which [str.upper] leaves alone and
    the path drops, so that the component after those of the base root is
    the artist, followed by what the album gives. *)
Theorem dotted_artist_has_no_letter_folder {OS : Platform} (info : Info)
  (base_folder : Path) (rest : string) :
  str_upper "." = "." ->
  main_artist info = String "." rest ->
  rest <> EmptyString ->
  rest <> "." ->
  occurs "/" rest = false ->
  new_folder_of info base_folder
  = Ret (mkPath (anchored base_folder)
           (parts base_folder ++
            main_artist info :: parts (parse (album_component info))))
  /\ main_artist info <> "..".
Proof.
  intros Hupper E Hrest Hdot Hslash. split; [|rewrite E; congruence].
  rewrite new_folder_of_eq. f_equal.
  unfold artist_component, or_unknown, first_letter_of. rewrite E.
  cbn [truthy]. change (String.eqb (String "." rest) "Unknown") with false.
  cbn iota.
  change (first_char (String "." rest)) with (Some "."). cbv beta iota.
  rewrite Hupper, joinpath_dot.
  rewrite (joinpath_one_component base_folder (String "." rest)).
  - assert (P : anchored (parse (album_component info)) = false).
    { unfold parse. cbn [anchored].
      pose proof (album_component_no_slash info) as N.
      destruct (album_component info) as [|d s]; [reflexivity|].
      cbn [occurs] in N. apply orb_false_elim in N as [N _].
      cbn. rewrite Ascii.eqb_sym. exact N. }
    unfold joinpath. rewrite P. unfold child. cbn [anchored parts].
    rewrite <- app_assoc. reflexivity.
  - cbn [occurs]. rewrite Hslash. reflexivity.
  - discriminate.
  - intros [= ->]. congruence.
Qed.

Lemma dotted_artist_has_no_letter_folder_example :
  new_folder_of (mkInfo "X" "Y" ".38 Special" "1981" "Wild") (parse "base")
  = Ret (parse "base/.38 Special/Wild").
Proof.
  destruct (dotted_artist_has_no_letter_folder
              (mkInfo "X" "Y" ".38 Special" "1981" "Wild") (parse "base")
              "38 Special") as [E _];
    [reflexivity|reflexivity|discriminate|discriminate|reflexivity|exact E].
Defined.
